(** * UPN QR to EPC QR conversion: the parser and encoder core

    A shallow embedding of [unp_qr_decode.py], [epc_qr.py], [upn_parser.py]
    and the text normalisation of [pdf_qr_extract.py]; further on, of what
    [pdf_qr_extract.py] does with the codes the image libraries report, of
    the register and the outcome of a run in [pdf_io.py], and of the
    configuration of [service/mail_service.py].

    - A Python [str] is a list of Unicode code points, [bytes] a list of
      bytes, [None] or a value an [option].
    - Whitespace, decimal digits, digits and upper case are those of
      Python 3.11 (Unicode 14.0), over all code points.
    - A [float] amount is kept as the exact rational it stands for: the
      parsers build amounts from an integer number of hundredths, and the
      double nearest to such a number determines it.
    - [re] patterns are regular expressions matched by derivatives.
    - A [while] loop over the lines is a recursion on the lines still to
      come. *)

From Stdlib Require Import String Ascii List NArith ZArith QArith Bool Lia.
Import ListNotations.

Local Open Scope N_scope.

(** ** Python strings *)

Definition char := N.
Definition str := list char.

(** An ASCII literal as a [str]. *)
Definition lit (s : string) : str :=
  List.map N_of_ascii (list_ascii_of_string s).

Definition NL : char := 10.

Definition in_range (lo hi c : char) : bool := (lo <=? c) && (c <=? hi).

(** [str.isspace] on one code point; the class [\s] of [re] on [str]
    patterns is the same set. *)
Definition is_space (c : char) : bool :=
  in_range 9 13 c || in_range 28 32 c || (c =? 133) || (c =? 160)
  || (c =? 5760) || in_range 8192 8202 c || (c =? 8232) || (c =? 8233)
  || (c =? 8239) || (c =? 8287) || (c =? 12288).

(** Decimal digits: the class [\d] of [re] on [str] patterns, and what
    [int] and [float] read as a digit. They are the characters of category
    Nd, which come in runs of ten, zero to nine. [nd_zeros] lists the zero
    of every run after ASCII's (Unicode 14.0, the tables of Python 3.11). *)
Definition nd_zeros : list char :=
  [1632; 1776; 1984; 2406; 2534; 2662; 2790; 2918; 3046; 3174; 3302; 3430;
   3558; 3664; 3792; 3872; 4160; 4240; 6112; 6160; 6470; 6608; 6784; 6800;
   6992; 7088; 7232; 7248; 42528; 43216; 43264; 43472; 43504; 43600; 44016;
   65296; 66720; 68912; 69734; 69872; 69942; 70096; 70384; 70736; 70864;
   71248; 71360; 71472; 71904; 72016; 72784; 73040; 73120; 92768; 92864;
   93008; 120782; 120792; 120802; 120812; 120822; 123200; 123632; 125264;
   130032].

(** The zero of the run of [c], for a decimal digit outside ASCII. *)
Definition nd_zero_of (c : char) : option char :=
  find (fun z => in_range z (z + 9) c) nd_zeros.

Definition is_decimal (c : char) : bool :=
  in_range 48 57 c ||
  match nd_zero_of c with Some _ => true | None => false end.

(** The value of a decimal digit. *)
Definition digit_value (c : char) : Z :=
  match nd_zero_of c with
  | Some z => Z.of_N c - Z.of_N z
  | None => Z.of_N c - 48
  end.

(** The digits that are not decimal digits (superscripts, circled digits
    and the like), as ranges. *)
Definition other_digits : list (char * char) :=
  [(178, 179); (185, 185); (4969, 4977); (6618, 6618); (8304, 8304);
   (8308, 8313); (8320, 8329); (9312, 9320); (9332, 9340); (9352, 9360);
   (9450, 9450); (9461, 9469); (9471, 9471); (10102, 10110); (10112, 10120);
   (10122, 10130); (68160, 68163); (69216, 69224); (69714, 69722);
   (127232, 127242)].

(** [str.isdigit] on one code point. *)
Definition is_digit_char (c : char) : bool :=
  is_decimal c || existsb (fun r => in_range (fst r) (snd r) c) other_digits.

(** The code points [str.upper] changes, each with what it becomes: one,
    two or three code points (Unicode 14.0). *)
Definition upper_table : list (char * str) :=
  [(97, [65]); (98, [66]); (99, [67]); (100, [68]); (101, [69]); (102, [70]);
   (103, [71]); (104, [72]); (105, [73]); (106, [74]); (107, [75]);
   (108, [76]); (109, [77]); (110, [78]); (111, [79]); (112, [80]);
   (113, [81]); (114, [82]); (115, [83]); (116, [84]); (117, [85]);
   (118, [86]); (119, [87]); (120, [88]); (121, [89]); (122, [90]);
   (181, [924]); (223, [83; 83]); (224, [192]); (225, [193]); (226, [194]);
   (227, [195]); (228, [196]); (229, [197]); (230, [198]); (231, [199]);
   (232, [200]); (233, [201]); (234, [202]); (235, [203]); (236, [204]);
   (237, [205]); (238, [206]); (239, [207]); (240, [208]); (241, [209]);
   (242, [210]); (243, [211]); (244, [212]); (245, [213]); (246, [214]);
   (248, [216]); (249, [217]); (250, [218]); (251, [219]); (252, [220]);
   (253, [221]); (254, [222]); (255, [376]); (257, [256]); (259, [258]);
   (261, [260]); (263, [262]); (265, [264]); (267, [266]); (269, [268]);
   (271, [270]); (273, [272]); (275, [274]); (277, [276]); (279, [278]);
   (281, [280]); (283, [282]); (285, [284]); (287, [286]); (289, [288]);
   (291, [290]); (293, [292]); (295, [294]); (297, [296]); (299, [298]);
   (301, [300]); (303, [302]); (305, [73]); (307, [306]); (309, [308]);
   (311, [310]); (314, [313]); (316, [315]); (318, [317]); (320, [319]);
   (322, [321]); (324, [323]); (326, [325]); (328, [327]); (329, [700; 78]);
   (331, [330]); (333, [332]); (335, [334]); (337, [336]); (339, [338]);
   (341, [340]); (343, [342]); (345, [344]); (347, [346]); (349, [348]);
   (351, [350]); (353, [352]); (355, [354]); (357, [356]); (359, [358]);
   (361, [360]); (363, [362]); (365, [364]); (367, [366]); (369, [368]);
   (371, [370]); (373, [372]); (375, [374]); (378, [377]); (380, [379]);
   (382, [381]); (383, [83]); (384, [579]); (387, [386]); (389, [388]);
   (392, [391]); (396, [395]); (402, [401]); (405, [502]); (409, [408]);
   (410, [573]); (414, [544]); (417, [416]); (419, [418]); (421, [420]);
   (424, [423]); (429, [428]); (432, [431]); (436, [435]); (438, [437]);
   (441, [440]); (445, [444]); (447, [503]); (453, [452]); (454, [452]);
   (456, [455]); (457, [455]); (459, [458]); (460, [458]); (462, [461]);
   (464, [463]); (466, [465]); (468, [467]); (470, [469]); (472, [471]);
   (474, [473]); (476, [475]); (477, [398]); (479, [478]); (481, [480]);
   (483, [482]); (485, [484]); (487, [486]); (489, [488]); (491, [490]);
   (493, [492]); (495, [494]); (496, [74; 780]); (498, [497]); (499, [497]);
   (501, [500]); (505, [504]); (507, [506]); (509, [508]); (511, [510]);
   (513, [512]); (515, [514]); (517, [516]); (519, [518]); (521, [520]);
   (523, [522]); (525, [524]); (527, [526]); (529, [528]); (531, [530]);
   (533, [532]); (535, [534]); (537, [536]); (539, [538]); (541, [540]);
   (543, [542]); (547, [546]); (549, [548]); (551, [550]); (553, [552]);
   (555, [554]); (557, [556]); (559, [558]); (561, [560]); (563, [562]);
   (572, [571]); (575, [11390]); (576, [11391]); (578, [577]); (583, [582]);
   (585, [584]); (587, [586]); (589, [588]); (591, [590]); (592, [11375]);
   (593, [11373]); (594, [11376]); (595, [385]); (596, [390]); (598, [393]);
   (599, [394]); (601, [399]); (603, [400]); (604, [42923]); (608, [403]);
   (609, [42924]); (611, [404]); (613, [42893]); (614, [42922]); (616, [407]);
   (617, [406]); (618, [42926]); (619, [11362]); (620, [42925]); (623, [412]);
   (625, [11374]); (626, [413]); (629, [415]); (637, [11364]); (640, [422]);
   (642, [42949]); (643, [425]); (647, [42929]); (648, [430]); (649, [580]);
   (650, [433]); (651, [434]); (652, [581]); (658, [439]); (669, [42930]);
   (670, [42928]); (837, [921]); (881, [880]); (883, [882]); (887, [886]);
   (891, [1021]); (892, [1022]); (893, [1023]); (912, [921; 776; 769]);
   (940, [902]); (941, [904]); (942, [905]); (943, [906]);
   (944, [933; 776; 769]); (945, [913]); (946, [914]); (947, [915]);
   (948, [916]); (949, [917]); (950, [918]); (951, [919]); (952, [920]);
   (953, [921]); (954, [922]); (955, [923]); (956, [924]); (957, [925]);
   (958, [926]); (959, [927]); (960, [928]); (961, [929]); (962, [931]);
   (963, [931]); (964, [932]); (965, [933]); (966, [934]); (967, [935]);
   (968, [936]); (969, [937]); (970, [938]); (971, [939]); (972, [908]);
   (973, [910]); (974, [911]); (976, [914]); (977, [920]); (981, [934]);
   (982, [928]); (983, [975]); (985, [984]); (987, [986]); (989, [988]);
   (991, [990]); (993, [992]); (995, [994]); (997, [996]); (999, [998]);
   (1001, [1000]); (1003, [1002]); (1005, [1004]); (1007, [1006]);
   (1008, [922]); (1009, [929]); (1010, [1017]); (1011, [895]); (1013, [917]);
   (1016, [1015]); (1019, [1018]); (1072, [1040]); (1073, [1041]);
   (1074, [1042]); (1075, [1043]); (1076, [1044]); (1077, [1045]);
   (1078, [1046]); (1079, [1047]); (1080, [1048]); (1081, [1049]);
   (1082, [1050]); (1083, [1051]); (1084, [1052]); (1085, [1053]);
   (1086, [1054]); (1087, [1055]); (1088, [1056]); (1089, [1057]);
   (1090, [1058]); (1091, [1059]); (1092, [1060]); (1093, [1061]);
   (1094, [1062]); (1095, [1063]); (1096, [1064]); (1097, [1065]);
   (1098, [1066]); (1099, [1067]); (1100, [1068]); (1101, [1069]);
   (1102, [1070]); (1103, [1071]); (1104, [1024]); (1105, [1025]);
   (1106, [1026]); (1107, [1027]); (1108, [1028]); (1109, [1029]);
   (1110, [1030]); (1111, [1031]); (1112, [1032]); (1113, [1033]);
   (1114, [1034]); (1115, [1035]); (1116, [1036]); (1117, [1037]);
   (1118, [1038]); (1119, [1039]); (1121, [1120]); (1123, [1122]);
   (1125, [1124]); (1127, [1126]); (1129, [1128]); (1131, [1130]);
   (1133, [1132]); (1135, [1134]); (1137, [1136]); (1139, [1138]);
   (1141, [1140]); (1143, [1142]); (1145, [1144]); (1147, [1146]);
   (1149, [1148]); (1151, [1150]); (1153, [1152]); (1163, [1162]);
   (1165, [1164]); (1167, [1166]); (1169, [1168]); (1171, [1170]);
   (1173, [1172]); (1175, [1174]); (1177, [1176]); (1179, [1178]);
   (1181, [1180]); (1183, [1182]); (1185, [1184]); (1187, [1186]);
   (1189, [1188]); (1191, [1190]); (1193, [1192]); (1195, [1194]);
   (1197, [1196]); (1199, [1198]); (1201, [1200]); (1203, [1202]);
   (1205, [1204]); (1207, [1206]); (1209, [1208]); (1211, [1210]);
   (1213, [1212]); (1215, [1214]); (1218, [1217]); (1220, [1219]);
   (1222, [1221]); (1224, [1223]); (1226, [1225]); (1228, [1227]);
   (1230, [1229]); (1231, [1216]); (1233, [1232]); (1235, [1234]);
   (1237, [1236]); (1239, [1238]); (1241, [1240]); (1243, [1242]);
   (1245, [1244]); (1247, [1246]); (1249, [1248]); (1251, [1250]);
   (1253, [1252]); (1255, [1254]); (1257, [1256]); (1259, [1258]);
   (1261, [1260]); (1263, [1262]); (1265, [1264]); (1267, [1266]);
   (1269, [1268]); (1271, [1270]); (1273, [1272]); (1275, [1274]);
   (1277, [1276]); (1279, [1278]); (1281, [1280]); (1283, [1282]);
   (1285, [1284]); (1287, [1286]); (1289, [1288]); (1291, [1290]);
   (1293, [1292]); (1295, [1294]); (1297, [1296]); (1299, [1298]);
   (1301, [1300]); (1303, [1302]); (1305, [1304]); (1307, [1306]);
   (1309, [1308]); (1311, [1310]); (1313, [1312]); (1315, [1314]);
   (1317, [1316]); (1319, [1318]); (1321, [1320]); (1323, [1322]);
   (1325, [1324]); (1327, [1326]); (1377, [1329]); (1378, [1330]);
   (1379, [1331]); (1380, [1332]); (1381, [1333]); (1382, [1334]);
   (1383, [1335]); (1384, [1336]); (1385, [1337]); (1386, [1338]);
   (1387, [1339]); (1388, [1340]); (1389, [1341]); (1390, [1342]);
   (1391, [1343]); (1392, [1344]); (1393, [1345]); (1394, [1346]);
   (1395, [1347]); (1396, [1348]); (1397, [1349]); (1398, [1350]);
   (1399, [1351]); (1400, [1352]); (1401, [1353]); (1402, [1354]);
   (1403, [1355]); (1404, [1356]); (1405, [1357]); (1406, [1358]);
   (1407, [1359]); (1408, [1360]); (1409, [1361]); (1410, [1362]);
   (1411, [1363]); (1412, [1364]); (1413, [1365]); (1414, [1366]);
   (1415, [1333; 1362]); (4304, [7312]); (4305, [7313]); (4306, [7314]);
   (4307, [7315]); (4308, [7316]); (4309, [7317]); (4310, [7318]);
   (4311, [7319]); (4312, [7320]); (4313, [7321]); (4314, [7322]);
   (4315, [7323]); (4316, [7324]); (4317, [7325]); (4318, [7326]);
   (4319, [7327]); (4320, [7328]); (4321, [7329]); (4322, [7330]);
   (4323, [7331]); (4324, [7332]); (4325, [7333]); (4326, [7334]);
   (4327, [7335]); (4328, [7336]); (4329, [7337]); (4330, [7338]);
   (4331, [7339]); (4332, [7340]); (4333, [7341]); (4334, [7342]);
   (4335, [7343]); (4336, [7344]); (4337, [7345]); (4338, [7346]);
   (4339, [7347]); (4340, [7348]); (4341, [7349]); (4342, [7350]);
   (4343, [7351]); (4344, [7352]); (4345, [7353]); (4346, [7354]);
   (4349, [7357]); (4350, [7358]); (4351, [7359]); (5112, [5104]);
   (5113, [5105]); (5114, [5106]); (5115, [5107]); (5116, [5108]);
   (5117, [5109]); (7296, [1042]); (7297, [1044]); (7298, [1054]);
   (7299, [1057]); (7300, [1058]); (7301, [1058]); (7302, [1066]);
   (7303, [1122]); (7304, [42570]); (7545, [42877]); (7549, [11363]);
   (7566, [42950]); (7681, [7680]); (7683, [7682]); (7685, [7684]);
   (7687, [7686]); (7689, [7688]); (7691, [7690]); (7693, [7692]);
   (7695, [7694]); (7697, [7696]); (7699, [7698]); (7701, [7700]);
   (7703, [7702]); (7705, [7704]); (7707, [7706]); (7709, [7708]);
   (7711, [7710]); (7713, [7712]); (7715, [7714]); (7717, [7716]);
   (7719, [7718]); (7721, [7720]); (7723, [7722]); (7725, [7724]);
   (7727, [7726]); (7729, [7728]); (7731, [7730]); (7733, [7732]);
   (7735, [7734]); (7737, [7736]); (7739, [7738]); (7741, [7740]);
   (7743, [7742]); (7745, [7744]); (7747, [7746]); (7749, [7748]);
   (7751, [7750]); (7753, [7752]); (7755, [7754]); (7757, [7756]);
   (7759, [7758]); (7761, [7760]); (7763, [7762]); (7765, [7764]);
   (7767, [7766]); (7769, [7768]); (7771, [7770]); (7773, [7772]);
   (7775, [7774]); (7777, [7776]); (7779, [7778]); (7781, [7780]);
   (7783, [7782]); (7785, [7784]); (7787, [7786]); (7789, [7788]);
   (7791, [7790]); (7793, [7792]); (7795, [7794]); (7797, [7796]);
   (7799, [7798]); (7801, [7800]); (7803, [7802]); (7805, [7804]);
   (7807, [7806]); (7809, [7808]); (7811, [7810]); (7813, [7812]);
   (7815, [7814]); (7817, [7816]); (7819, [7818]); (7821, [7820]);
   (7823, [7822]); (7825, [7824]); (7827, [7826]); (7829, [7828]);
   (7830, [72; 817]); (7831, [84; 776]); (7832, [87; 778]); (7833, [89; 778]);
   (7834, [65; 702]); (7835, [7776]); (7841, [7840]); (7843, [7842]);
   (7845, [7844]); (7847, [7846]); (7849, [7848]); (7851, [7850]);
   (7853, [7852]); (7855, [7854]); (7857, [7856]); (7859, [7858]);
   (7861, [7860]); (7863, [7862]); (7865, [7864]); (7867, [7866]);
   (7869, [7868]); (7871, [7870]); (7873, [7872]); (7875, [7874]);
   (7877, [7876]); (7879, [7878]); (7881, [7880]); (7883, [7882]);
   (7885, [7884]); (7887, [7886]); (7889, [7888]); (7891, [7890]);
   (7893, [7892]); (7895, [7894]); (7897, [7896]); (7899, [7898]);
   (7901, [7900]); (7903, [7902]); (7905, [7904]); (7907, [7906]);
   (7909, [7908]); (7911, [7910]); (7913, [7912]); (7915, [7914]);
   (7917, [7916]); (7919, [7918]); (7921, [7920]); (7923, [7922]);
   (7925, [7924]); (7927, [7926]); (7929, [7928]); (7931, [7930]);
   (7933, [7932]); (7935, [7934]); (7936, [7944]); (7937, [7945]);
   (7938, [7946]); (7939, [7947]); (7940, [7948]); (7941, [7949]);
   (7942, [7950]); (7943, [7951]); (7952, [7960]); (7953, [7961]);
   (7954, [7962]); (7955, [7963]); (7956, [7964]); (7957, [7965]);
   (7968, [7976]); (7969, [7977]); (7970, [7978]); (7971, [7979]);
   (7972, [7980]); (7973, [7981]); (7974, [7982]); (7975, [7983]);
   (7984, [7992]); (7985, [7993]); (7986, [7994]); (7987, [7995]);
   (7988, [7996]); (7989, [7997]); (7990, [7998]); (7991, [7999]);
   (8000, [8008]); (8001, [8009]); (8002, [8010]); (8003, [8011]);
   (8004, [8012]); (8005, [8013]); (8016, [933; 787]); (8017, [8025]);
   (8018, [933; 787; 768]); (8019, [8027]); (8020, [933; 787; 769]);
   (8021, [8029]); (8022, [933; 787; 834]); (8023, [8031]); (8032, [8040]);
   (8033, [8041]); (8034, [8042]); (8035, [8043]); (8036, [8044]);
   (8037, [8045]); (8038, [8046]); (8039, [8047]); (8048, [8122]);
   (8049, [8123]); (8050, [8136]); (8051, [8137]); (8052, [8138]);
   (8053, [8139]); (8054, [8154]); (8055, [8155]); (8056, [8184]);
   (8057, [8185]); (8058, [8170]); (8059, [8171]); (8060, [8186]);
   (8061, [8187]); (8064, [7944; 921]); (8065, [7945; 921]);
   (8066, [7946; 921]); (8067, [7947; 921]); (8068, [7948; 921]);
   (8069, [7949; 921]); (8070, [7950; 921]); (8071, [7951; 921]);
   (8072, [7944; 921]); (8073, [7945; 921]); (8074, [7946; 921]);
   (8075, [7947; 921]); (8076, [7948; 921]); (8077, [7949; 921]);
   (8078, [7950; 921]); (8079, [7951; 921]); (8080, [7976; 921]);
   (8081, [7977; 921]); (8082, [7978; 921]); (8083, [7979; 921]);
   (8084, [7980; 921]); (8085, [7981; 921]); (8086, [7982; 921]);
   (8087, [7983; 921]); (8088, [7976; 921]); (8089, [7977; 921]);
   (8090, [7978; 921]); (8091, [7979; 921]); (8092, [7980; 921]);
   (8093, [7981; 921]); (8094, [7982; 921]); (8095, [7983; 921]);
   (8096, [8040; 921]); (8097, [8041; 921]); (8098, [8042; 921]);
   (8099, [8043; 921]); (8100, [8044; 921]); (8101, [8045; 921]);
   (8102, [8046; 921]); (8103, [8047; 921]); (8104, [8040; 921]);
   (8105, [8041; 921]); (8106, [8042; 921]); (8107, [8043; 921]);
   (8108, [8044; 921]); (8109, [8045; 921]); (8110, [8046; 921]);
   (8111, [8047; 921]); (8112, [8120]); (8113, [8121]); (8114, [8122; 921]);
   (8115, [913; 921]); (8116, [902; 921]); (8118, [913; 834]);
   (8119, [913; 834; 921]); (8124, [913; 921]); (8126, [921]);
   (8130, [8138; 921]); (8131, [919; 921]); (8132, [905; 921]);
   (8134, [919; 834]); (8135, [919; 834; 921]); (8140, [919; 921]);
   (8144, [8152]); (8145, [8153]); (8146, [921; 776; 768]);
   (8147, [921; 776; 769]); (8150, [921; 834]); (8151, [921; 776; 834]);
   (8160, [8168]); (8161, [8169]); (8162, [933; 776; 768]);
   (8163, [933; 776; 769]); (8164, [929; 787]); (8165, [8172]);
   (8166, [933; 834]); (8167, [933; 776; 834]); (8178, [8186; 921]);
   (8179, [937; 921]); (8180, [911; 921]); (8182, [937; 834]);
   (8183, [937; 834; 921]); (8188, [937; 921]); (8526, [8498]);
   (8560, [8544]); (8561, [8545]); (8562, [8546]); (8563, [8547]);
   (8564, [8548]); (8565, [8549]); (8566, [8550]); (8567, [8551]);
   (8568, [8552]); (8569, [8553]); (8570, [8554]); (8571, [8555]);
   (8572, [8556]); (8573, [8557]); (8574, [8558]); (8575, [8559]);
   (8580, [8579]); (9424, [9398]); (9425, [9399]); (9426, [9400]);
   (9427, [9401]); (9428, [9402]); (9429, [9403]); (9430, [9404]);
   (9431, [9405]); (9432, [9406]); (9433, [9407]); (9434, [9408]);
   (9435, [9409]); (9436, [9410]); (9437, [9411]); (9438, [9412]);
   (9439, [9413]); (9440, [9414]); (9441, [9415]); (9442, [9416]);
   (9443, [9417]); (9444, [9418]); (9445, [9419]); (9446, [9420]);
   (9447, [9421]); (9448, [9422]); (9449, [9423]); (11312, [11264]);
   (11313, [11265]); (11314, [11266]); (11315, [11267]); (11316, [11268]);
   (11317, [11269]); (11318, [11270]); (11319, [11271]); (11320, [11272]);
   (11321, [11273]); (11322, [11274]); (11323, [11275]); (11324, [11276]);
   (11325, [11277]); (11326, [11278]); (11327, [11279]); (11328, [11280]);
   (11329, [11281]); (11330, [11282]); (11331, [11283]); (11332, [11284]);
   (11333, [11285]); (11334, [11286]); (11335, [11287]); (11336, [11288]);
   (11337, [11289]); (11338, [11290]); (11339, [11291]); (11340, [11292]);
   (11341, [11293]); (11342, [11294]); (11343, [11295]); (11344, [11296]);
   (11345, [11297]); (11346, [11298]); (11347, [11299]); (11348, [11300]);
   (11349, [11301]); (11350, [11302]); (11351, [11303]); (11352, [11304]);
   (11353, [11305]); (11354, [11306]); (11355, [11307]); (11356, [11308]);
   (11357, [11309]); (11358, [11310]); (11359, [11311]); (11361, [11360]);
   (11365, [570]); (11366, [574]); (11368, [11367]); (11370, [11369]);
   (11372, [11371]); (11379, [11378]); (11382, [11381]); (11393, [11392]);
   (11395, [11394]); (11397, [11396]); (11399, [11398]); (11401, [11400]);
   (11403, [11402]); (11405, [11404]); (11407, [11406]); (11409, [11408]);
   (11411, [11410]); (11413, [11412]); (11415, [11414]); (11417, [11416]);
   (11419, [11418]); (11421, [11420]); (11423, [11422]); (11425, [11424]);
   (11427, [11426]); (11429, [11428]); (11431, [11430]); (11433, [11432]);
   (11435, [11434]); (11437, [11436]); (11439, [11438]); (11441, [11440]);
   (11443, [11442]); (11445, [11444]); (11447, [11446]); (11449, [11448]);
   (11451, [11450]); (11453, [11452]); (11455, [11454]); (11457, [11456]);
   (11459, [11458]); (11461, [11460]); (11463, [11462]); (11465, [11464]);
   (11467, [11466]); (11469, [11468]); (11471, [11470]); (11473, [11472]);
   (11475, [11474]); (11477, [11476]); (11479, [11478]); (11481, [11480]);
   (11483, [11482]); (11485, [11484]); (11487, [11486]); (11489, [11488]);
   (11491, [11490]); (11500, [11499]); (11502, [11501]); (11507, [11506]);
   (11520, [4256]); (11521, [4257]); (11522, [4258]); (11523, [4259]);
   (11524, [4260]); (11525, [4261]); (11526, [4262]); (11527, [4263]);
   (11528, [4264]); (11529, [4265]); (11530, [4266]); (11531, [4267]);
   (11532, [4268]); (11533, [4269]); (11534, [4270]); (11535, [4271]);
   (11536, [4272]); (11537, [4273]); (11538, [4274]); (11539, [4275]);
   (11540, [4276]); (11541, [4277]); (11542, [4278]); (11543, [4279]);
   (11544, [4280]); (11545, [4281]); (11546, [4282]); (11547, [4283]);
   (11548, [4284]); (11549, [4285]); (11550, [4286]); (11551, [4287]);
   (11552, [4288]); (11553, [4289]); (11554, [4290]); (11555, [4291]);
   (11556, [4292]); (11557, [4293]); (11559, [4295]); (11565, [4301]);
   (42561, [42560]); (42563, [42562]); (42565, [42564]); (42567, [42566]);
   (42569, [42568]); (42571, [42570]); (42573, [42572]); (42575, [42574]);
   (42577, [42576]); (42579, [42578]); (42581, [42580]); (42583, [42582]);
   (42585, [42584]); (42587, [42586]); (42589, [42588]); (42591, [42590]);
   (42593, [42592]); (42595, [42594]); (42597, [42596]); (42599, [42598]);
   (42601, [42600]); (42603, [42602]); (42605, [42604]); (42625, [42624]);
   (42627, [42626]); (42629, [42628]); (42631, [42630]); (42633, [42632]);
   (42635, [42634]); (42637, [42636]); (42639, [42638]); (42641, [42640]);
   (42643, [42642]); (42645, [42644]); (42647, [42646]); (42649, [42648]);
   (42651, [42650]); (42787, [42786]); (42789, [42788]); (42791, [42790]);
   (42793, [42792]); (42795, [42794]); (42797, [42796]); (42799, [42798]);
   (42803, [42802]); (42805, [42804]); (42807, [42806]); (42809, [42808]);
   (42811, [42810]); (42813, [42812]); (42815, [42814]); (42817, [42816]);
   (42819, [42818]); (42821, [42820]); (42823, [42822]); (42825, [42824]);
   (42827, [42826]); (42829, [42828]); (42831, [42830]); (42833, [42832]);
   (42835, [42834]); (42837, [42836]); (42839, [42838]); (42841, [42840]);
   (42843, [42842]); (42845, [42844]); (42847, [42846]); (42849, [42848]);
   (42851, [42850]); (42853, [42852]); (42855, [42854]); (42857, [42856]);
   (42859, [42858]); (42861, [42860]); (42863, [42862]); (42874, [42873]);
   (42876, [42875]); (42879, [42878]); (42881, [42880]); (42883, [42882]);
   (42885, [42884]); (42887, [42886]); (42892, [42891]); (42897, [42896]);
   (42899, [42898]); (42900, [42948]); (42903, [42902]); (42905, [42904]);
   (42907, [42906]); (42909, [42908]); (42911, [42910]); (42913, [42912]);
   (42915, [42914]); (42917, [42916]); (42919, [42918]); (42921, [42920]);
   (42933, [42932]); (42935, [42934]); (42937, [42936]); (42939, [42938]);
   (42941, [42940]); (42943, [42942]); (42945, [42944]); (42947, [42946]);
   (42952, [42951]); (42954, [42953]); (42961, [42960]); (42967, [42966]);
   (42969, [42968]); (42998, [42997]); (43859, [42931]); (43888, [5024]);
   (43889, [5025]); (43890, [5026]); (43891, [5027]); (43892, [5028]);
   (43893, [5029]); (43894, [5030]); (43895, [5031]); (43896, [5032]);
   (43897, [5033]); (43898, [5034]); (43899, [5035]); (43900, [5036]);
   (43901, [5037]); (43902, [5038]); (43903, [5039]); (43904, [5040]);
   (43905, [5041]); (43906, [5042]); (43907, [5043]); (43908, [5044]);
   (43909, [5045]); (43910, [5046]); (43911, [5047]); (43912, [5048]);
   (43913, [5049]); (43914, [5050]); (43915, [5051]); (43916, [5052]);
   (43917, [5053]); (43918, [5054]); (43919, [5055]); (43920, [5056]);
   (43921, [5057]); (43922, [5058]); (43923, [5059]); (43924, [5060]);
   (43925, [5061]); (43926, [5062]); (43927, [5063]); (43928, [5064]);
   (43929, [5065]); (43930, [5066]); (43931, [5067]); (43932, [5068]);
   (43933, [5069]); (43934, [5070]); (43935, [5071]); (43936, [5072]);
   (43937, [5073]); (43938, [5074]); (43939, [5075]); (43940, [5076]);
   (43941, [5077]); (43942, [5078]); (43943, [5079]); (43944, [5080]);
   (43945, [5081]); (43946, [5082]); (43947, [5083]); (43948, [5084]);
   (43949, [5085]); (43950, [5086]); (43951, [5087]); (43952, [5088]);
   (43953, [5089]); (43954, [5090]); (43955, [5091]); (43956, [5092]);
   (43957, [5093]); (43958, [5094]); (43959, [5095]); (43960, [5096]);
   (43961, [5097]); (43962, [5098]); (43963, [5099]); (43964, [5100]);
   (43965, [5101]); (43966, [5102]); (43967, [5103]); (64256, [70; 70]);
   (64257, [70; 73]); (64258, [70; 76]); (64259, [70; 70; 73]);
   (64260, [70; 70; 76]); (64261, [83; 84]); (64262, [83; 84]);
   (64275, [1348; 1350]); (64276, [1348; 1333]); (64277, [1348; 1339]);
   (64278, [1358; 1350]); (64279, [1348; 1341]); (65345, [65313]);
   (65346, [65314]); (65347, [65315]); (65348, [65316]); (65349, [65317]);
   (65350, [65318]); (65351, [65319]); (65352, [65320]); (65353, [65321]);
   (65354, [65322]); (65355, [65323]); (65356, [65324]); (65357, [65325]);
   (65358, [65326]); (65359, [65327]); (65360, [65328]); (65361, [65329]);
   (65362, [65330]); (65363, [65331]); (65364, [65332]); (65365, [65333]);
   (65366, [65334]); (65367, [65335]); (65368, [65336]); (65369, [65337]);
   (65370, [65338]); (66600, [66560]); (66601, [66561]); (66602, [66562]);
   (66603, [66563]); (66604, [66564]); (66605, [66565]); (66606, [66566]);
   (66607, [66567]); (66608, [66568]); (66609, [66569]); (66610, [66570]);
   (66611, [66571]); (66612, [66572]); (66613, [66573]); (66614, [66574]);
   (66615, [66575]); (66616, [66576]); (66617, [66577]); (66618, [66578]);
   (66619, [66579]); (66620, [66580]); (66621, [66581]); (66622, [66582]);
   (66623, [66583]); (66624, [66584]); (66625, [66585]); (66626, [66586]);
   (66627, [66587]); (66628, [66588]); (66629, [66589]); (66630, [66590]);
   (66631, [66591]); (66632, [66592]); (66633, [66593]); (66634, [66594]);
   (66635, [66595]); (66636, [66596]); (66637, [66597]); (66638, [66598]);
   (66639, [66599]); (66776, [66736]); (66777, [66737]); (66778, [66738]);
   (66779, [66739]); (66780, [66740]); (66781, [66741]); (66782, [66742]);
   (66783, [66743]); (66784, [66744]); (66785, [66745]); (66786, [66746]);
   (66787, [66747]); (66788, [66748]); (66789, [66749]); (66790, [66750]);
   (66791, [66751]); (66792, [66752]); (66793, [66753]); (66794, [66754]);
   (66795, [66755]); (66796, [66756]); (66797, [66757]); (66798, [66758]);
   (66799, [66759]); (66800, [66760]); (66801, [66761]); (66802, [66762]);
   (66803, [66763]); (66804, [66764]); (66805, [66765]); (66806, [66766]);
   (66807, [66767]); (66808, [66768]); (66809, [66769]); (66810, [66770]);
   (66811, [66771]); (66967, [66928]); (66968, [66929]); (66969, [66930]);
   (66970, [66931]); (66971, [66932]); (66972, [66933]); (66973, [66934]);
   (66974, [66935]); (66975, [66936]); (66976, [66937]); (66977, [66938]);
   (66979, [66940]); (66980, [66941]); (66981, [66942]); (66982, [66943]);
   (66983, [66944]); (66984, [66945]); (66985, [66946]); (66986, [66947]);
   (66987, [66948]); (66988, [66949]); (66989, [66950]); (66990, [66951]);
   (66991, [66952]); (66992, [66953]); (66993, [66954]); (66995, [66956]);
   (66996, [66957]); (66997, [66958]); (66998, [66959]); (66999, [66960]);
   (67000, [66961]); (67001, [66962]); (67003, [66964]); (67004, [66965]);
   (68800, [68736]); (68801, [68737]); (68802, [68738]); (68803, [68739]);
   (68804, [68740]); (68805, [68741]); (68806, [68742]); (68807, [68743]);
   (68808, [68744]); (68809, [68745]); (68810, [68746]); (68811, [68747]);
   (68812, [68748]); (68813, [68749]); (68814, [68750]); (68815, [68751]);
   (68816, [68752]); (68817, [68753]); (68818, [68754]); (68819, [68755]);
   (68820, [68756]); (68821, [68757]); (68822, [68758]); (68823, [68759]);
   (68824, [68760]); (68825, [68761]); (68826, [68762]); (68827, [68763]);
   (68828, [68764]); (68829, [68765]); (68830, [68766]); (68831, [68767]);
   (68832, [68768]); (68833, [68769]); (68834, [68770]); (68835, [68771]);
   (68836, [68772]); (68837, [68773]); (68838, [68774]); (68839, [68775]);
   (68840, [68776]); (68841, [68777]); (68842, [68778]); (68843, [68779]);
   (68844, [68780]); (68845, [68781]); (68846, [68782]); (68847, [68783]);
   (68848, [68784]); (68849, [68785]); (68850, [68786]); (71872, [71840]);
   (71873, [71841]); (71874, [71842]); (71875, [71843]); (71876, [71844]);
   (71877, [71845]); (71878, [71846]); (71879, [71847]); (71880, [71848]);
   (71881, [71849]); (71882, [71850]); (71883, [71851]); (71884, [71852]);
   (71885, [71853]); (71886, [71854]); (71887, [71855]); (71888, [71856]);
   (71889, [71857]); (71890, [71858]); (71891, [71859]); (71892, [71860]);
   (71893, [71861]); (71894, [71862]); (71895, [71863]); (71896, [71864]);
   (71897, [71865]); (71898, [71866]); (71899, [71867]); (71900, [71868]);
   (71901, [71869]); (71902, [71870]); (71903, [71871]); (93792, [93760]);
   (93793, [93761]); (93794, [93762]); (93795, [93763]); (93796, [93764]);
   (93797, [93765]); (93798, [93766]); (93799, [93767]); (93800, [93768]);
   (93801, [93769]); (93802, [93770]); (93803, [93771]); (93804, [93772]);
   (93805, [93773]); (93806, [93774]); (93807, [93775]); (93808, [93776]);
   (93809, [93777]); (93810, [93778]); (93811, [93779]); (93812, [93780]);
   (93813, [93781]); (93814, [93782]); (93815, [93783]); (93816, [93784]);
   (93817, [93785]); (93818, [93786]); (93819, [93787]); (93820, [93788]);
   (93821, [93789]); (93822, [93790]); (93823, [93791]); (125218, [125184]);
   (125219, [125185]); (125220, [125186]); (125221, [125187]);
   (125222, [125188]); (125223, [125189]); (125224, [125190]);
   (125225, [125191]); (125226, [125192]); (125227, [125193]);
   (125228, [125194]); (125229, [125195]); (125230, [125196]);
   (125231, [125197]); (125232, [125198]); (125233, [125199]);
   (125234, [125200]); (125235, [125201]); (125236, [125202]);
   (125237, [125203]); (125238, [125204]); (125239, [125205]);
   (125240, [125206]); (125241, [125207]); (125242, [125208]);
   (125243, [125209]); (125244, [125210]); (125245, [125211]);
   (125246, [125212]); (125247, [125213]); (125248, [125214]);
   (125249, [125215]); (125250, [125216]); (125251, [125217])].

(** [str.upper] on one code point. *)
Definition upper_char (c : char) : str :=
  match find (fun e => fst e =? c) upper_table with
  | Some e => snd e
  | None => [c]
  end.

Arguments nd_zero_of : simpl never.
Arguments is_decimal : simpl never.
Arguments digit_value : simpl never.
Arguments is_digit_char : simpl never.
Arguments upper_char : simpl never.

Definition upper (s : str) : str := flat_map upper_char s.

Fixpoint drop_while (f : char -> bool) (s : str) : str :=
  match s with
  | [] => []
  | c :: t => if f c then drop_while f t else s
  end.

Fixpoint take_while (f : char -> bool) (s : str) : str :=
  match s with
  | [] => []
  | c :: t => if f c then c :: take_while f t else []
  end.

Definition lstrip (s : str) : str := drop_while is_space s.
Definition rstrip (s : str) : str := rev (drop_while is_space (rev s)).

(** [s.strip()] *)
Definition strip (s : str) : str := rstrip (lstrip s).

(** [s.split(sep)] for a one-character separator: never an empty list. *)
Fixpoint split_on (sep : char) (s : str) : list str :=
  match s with
  | [] => [[]]
  | c :: t =>
      if c =? sep then [] :: split_on sep t
      else match split_on sep t with
           | [] => [[c]]
           | l :: ls => (c :: l) :: ls
           end
  end.

(** [sep.join(parts)] *)
Fixpoint join (sep : str) (parts : list str) : str :=
  match parts with
  | [] => []
  | [p] => p
  | p :: ps => p ++ sep ++ join sep ps
  end.

Fixpoint str_eqb (a b : str) : bool :=
  match a, b with
  | [], [] => true
  | x :: a', y :: b' => (x =? y) && str_eqb a' b'
  | _, _ => false
  end.

(** [s.startswith(p)] *)
Fixpoint startswith (p s : str) : bool :=
  match p, s with
  | [], _ => true
  | x :: p', y :: s' => (x =? y) && startswith p' s'
  | _ :: _, [] => false
  end.

(** [p in s] *)
Fixpoint contains (p s : str) : bool :=
  startswith p s ||
  match s with
  | [] => false
  | _ :: t => contains p t
  end.

(** [s.isdigit()]: every character a digit, and at least one character. *)
Definition isdigit (s : str) : bool :=
  negb (str_eqb s []) && forallb is_digit_char s.

(** [re.sub(r"\s+", "", s)] *)
Definition remove_spaces (s : str) : str := filter (fun c => negb (is_space c)) s.

(** [re.sub(r"\D", "", s)] *)
Definition keep_decimals (s : str) : str := filter is_decimal s.

(** [int(s)] on a string of decimal digits. *)
Definition int_of_digits (s : str) : Z :=
  fold_left (fun acc c => (10 * acc + digit_value c)%Z) s 0%Z.

(** [s[:n]] *)
Definition take (n : nat) (s : str) : str := firstn n s.

(** [x or d] on strings. *)
Definition or_str (x d : str) : str :=
  match x with [] => d | _ => x end.

(** ** Numbers as text *)

(** The decimal digits of a non-negative integer, most significant first.
    [fuel] bounds the number of digits. *)
Fixpoint dec_digits (fuel : nat) (n : Z) (acc : str) : str :=
  match fuel with
  | O => acc
  | S k =>
      let acc' := (48 + Z.to_N (n mod 10)) :: acc in
      if (n <? 10)%Z then acc' else dec_digits k (n / 10)%Z acc'
  end.

(** [str(n)] for [n >= 0]. *)
Definition str_of_Z (n : Z) : str :=
  dec_digits (S (Z.to_nat (Z.log2 n))) n [].

(** Rounding of the non-negative rational [a / b] to an integer, ties to even. *)
Definition round_half_even (a : Z) (b : positive) : Z :=
  let q := (a / Zpos b)%Z in
  let r := (a mod Zpos b)%Z in
  if (2 * r <? Zpos b)%Z then q
  else if (Zpos b <? 2 * r)%Z then (q + 1)%Z
  else if Z.even q then q else (q + 1)%Z.

(** [f"{x:.2f}"]: two decimals, period separator. The model formats the
    exact rational; a Python float is the double nearest to it. *)
Definition format_2f (x : Q) : str :=
  let cents := round_half_even (100 * Z.abs (Qnum x)) (Qden x) in
  let body := str_of_Z (cents / 100) ++ [46] ++
              [48 + Z.to_N ((cents mod 100) / 10); 48 + Z.to_N (cents mod 10)] in
  if (Qnum x <? 0)%Z then 45 :: body else body.

(** ** The payment record ([upn_parser.py], dataclass [UPNPayment]) *)

Record UPNPayment := mkUPNPayment {
  recipient_name : str;
  recipient_address : str;
  iban : str;
  amount : Q;
  reference : str;
  purpose : str;
  payer_reference : str
}.

(** ** [unp_qr_decode.py] *)

Module unp_qr_decode.

Definition _normalize_iban (iban : str) : str :=
  upper (remove_spaces (strip iban)).

(** The amount field: eleven digits, the last two are cents. [int(s) / 100.0]
    is kept as the exact rational. *)
Definition _parse_upn_amount (znesek_11 : str) : option Q :=
  let s := keep_decimals (strip znesek_11) in
  if Nat.eqb (length s) 11 then Some (int_of_digits s # 100) else None.

(** The lines of a payload: trimmed, split at LF, each line trimmed. *)
Definition raw_lines (qr_string : str) : list str :=
  List.map strip (split_on NL (strip qr_string)).

(** [lines[-1].isdigit() and len(lines[-1]) == 3] *)
Definition is_checksum_line (l : str) : bool :=
  isdigit l && Nat.eqb (length l) 3.

(** The lines after the optional checksum line is dropped. *)
Definition payload_lines (qr_string : str) : list str :=
  let lines := raw_lines qr_string in
  if Nat.ltb 19 (length lines) && is_checksum_line (last lines [])
  then removelast lines else lines.

Definition line (lines : list str) (i : nat) : str := nth i lines [].

(** The record built from validated lines (source lines 67 to 82). *)
Definition build_record (lines : list str) (znesek_val : Q) (iban : str)
  : UPNPayment :=
  let recipient_name := strip (line lines 16) in
  let recipient_address :=
    strip (join (lit " ")
             (filter (fun l => negb (str_eqb l []))
                     [line lines 17; line lines 18])) in
  let reference := strip (line lines 15) in
  let purpose_code := take 4 (strip (line lines 11)) in
  let purpose_text := strip (line lines 12) in
  let purpose := or_str purpose_text (or_str purpose_code (lit "UPN payment")) in
  mkUPNPayment (or_str recipient_name (lit "Recipient")) recipient_address
               iban znesek_val reference purpose [].

Definition parse_unp_qr_content (qr_string : str) : option UPNPayment :=
  if str_eqb qr_string [] || str_eqb (strip qr_string) [] then None
  else
    let lines := payload_lines qr_string in
    if Nat.ltb (length lines) 19 then None
    else if negb (str_eqb (line lines 0) (lit "UPNQR")) then None
    else
      match _parse_upn_amount (line lines 8) with
      | None => None
      | Some znesek_val =>
          if Qle_bool 0 znesek_val then
            let iban := _normalize_iban (line lines 14) in
            if negb (startswith (lit "SI") iban)
               || negb (Nat.eqb (length iban) 19)
            then None
            else Some (build_record lines znesek_val iban)
          else None
      end.

(** The dedup key [(p.iban, p.reference, p.amount)]. *)
Definition key_eqb (a b : UPNPayment) : bool :=
  str_eqb (iban a) (iban b) && str_eqb (reference a) (reference b)
  && Qeq_bool (amount a) (amount b).

(** The loop of [parse_all_unp_qr_contents]: [seen] holds one record per
    key already met, [payments] the result so far. *)
Fixpoint parse_all_loop (qr_strings : list str)
         (seen payments : list UPNPayment) : list UPNPayment :=
  match qr_strings with
  | [] => payments
  | s :: rest =>
      match parse_unp_qr_content s with
      | None => parse_all_loop rest seen payments
      | Some p =>
          if existsb (key_eqb p) seen then parse_all_loop rest seen payments
          else parse_all_loop rest (p :: seen) (payments ++ [p])
      end
  end.

Definition parse_all_unp_qr_contents (qr_strings : list str)
  : list UPNPayment :=
  parse_all_loop qr_strings [] [].

End unp_qr_decode.

(** ** [epc_qr.py] *)

Module epc_qr.

(** The eleven fields before trimming. [bic] is [None] when not given. *)
Definition epc_parts (p : UPNPayment) (bic : option str) : list str :=
  let bic := strip (match bic with Some b => b | None => [] end) in
  let name := take 70 (recipient_name p) in
  let iban :=
    take 34 (upper (filter (fun c => negb (c =? 32)) (iban p))) in
  let amount_str := format_2f (amount p) in
  let remittance := take 35 (take 35 (reference p)) in
  let b2o := take 70 (purpose p) in
  let purpose := take 4 (purpose p) in
  [lit "BCD"; lit "002"; lit "1"; lit "SCT"; bic; name; iban;
   lit "EUR" ++ amount_str; purpose; remittance; b2o].

(** [while len(parts) > 1 and parts[-1] == "": parts.pop()], on the
    reversed list. *)
Fixpoint pop_empty_rev (rparts : list str) : list str :=
  match rparts with
  | [] :: ((_ :: _) as t) => pop_empty_rev t
  | _ => rparts
  end.

Definition trim_parts (parts : list str) : list str :=
  rev (pop_empty_rev (rev parts)).

Definition epc_fields (p : UPNPayment) (bic : option str) : list str :=
  trim_parts (epc_parts p bic).

Definition build_epc_payload (p : UPNPayment) (bic : option str) : str :=
  join [NL] (epc_fields p bic).

End epc_qr.

(** ** Codecs ([bytes.decode], [str.encode]) *)

Definition bytes := list Byte.byte.

Definition is_cont (b : N) : bool := in_range 128 191 b.

(** The low six bits of a continuation byte. *)
Definition cont_bits (b : N) : N := b - 128.

(** Strict UTF-8, on byte values: no overlong forms, no surrogates, nothing
    above U+10FFFF. [None] is [UnicodeDecodeError]. *)
Fixpoint utf8_decode_N (b : list N) : option str :=
  match b with
  | [] => Some []
  | b0 :: t =>
      if b0 <? 128 then option_map (cons b0) (utf8_decode_N t)
      else if in_range 194 223 b0 then
        match t with
        | b1 :: t1 =>
            if is_cont b1
            then option_map (cons ((b0 - 192) * 64 + cont_bits b1))
                            (utf8_decode_N t1)
            else None
        | _ => None
        end
      else if in_range 224 239 b0 then
        match t with
        | b1 :: b2 :: t2 =>
            if in_range (if b0 =? 224 then 160 else 128)
                        (if b0 =? 237 then 159 else 191) b1
               && is_cont b2
            then option_map
                   (cons ((b0 - 224) * 4096 + cont_bits b1 * 64 + cont_bits b2))
                   (utf8_decode_N t2)
            else None
        | _ => None
        end
      else if in_range 240 244 b0 then
        match t with
        | b1 :: b2 :: b3 :: t3 =>
            if in_range (if b0 =? 240 then 144 else 128)
                        (if b0 =? 244 then 143 else 191) b1
               && is_cont b2 && is_cont b3
            then option_map
                   (cons ((b0 - 240) * 262144 + cont_bits b1 * 4096
                          + cont_bits b2 * 64 + cont_bits b3))
                   (utf8_decode_N t3)
            else None
        | _ => None
        end
      else None
  end.

Definition decode_utf8 (raw : bytes) : option str :=
  utf8_decode_N (List.map Byte.to_N raw).

(** ISO-8859-2, bytes A0..FF; the rows of the code chart. *)
Definition iso8859_2_high : list char :=
  [160; 260; 728; 321; 164; 317; 346; 167; 168; 352; 350; 356; 377; 173; 381; 379;
   176; 261; 731; 322; 180; 318; 347; 711; 184; 353; 351; 357; 378; 733; 382; 380;
   340; 193; 194; 258; 196; 313; 262; 199; 268; 201; 280; 203; 282; 205; 206; 270;
   272; 323; 327; 211; 212; 336; 214; 215; 344; 366; 218; 368; 220; 221; 354; 223;
   341; 225; 226; 259; 228; 314; 263; 231; 269; 233; 281; 235; 283; 237; 238; 271;
   273; 324; 328; 243; 244; 337; 246; 247; 345; 367; 250; 369; 252; 253; 355; 729].

(** Windows-1250, bytes 80..BF; [0] marks the five undefined bytes. Bytes
    C0..FF are those of ISO-8859-2. *)
Definition cp1250_mid : list char :=
  [8364; 0; 8218; 0; 8222; 8230; 8224; 8225; 0; 8240; 352; 8249; 346; 356; 381; 377;
   0; 8216; 8217; 8220; 8221; 8226; 8211; 8212; 0; 8482; 353; 8250; 347; 357; 382; 378;
   160; 711; 728; 321; 164; 260; 166; 167; 168; 169; 350; 171; 172; 173; 174; 379;
   176; 177; 731; 322; 180; 181; 182; 183; 184; 261; 351; 187; 317; 733; 318; 380].

Definition iso8859_2_char (b : N) : char :=
  if b <? 160 then b else nth (N.to_nat (b - 160)) iso8859_2_high 0.

Definition cp1250_char (b : N) : option char :=
  if b <? 128 then Some b
  else if b <? 192 then
    match nth (N.to_nat (b - 128)) cp1250_mid 0 with
    | 0 => None
    | c => Some c
    end
  else Some (iso8859_2_char b).

(** Every byte is defined in Python's [iso8859_2] codec. *)
Definition decode_iso8859_2 (raw : bytes) : option str :=
  Some (List.map (fun b => iso8859_2_char (Byte.to_N b)) raw).

Fixpoint sequence_opt {A} (l : list (option A)) : option (list A) :=
  match l with
  | [] => Some []
  | None :: _ => None
  | Some x :: t => option_map (cons x) (sequence_opt t)
  end.

Definition decode_cp1250 (raw : bytes) : option str :=
  sequence_opt (List.map (fun b => cp1250_char (Byte.to_N b)) raw).

Definition decode_latin1 (raw : bytes) : option str :=
  Some (List.map Byte.to_N raw).

Definition REPLACEMENT : char := 65533.

(** [raw.decode("utf-8", errors="replace")]: each maximal ill-formed
    prefix of a sequence becomes one U+FFFD. [fuel] is the number of bytes. *)
Fixpoint utf8_replace_N (fuel : nat) (b : list N) : str :=
  match fuel with
  | O => []
  | S k =>
      match b with
      | [] => []
      | b0 :: t =>
          if b0 <? 128 then b0 :: utf8_replace_N k t
          else
            let lo := if (b0 =? 224) then 160 else if (b0 =? 240) then 144 else 128 in
            let hi := if (b0 =? 237) then 159 else if (b0 =? 244) then 143 else 191 in
            let need := if in_range 194 223 b0 then 1%nat
                        else if in_range 224 239 b0 then 2%nat
                        else if in_range 240 244 b0 then 3%nat else 0%nat in
            match need, t with
            | 1%nat, b1 :: t1 =>
                if is_cont b1
                then ((b0 - 192) * 64 + cont_bits b1) :: utf8_replace_N k t1
                else REPLACEMENT :: utf8_replace_N k t
            | 2%nat, b1 :: t1 =>
                if in_range lo hi b1 then
                  match t1 with
                  | b2 :: t2 =>
                      if is_cont b2
                      then ((b0 - 224) * 4096 + cont_bits b1 * 64 + cont_bits b2)
                             :: utf8_replace_N k t2
                      else REPLACEMENT :: utf8_replace_N k t1
                  | [] => [REPLACEMENT]
                  end
                else REPLACEMENT :: utf8_replace_N k t
            | 3%nat, b1 :: t1 =>
                if in_range lo hi b1 then
                  match t1 with
                  | b2 :: t2 =>
                      if is_cont b2 then
                        match t2 with
                        | b3 :: t3 =>
                            if is_cont b3
                            then ((b0 - 240) * 262144 + cont_bits b1 * 4096
                                  + cont_bits b2 * 64 + cont_bits b3)
                                   :: utf8_replace_N k t3
                            else REPLACEMENT :: utf8_replace_N k t2
                        | [] => [REPLACEMENT]
                        end
                      else REPLACEMENT :: utf8_replace_N k t1
                  | [] => [REPLACEMENT]
                  end
                else REPLACEMENT :: utf8_replace_N k t
            | _, _ => REPLACEMENT :: utf8_replace_N k t
            end
      end
  end.

Definition decode_utf8_replace (raw : bytes) : str :=
  utf8_replace_N (length raw) (List.map Byte.to_N raw).

(** [s.encode("utf-8")] succeeds unless [s] holds a surrogate. *)
Definition utf8_encodable (s : str) : bool :=
  forallb (fun c => negb (in_range 55296 57343 c)) s.

(** [s.encode("latin-1")]; [None] is [UnicodeEncodeError]. *)
Definition encode_latin1 (s : str) : option bytes :=
  sequence_opt (List.map Byte.of_N s).

(** ** [pdf_qr_extract.py]: text normalisation *)

Module pdf_qr_extract.

(** What the QR libraries hand over: nothing, text, or bytes. *)
Inductive raw_content :=
| RawNone
| RawStr (s : str)
| RawBytes (b : bytes).

(** The encodings tried, in the order of the source's tuple. *)
Definition encodings : list (bytes -> option str) :=
  [decode_utf8; decode_iso8859_2; decode_cp1250; decode_latin1].

(** [for enc in ...: try: return raw.decode(enc) except: continue] *)
Fixpoint decode_first (encs : list (bytes -> option str)) (raw : bytes)
  : option str :=
  match encs with
  | [] => None
  | dec :: rest =>
      match dec raw with
      | Some s => Some s
      | None => decode_first rest raw
      end
  end.

Definition normalize_bytes (raw : bytes) : str :=
  match decode_first encodings raw with
  | Some s => s
  | None => decode_utf8_replace raw
  end.

(** [None] is the [UnicodeEncodeError] that leaves the function when a
    text holds a surrogate. *)
Definition _normalize_qr_content_to_str (raw : raw_content) : option str :=
  match raw with
  | RawNone => Some []
  | RawStr s =>
      if utf8_encodable s then Some s
      else option_map normalize_bytes (encode_latin1 s)
  | RawBytes b => Some (normalize_bytes b)
  end.

End pdf_qr_extract.

(** ** Regular expressions ([re]) *)

(** The patterns of [upn_parser.py] use character classes, sequence,
    repetition and the anchors [^] and [$] only. *)
Inductive regex :=
| Rnone
| Reps
| Rclass (f : char -> bool)
| Rseq (r1 r2 : regex)
| Ralt (r1 r2 : regex)
| Rstar (r : regex).

Definition Rchar (c : char) : regex := Rclass (N.eqb c).
Definition Rplus (r : regex) : regex := Rseq r (Rstar r).

Fixpoint Rlit (s : str) : regex :=
  match s with
  | [] => Reps
  | c :: t => Rseq (Rchar c) (Rlit t)
  end.

(** [r{n}] *)
Fixpoint Rrep (n : nat) (r : regex) : regex :=
  match n with
  | O => Reps
  | S k => Rseq r (Rrep k r)
  end.

Fixpoint nullable (r : regex) : bool :=
  match r with
  | Rnone => false
  | Reps => true
  | Rclass _ => false
  | Rseq r1 r2 => nullable r1 && nullable r2
  | Ralt r1 r2 => nullable r1 || nullable r2
  | Rstar _ => true
  end.

(** The derivative of [r] by the character [c]. *)
Fixpoint deriv (c : char) (r : regex) : regex :=
  match r with
  | Rnone => Rnone
  | Reps => Rnone
  | Rclass f => if f c then Reps else Rnone
  | Rseq r1 r2 =>
      if nullable r1
      then Ralt (Rseq (deriv c r1) r2) (deriv c r2)
      else Rseq (deriv c r1) r2
  | Ralt r1 r2 => Ralt (deriv c r1) (deriv c r2)
  | Rstar r1 => Rseq (deriv c r1) (Rstar r1)
  end.

(** The whole of [s] is in the language of [r]. *)
Fixpoint accepts (r : regex) (s : str) : bool :=
  match s with
  | [] => nullable r
  | c :: t => accepts (deriv c r) t
  end.

(** [re.match("^" r "$", s)] as a truth value: [$] matches at the end of
    the string and before a line feed that ends the string. *)
Definition re_match (r : regex) (s : str) : bool :=
  accepts r s ||
  match rev s with
  | c :: t => (c =? NL) && accepts r (rev t)
  | [] => false
  end.

Definition cls_d : regex := Rclass is_decimal.
Definition cls_s : regex := Rclass is_space.

(** ** More of [str] *)

(** [re.sub(r"\s+", " ", s)] *)
Fixpoint collapse_ws (in_run : bool) (s : str) : str :=
  match s with
  | [] => []
  | c :: t =>
      if is_space c
      then (if in_run then collapse_ws true t else 32 :: collapse_ws true t)
      else c :: collapse_ws false t
  end.

Definition collapse_spaces (s : str) : str := collapse_ws false s.

(** The characters at which [str.splitlines] breaks. *)
Definition is_linebreak (c : char) : bool :=
  in_range 10 13 c || in_range 28 30 c || (c =? 133) || (c =? 8232) || (c =? 8233).

(** [cur] holds the current line, reversed. CR LF is one break. *)
Fixpoint splitlines_go (s : str) (cur : str) : list str :=
  match s with
  | [] => match cur with [] => [] | _ => [rev cur] end
  | c :: t =>
      if c =? 13 then
        match t with
        | c2 :: t2 =>
            if c2 =? 10 then rev cur :: splitlines_go t2 []
            else rev cur :: splitlines_go t []
        | [] => rev cur :: splitlines_go t []
        end
      else if is_linebreak c then rev cur :: splitlines_go t []
      else splitlines_go t (c :: cur)
  end.

(** [text.splitlines()] *)
Definition splitlines (text : str) : list str := splitlines_go text [].

(** [float(s)] on plain decimal literals: surrounding whitespace, a sign,
    digits with or without a fraction. The spellings with an exponent, with
    underscores, and [inf] and [nan] are not modelled (here [None]); the
    parsers call it only on lines their amount pattern has accepted. The
    value kept is the exact rational: Python rounds it to the nearest
    double, and to [inf] beyond the range of doubles, so what is proved of
    a value read is proved for amounts of at most eleven digits, where the
    double holds the amount to the hundredth. *)
Definition float_of_str (s : str) : option Q :=
  let s := strip s in
  let '(neg, body) :=
    match s with
    | c :: t => if c =? 45 then (true, t) else if c =? 43 then (false, t)
                else (false, s)
    | [] => (false, s)
    end in
  let ip := take_while is_decimal body in
  let rest := drop_while is_decimal body in
  let sign (q : Q) := if neg then Qopp q else q in
  match rest with
  | [] => match ip with [] => None | _ => Some (sign (int_of_digits ip # 1)) end
  | c :: fr =>
      if (c =? 46) && forallb is_decimal fr
         && negb (Nat.eqb (length ip + length fr) 0)
      then Some (sign (int_of_digits (ip ++ fr)
                       # Z.to_pos (10 ^ Z.of_nat (length fr))))
      else None
  end.

(** ** [upn_parser.py]: the three text-layout parsers *)

Module upn_parser.

Definition _normalize_iban (iban : str) : str :=
  upper (remove_spaces (strip iban)).

(** Amounts such as [***28,74] or [28,74]. *)
Definition _parse_amount (s : str) : option Q :=
  let s := strip s in
  let s := drop_while (N.eqb 42) s in
  let s := List.map (fun c => if c =? 44 then 46 else c) s in
  float_of_str s.

(** [^\*+\s*[\d]+[,\.]\d{2}\s*$], the same in the three parsers. *)
Definition amount_re : regex :=
  Rseq (Rplus (Rchar 42))
    (Rseq (Rstar cls_s)
      (Rseq (Rplus cls_d)
        (Rseq (Rclass (fun c => (c =? 44) || (c =? 46)))
          (Rseq (Rrep 2 cls_d) (Rstar cls_s))))).

(** [^RF\d{2}\s*$] *)
Definition rf_re : regex :=
  Rseq (Rlit (lit "RF")) (Rseq (Rrep 2 cls_d) (Rstar cls_s)).

(** [^\d{10}\s*$] *)
Definition ten_digits_re : regex := Rseq (Rrep 10 cls_d) (Rstar cls_s).

Definition digits_or_space : regex :=
  Rclass (fun c => is_decimal c || is_space c).
Definition digits_or_dash : regex :=
  Rclass (fun c => is_decimal c || (c =? 45)).

(** [lines = [ln.strip() for ln in text.splitlines() if ln.strip()]] *)
Definition text_lines (text : str) : list str :=
  List.map strip
    (filter (fun ln => negb (str_eqb (strip ln) [])) (splitlines text)).

Definition nonempty (s : str) : bool := negb (str_eqb s []).
Definition nonempty_list (l : list str) : bool :=
  match l with [] => false | _ => true end.

(** [x > 0] on floats. *)
Definition positive_amount (x : Q) : bool := negb (Qle_bool x 0).

(** [" ".join(names[1:])] when there is more than one name, else [dflt]. *)
Definition address_of (names : list str) (dflt : str) : str :=
  if Nat.ltb 1 (length names) then join (lit " ") (tl names) else dflt.

(** *** [extract_upn_payments] *)

(** [^SI\d{2}\s*[\d\s]+$] *)
Definition iban_re_v1 : regex :=
  Rseq (Rlit (lit "SI"))
    (Rseq (Rrep 2 cls_d) (Rseq (Rstar cls_s) (Rplus digits_or_space))).

(** [^SI19\s+[\d\-]+$] *)
Definition si19_re_v1 : regex :=
  Rseq (Rlit (lit "SI19")) (Rseq (Rplus cls_s) (Rplus digits_or_dash)).

(** The local variables of one block scan. *)
Record block := mkBlock {
  b_recipient_name : str;
  b_recipient_address : str;
  b_purpose : str;
  b_ref_si19 : str;
  b_amount_val : option Q;
  b_payer_ref : str;
  b_name_candidates : list str
}.

Definition block0 : block := mkBlock [] [] [] [] None [] [].

Definition set_ref (b : block) (r : str) : block :=
  mkBlock (b_recipient_name b) (b_recipient_address b) (b_purpose b) r
          (b_amount_val b) (b_payer_ref b) (b_name_candidates b).
Definition set_amount (b : block) (a : option Q) : block :=
  mkBlock (b_recipient_name b) (b_recipient_address b) (b_purpose b)
          (b_ref_si19 b) a (b_payer_ref b) (b_name_candidates b).
Definition set_payer_ref (b : block) (r : str) : block :=
  mkBlock (b_recipient_name b) (b_recipient_address b) (b_purpose b)
          (b_ref_si19 b) (b_amount_val b) r (b_name_candidates b).
Definition set_purpose (b : block) (p : str) : block :=
  mkBlock (b_recipient_name b) (b_recipient_address b) p
          (b_ref_si19 b) (b_amount_val b) (b_payer_ref b) (b_name_candidates b).
Definition add_candidate (b : block) (n : str) : block :=
  mkBlock (b_recipient_name b) (b_recipient_address b) (b_purpose b)
          (b_ref_si19 b) (b_amount_val b) (b_payer_ref b)
          (b_name_candidates b ++ [n]).
Definition set_name_address (b : block) (n a : str) : block :=
  mkBlock n a (b_purpose b) (b_ref_si19 b) (b_amount_val b) (b_payer_ref b)
          (b_name_candidates b).

Definition is_iban_line_v1 (l : str) : bool :=
  re_match iban_re_v1 (remove_spaces l) && contains (lit "SI56") l.

(** The inner [while j < len(lines)] loop; [rest] is [lines[j:]]. *)
Fixpoint scan_block (rest : list str) (b : block) : block :=
  match rest with
  | [] => b
  | cur :: after =>
      let cur_clean := collapse_spaces cur in
      if is_iban_line_v1 cur then
        let b1 :=
          match after with
          | l1 :: _ =>
              if re_match si19_re_v1 (filter (fun c => negb (c =? 32)) l1)
              then set_ref b (remove_spaces l1) else b
          | [] => b
          end in
        let b2 :=
          match after with
          | _ :: l2 :: _ =>
              if re_match amount_re l2
              then set_amount b1 (_parse_amount l2) else b1
          | _ => b1
          end in
        match b_amount_val b2 with
        | Some _ =>
            if nonempty (b_ref_si19 b2) then
              set_name_address b2
                (match b_name_candidates b2 with
                 | n :: _ => n
                 | [] => b_recipient_name b2
                 end)
                (address_of (b_name_candidates b2) (b_recipient_address b2))
            else scan_block after b2
        | None => scan_block after b2
        end
      else if re_match si19_re_v1 (remove_spaces cur)
      then scan_block after (set_ref b (remove_spaces cur))
      else if re_match amount_re cur
      then scan_block after (set_amount b (_parse_amount cur))
      else if re_match rf_re cur
      then scan_block after (set_payer_ref b (strip cur))
      else
        let b' :=
          if negb (nonempty (b_ref_si19 b)) && negb (re_match amount_re cur)
          then
            if negb (nonempty (b_recipient_name b)) && nonempty cur_clean
               && Nat.ltb 2 (length cur_clean)
            then add_candidate b cur_clean
            else if nonempty (b_recipient_name b)
                    && negb (nonempty (b_purpose b))
                    && contains (lit "Prispevek") cur
            then set_purpose b cur_clean
            else if nonempty (b_recipient_name b) && nonempty (b_purpose b)
                    && contains (lit "Prispevek") cur
            then set_purpose b cur_clean
            else b
          else b in
        scan_block after b'
  end.

(** One pass of the outer loop at [line = lines[i]], [after = lines[i+1:]]. *)
Definition block_payment (line : str) (after : list str) : option UPNPayment :=
  if negb (re_match iban_re_v1 (remove_spaces line))
     || negb (contains (lit "SI56") line) then None
  else
    let iban := _normalize_iban line in
    if negb (startswith (lit "SI56") iban) || negb (Nat.eqb (length iban) 19)
    then None
    else
      let b := scan_block after block0 in
      match b_amount_val b with
      | Some amount_val =>
          if positive_amount amount_val && nonempty (b_ref_si19 b)
             && nonempty iban
          then
            let recipient_name :=
              match b_recipient_name b, b_name_candidates b with
              | [], n :: _ => n
              | n, _ => n
              end in
            let recipient_address :=
              address_of (b_name_candidates b) (b_recipient_address b) in
            let purpose := or_str (b_purpose b) (lit "UPN payment") in
            Some (mkUPNPayment (or_str recipient_name (lit "Recipient"))
                    recipient_address iban amount_val (b_ref_si19 b) purpose
                    (b_payer_ref b))
          else None
      | None => None
      end.

(** The outer loop: every branch ends in [i += 1]. *)
Fixpoint extract_loop (lines : list str) : list UPNPayment :=
  match lines with
  | [] => []
  | line :: after =>
      match block_payment line after with
      | Some p => p :: extract_loop after
      | None => extract_loop after
      end
  end.

Definition extract_upn_payments (text : str) : list UPNPayment :=
  extract_loop (text_lines text).

(** *** [extract_upn_payments_v2] and [extract_upn_payments_from_text_fallback] *)

(** [^SI56\s*[\d\s]+$] *)
Definition iban_re : regex :=
  Rseq (Rlit (lit "SI56")) (Rseq (Rstar cls_s) (Rplus digits_or_space)).

(** [^SI19\s*[\d\-]+$] *)
Definition si19_re : regex :=
  Rseq (Rlit (lit "SI19")) (Rseq (Rstar cls_s) (Rplus digits_or_dash)).

(** [iban_re.match(nospace) and "SI56" in cur and len(nospace) == 19] *)
Definition is_iban_line (cur : str) : bool :=
  re_match iban_re (remove_spaces cur) && contains (lit "SI56") cur
  && Nat.eqb (length (remove_spaces cur)) 19.

(** The key [(iban, ref_si19, amount_val)] of the [seen] set. *)
Definition key := (str * str * Q)%type.

Definition key_eqb (a b : key) : bool :=
  let '(i1, r1, a1) := a in
  let '(i2, r2, a2) := b in
  str_eqb i1 i2 && str_eqb r1 r2 && Qeq_bool a1 a2.

(** The parser's result so far: the [seen] set and the [payments] list. *)
Definition acc := (list key * list UPNPayment)%type.

(** [if key not in seen: seen.add(key); payments.append(p)] *)
Definition add_unseen (a : acc) (k : key) (p : UPNPayment) : acc :=
  let '(seen, payments) := a in
  if existsb (key_eqb k) seen then a else (k :: seen, payments ++ [p]).

(** The backward search for the IBAN: [above] is [lines[i-1]], [lines[i-2]],
    ... and at most 24 lines are visited. *)
Fixpoint find_iban_above (above : list str) : str :=
  match above with
  | [] => []
  | cur :: more =>
      if is_iban_line cur then _normalize_iban cur else find_iban_above more
  end.

(** The [while j < len(lines)] loop of v2; [rest] is [lines[j:]]. The
    result is [(name_lines, purpose, payer_ref)]. *)
Fixpoint scan_names_v2 (ref_si19 : str) (rest : list str)
         (name_lines : list str) (purpose payer_ref : str)
  : list str * str * str :=
  match rest with
  | [] => (name_lines, purpose, payer_ref)
  | ln :: after =>
      let ln_clean := collapse_spaces ln in
      if re_match amount_re ln || re_match si19_re (remove_spaces ln)
      then scan_names_v2 ref_si19 after name_lines purpose payer_ref
      else if re_match rf_re ln
      then scan_names_v2 ref_si19 after name_lines purpose (strip ln)
      else if contains (lit "Prispevek") ln && negb (nonempty_list name_lines)
      then (name_lines, ln_clean, payer_ref)
      else if contains (lit "Prispevek") ln
      then (name_lines, ln_clean, payer_ref)
      else
        let name_lines' :=
          if nonempty ln && negb (str_eqb (remove_spaces ln) ref_si19)
             && negb (contains (lit "SI56") ln)
          then name_lines ++ [ln_clean] else name_lines in
        if nonempty purpose && Nat.leb 1 (length name_lines')
        then (name_lines', purpose, payer_ref)
        else scan_names_v2 ref_si19 after name_lines' purpose payer_ref
  end.

(** One pass of the outer loop of v2 at [line = lines[i]]; [above] is the
    lines before it, nearest first. *)
Definition step_v2 (above : list str) (line : str) (after : list str)
           (a : acc) : acc :=
  if negb (re_match si19_re (remove_spaces line)) then a
  else
    let ref_si19 := remove_spaces line in
    match after with
    | [] => a
    | l1 :: _ =>
        if negb (re_match amount_re l1) then a
        else
          match _parse_amount l1 with
          | None => a
          | Some amount_val =>
              if Qle_bool amount_val 0 then a
              else
                let iban := find_iban_above (firstn 24 above) in
                if negb (nonempty iban) then a
                else
                  let '(name_lines, purpose, payer_ref) :=
                    scan_names_v2 ref_si19 (skipn 2 after) [] [] [] in
                  let recipient_name :=
                    match name_lines with n :: _ => n | [] => [] end in
                  let recipient_address := address_of name_lines [] in
                  let purpose := or_str purpose (lit "UPN payment") in
                  add_unseen a (iban, ref_si19, amount_val)
                    (mkUPNPayment (or_str recipient_name (lit "Recipient"))
                       recipient_address iban amount_val ref_si19 purpose
                       payer_ref)
          end
    end.

Fixpoint loop_v2 (above : list str) (lines : list str) (a : acc) : acc :=
  match lines with
  | [] => a
  | line :: after => loop_v2 (line :: above) after (step_v2 above line after a)
  end.

Definition extract_upn_payments_v2 (text : str) : list UPNPayment :=
  snd (loop_v2 [] (text_lines text) ([], [])).

(** The search for SI56 then SI19 over [lines[j : j+18]]; the result is
    [(iban, ref_si19)]. *)
Fixpoint find_iban_ref (window : list str) (iban : str) : str * str :=
  match window with
  | [] => (iban, [])
  | cur :: more =>
      let cur_nospace := remove_spaces cur in
      let iban' := if is_iban_line cur then _normalize_iban cur else iban in
      if re_match si19_re cur_nospace then (iban', cur_nospace)
      else find_iban_ref more iban'
  end.

(** The search for the name lines and the purpose over
    [lines[j+1 : j+25]]; the result is [(name_lines, purpose)]. *)
Fixpoint scan_names_fb (window : list str) (name_lines : list str)
  : list str * str :=
  match window with
  | [] => (name_lines, [])
  | ln :: more =>
      let ln_clean := collapse_spaces ln in
      if contains (lit "Prispevek") ln then (name_lines, ln_clean)
      else if re_match iban_re (remove_spaces ln)
              || re_match si19_re (remove_spaces ln)
      then scan_names_fb more name_lines
      else if nonempty ln && negb (contains (lit "LBRI") ln)
              && negb (contains (lit "LT10") ln)
              && negb (re_match ten_digits_re ln)
      then scan_names_fb more (name_lines ++ [ln_clean])
      else scan_names_fb more name_lines
  end.

(** One pass of the outer loop of the fallback at [line = lines[i]]. *)
Definition step_fb (line : str) (after : list str) (a : acc) : acc :=
  if negb (re_match amount_re line) then a
  else
    match _parse_amount line with
    | None => a
    | Some amount_val =>
        if Qle_bool amount_val 0 then a
        else
          let from_j :=
            match after with
            | l1 :: more => if re_match amount_re l1 then more else after
            | [] => after
            end in
          let '(iban, ref_si19) := find_iban_ref (firstn 18 from_j) [] in
          if negb (nonempty iban) || negb (nonempty ref_si19) then a
          else
            let '(name_lines, purpose) :=
              scan_names_fb (firstn 24 (skipn 1 from_j)) [] in
            let recipient_name :=
              match name_lines with n :: _ => n | [] => lit "Recipient" end in
            let recipient_address := address_of name_lines [] in
            let purpose := or_str purpose (lit "UPN payment") in
            add_unseen a (iban, ref_si19, amount_val)
              (mkUPNPayment recipient_name recipient_address iban amount_val
                 ref_si19 purpose [])
    end.

Fixpoint loop_fb (lines : list str) (a : acc) : acc :=
  match lines with
  | [] => a
  | line :: after => loop_fb after (step_fb line after a)
  end.

Definition extract_upn_payments_from_text_fallback (text : str)
  : list UPNPayment :=
  snd (loop_fb (text_lines text) ([], [])).

End upn_parser.

(** * Properties *)

(** ** Strings *)

Lemma str_eqb_eq (a b : str) : str_eqb a b = true <-> a = b.
Proof.
  revert b; induction a as [|x a IH]; intros [|y b]; simpl; split;
    try congruence; try reflexivity.
  - intros H. apply andb_true_iff in H as [Hx Hab].
    apply N.eqb_eq in Hx. apply IH in Hab. congruence.
  - intros H. injection H as -> ->.
    apply andb_true_iff. split; [apply N.eqb_refl | now apply IH].
Qed.

Lemma str_eqb_refl (a : str) : str_eqb a a = true.
Proof. now apply str_eqb_eq. Qed.

Lemma str_eqb_neq (a b : str) : str_eqb a b = false <-> a <> b.
Proof.
  split.
  - intros H E. apply str_eqb_eq in E. congruence.
  - intros H. destruct (str_eqb a b) eqn:E; [|reflexivity].
    apply str_eqb_eq in E. contradiction.
Qed.

Lemma or_str_nonempty (x d : str) : d <> [] -> or_str x d <> [].
Proof. destruct x; simpl; [tauto | discriminate]. Qed.

Lemma drop_while_app_last (f : char -> bool) (x : str) (c : char) :
  f c = false -> drop_while f (x ++ [c]) = drop_while f x ++ [c].
Proof.
  intros Hc. induction x as [|a x IH]; simpl.
  - now rewrite Hc.
  - destruct (f a); [exact IH | reflexivity].
Qed.

Lemma drop_while_idem (f : char -> bool) (s : str) :
  drop_while f (drop_while f s) = drop_while f s.
Proof.
  induction s as [|c s IH]; simpl; [reflexivity|].
  destruct (f c) eqn:E; [exact IH | simpl; now rewrite E].
Qed.

Lemma rstrip_cons (c : char) (t : str) :
  is_space c = false -> rstrip (c :: t) = c :: rstrip t.
Proof.
  intros Hc. unfold rstrip. simpl.
  rewrite drop_while_app_last by exact Hc.
  now rewrite rev_app_distr.
Qed.

Lemma rstrip_idem (s : str) : rstrip (rstrip s) = rstrip s.
Proof.
  unfold rstrip. rewrite rev_involutive. now rewrite drop_while_idem.
Qed.

Lemma lstrip_rstrip_fixed (u : str) : lstrip u = u -> lstrip (rstrip u) = rstrip u.
Proof.
  destruct u as [|c t]; [reflexivity|].
  unfold lstrip at 1. simpl. destruct (is_space c) eqn:E.
  - intros H. exfalso.
    assert (L : (length (drop_while is_space t) <= length t)%nat).
    { clear. induction t as [|a t IH]; simpl; [lia|].
      destruct (is_space a); simpl; lia. }
    rewrite H in L. simpl in L. lia.
  - intros _. rewrite rstrip_cons by exact E.
    unfold lstrip. simpl. now rewrite E.
Qed.

Lemma strip_idem (s : str) : strip (strip s) = strip s.
Proof.
  unfold strip.
  rewrite (lstrip_rstrip_fixed (lstrip s)) by apply drop_while_idem.
  apply rstrip_idem.
Qed.

Lemma strip_nil : strip [] = [].
Proof. reflexivity. Qed.

Lemma filter_drop_while (f g : char -> bool) (s : str) :
  (forall c, g c = true -> f c = false) ->
  filter f (drop_while g s) = filter f s.
Proof.
  intros H. induction s as [|c s IH]; simpl; [reflexivity|].
  destruct (g c) eqn:E; [|reflexivity].
  now rewrite (H c E).
Qed.

Lemma filter_rev {A} (f : A -> bool) (l : list A) :
  filter f (rev l) = rev (filter f l).
Proof.
  induction l as [|a l IH]; simpl; [reflexivity|].
  rewrite filter_app, IH. simpl. destruct (f a); simpl;
    [reflexivity | now rewrite app_nil_r].
Qed.

Lemma filter_strip (f : char -> bool) (s : str) :
  (forall c, is_space c = true -> f c = false) ->
  filter f (strip s) = filter f s.
Proof.
  intros H. unfold strip, rstrip, lstrip.
  rewrite filter_rev, filter_drop_while by exact H.
  rewrite filter_rev, rev_involutive.
  now apply filter_drop_while.
Qed.

Lemma in_range_spec (lo hi c : char) :
  in_range lo hi c = true <-> lo <= c <= hi.
Proof.
  unfold in_range. now rewrite andb_true_iff, !N.leb_le.
Qed.

Lemma is_space_spec (c : char) :
  is_space c = true <->
  9 <= c <= 13 \/ 28 <= c <= 32 \/ c = 133 \/ c = 160 \/ c = 5760
  \/ 8192 <= c <= 8202 \/ c = 8232 \/ c = 8233 \/ c = 8239 \/ c = 8287
  \/ c = 12288.
Proof.
  unfold is_space.
  rewrite !orb_true_iff, !in_range_spec, !N.eqb_eq. tauto.
Qed.

(** *** The digit tables *)

Lemma nd_zero_of_spec (c z : char) :
  nd_zero_of c = Some z -> In z nd_zeros /\ z <= c <= z + 9.
Proof.
  unfold nd_zero_of. intros H. apply find_some in H as [Hin H].
  split; [exact Hin | now apply in_range_spec].
Qed.

Lemma nd_zeros_high : forallb (fun z => 1632 <=? z) nd_zeros = true.
Proof. vm_compute. reflexivity. Qed.

(** No run of digits outside ASCII meets the range from [lo] to [hi]. *)
Definition nd_gap (lo hi : char) : bool :=
  forallb (fun z => (z + 9 <? lo) || (hi <? z)) nd_zeros.

Lemma nd_gap_spec (lo hi c : char) :
  nd_gap lo hi = true -> lo <= c <= hi -> nd_zero_of c = None.
Proof.
  intros G Hc. destruct (nd_zero_of c) as [z|] eqn:E; [|reflexivity].
  apply nd_zero_of_spec in E as [Hin Hz].
  unfold nd_gap in G. rewrite forallb_forall in G. specialize (G z Hin).
  apply orb_true_iff in G as [G|G]; apply N.ltb_lt in G; lia.
Qed.

Lemma is_decimal_ascii (c : char) : 48 <= c <= 57 -> is_decimal c = true.
Proof.
  intros H. unfold is_decimal. apply orb_true_iff. left.
  now apply in_range_spec.
Qed.

(** A decimal digit is an ASCII digit, or lies above U+0660 and is no
    whitespace. *)
Lemma is_decimal_cases (c : char) :
  is_decimal c = true ->
  48 <= c <= 57 \/
  (1632 <= c /\ c <> 5760 /\ (c < 8192 \/ 8202 < c) /\ c <> 8232 /\
   c <> 8233 /\ c <> 8239 /\ c <> 8287 /\ c <> 12288).
Proof.
  unfold is_decimal. intros H. apply orb_true_iff in H as [H|H].
  { left. now apply in_range_spec. }
  right. destruct (nd_zero_of c) as [z|] eqn:E; [|discriminate].
  pose proof E as E'. apply nd_zero_of_spec in E' as [Hin Hz].
  pose proof nd_zeros_high as Hh. rewrite forallb_forall in Hh.
  specialize (Hh z Hin). apply N.leb_le in Hh.
  assert (G : forall lo hi, nd_gap lo hi = true -> ~ lo <= c <= hi).
  { intros lo hi Hg Hc. rewrite (nd_gap_spec lo hi c Hg Hc) in E.
    discriminate. }
  assert (G1 : nd_gap 5760 5760 = true) by (vm_compute; reflexivity).
  assert (G2 : nd_gap 8192 8202 = true) by (vm_compute; reflexivity).
  assert (G3 : nd_gap 8232 8239 = true) by (vm_compute; reflexivity).
  assert (G4 : nd_gap 8287 8287 = true) by (vm_compute; reflexivity).
  assert (G5 : nd_gap 12288 12288 = true) by (vm_compute; reflexivity).
  apply G in G1, G2, G3, G4, G5. lia.
Qed.

Lemma digit_value_range (c : char) :
  is_decimal c = true -> (0 <= digit_value c <= 9)%Z.
Proof.
  intros H. unfold digit_value. destruct (nd_zero_of c) as [z|] eqn:E.
  - apply nd_zero_of_spec in E as [_ Hz]. lia.
  - unfold is_decimal in H. rewrite E, orb_false_r in H.
    apply in_range_spec in H. lia.
Qed.

Lemma digit_value_ascii (c : char) :
  48 <= c <= 57 -> digit_value c = (Z.of_N c - 48)%Z.
Proof.
  intros H. unfold digit_value.
  rewrite (nd_gap_spec 48 57 c); [reflexivity | vm_compute; reflexivity | exact H].
Qed.

Lemma space_not_decimal (c : char) : is_space c = true -> is_decimal c = false.
Proof.
  intros H. apply is_space_spec in H.
  destruct (is_decimal c) eqn:E; [|reflexivity].
  apply is_decimal_cases in E. lia.
Qed.

Lemma keep_decimals_strip (s : str) : keep_decimals (strip s) = keep_decimals s.
Proof. apply filter_strip, space_not_decimal. Qed.

Lemma remove_spaces_strip (s : str) : remove_spaces (strip s) = remove_spaces s.
Proof.
  apply filter_strip. intros c H. now rewrite H.
Qed.

Lemma int_of_digits_nonneg_from (s : str) (acc : Z) :
  (0 <= acc)%Z -> forallb is_decimal s = true ->
  (0 <= fold_left (fun a c => (10 * a + digit_value c)%Z) s acc)%Z.
Proof.
  revert acc. induction s as [|c s IH]; cbn [fold_left forallb];
    intros acc Ha Hs; [exact Ha|].
  apply andb_true_iff in Hs as [Hc Hs].
  apply IH; [|exact Hs].
  pose proof (digit_value_range c Hc). lia.
Qed.

Lemma keep_decimals_all (s : str) : forallb is_decimal (keep_decimals s) = true.
Proof.
  apply forallb_forall. intros c Hc. now apply filter_In in Hc.
Qed.

Lemma int_of_digits_nonneg (s : str) :
  (0 <= int_of_digits (keep_decimals s))%Z.
Proof.
  apply int_of_digits_nonneg_from; [lia | apply keep_decimals_all].
Qed.

(** ** The QR payload parser *)

Section QRParser.
Import unp_qr_decode.

Lemma removelast_incl {A} (l : list A) (x : A) : In x (removelast l) -> In x l.
Proof.
  induction l as [|a l IH]; simpl; [tauto|].
  destruct l as [|b l]; simpl in *; [tauto|].
  intros [H|H]; [now left | right; now apply IH].
Qed.

(** Every line the parser looks at is already trimmed. *)
Lemma payload_line_stripped (s : str) (i : nat) :
  strip (line (payload_lines s) i) = line (payload_lines s) i.
Proof.
  unfold line.
  destruct (nth_in_or_default i (payload_lines s) []) as [H|H].
  - assert (Hraw : In (nth i (payload_lines s) []) (raw_lines s)).
    { unfold payload_lines in *.
      destruct (_ && _); [now apply removelast_incl | exact H]. }
    unfold raw_lines in Hraw. apply in_map_iff in Hraw as [x [Hx _]].
    rewrite <- Hx. apply strip_idem.
  - rewrite H. reflexivity.
Qed.

(** The validation of [parse_unp_qr_content], as a proposition. *)
Definition valid_payload (s : str) : Prop :=
  strip s <> [] /\
  (19 <= length (payload_lines s))%nat /\
  line (payload_lines s) 0 = lit "UPNQR" /\
  length (keep_decimals (line (payload_lines s) 8)) = 11%nat /\
  startswith (lit "SI") (upper (remove_spaces (line (payload_lines s) 14))) = true /\
  length (upper (remove_spaces (line (payload_lines s) 14))) = 19%nat.

(** The record of a valid payload. *)
Definition record_of (s : str) : UPNPayment :=
  build_record (payload_lines s)
    (int_of_digits (keep_decimals (line (payload_lines s) 8)) # 100)
    (upper (remove_spaces (line (payload_lines s) 14))).

Lemma parse_amount_eq (l : str) :
  _parse_upn_amount l =
  if Nat.eqb (length (keep_decimals l)) 11
  then Some (int_of_digits (keep_decimals l) # 100) else None.
Proof. unfold _parse_upn_amount. now rewrite keep_decimals_strip. Qed.

Lemma amount_nonneg (l : str) :
  Qle_bool 0 (int_of_digits (keep_decimals l) # 100) = true.
Proof.
  apply Qle_bool_iff. unfold Qle. cbn [Qnum Qden].
  pose proof (int_of_digits_nonneg l). lia.
Qed.

Lemma parse_iff (s : str) (r : UPNPayment) :
  parse_unp_qr_content s = Some r <-> valid_payload s /\ r = record_of s.
Proof.
  unfold parse_unp_qr_content, valid_payload, record_of, _normalize_iban.
  rewrite parse_amount_eq, remove_spaces_strip.
  destruct (str_eqb s []) eqn:E0.
  { apply str_eqb_eq in E0. subst s. cbn [orb]. split; [discriminate|].
    intros [[H _] _]. now contradiction H. }
  destruct (str_eqb (strip s) []) eqn:E1; cbn [orb].
  { apply str_eqb_eq in E1. split; [discriminate|]. intros [[H _] _]. tauto. }
  apply str_eqb_neq in E1.
  destruct (Nat.ltb (length (payload_lines s)) 19) eqn:E2.
  { apply Nat.ltb_lt in E2. split; [discriminate|]. intros [(_ & H & _) _]. lia. }
  apply Nat.ltb_ge in E2.
  destruct (str_eqb (line (payload_lines s) 0) (lit "UPNQR")) eqn:E3; cbn [negb].
  2:{ apply str_eqb_neq in E3. split; [discriminate|].
      intros [(_ & _ & H & _) _]. tauto. }
  apply str_eqb_eq in E3.
  destruct (Nat.eqb (length (keep_decimals (line (payload_lines s) 8))) 11) eqn:E4.
  2:{ apply Nat.eqb_neq in E4. split; [discriminate|].
      intros [(_ & _ & _ & H & _) _]. tauto. }
  apply Nat.eqb_eq in E4. rewrite amount_nonneg.
  destruct (startswith (lit "SI") _) eqn:E5; cbn [negb orb].
  2:{ split; [discriminate|]. intros [(_ & _ & _ & _ & H & _) _]. discriminate. }
  destruct (Nat.eqb (length _) 19) eqn:E6; cbn [negb].
  2:{ apply Nat.eqb_neq in E6. split; [discriminate|].
      intros [(_ & _ & _ & _ & _ & H) _]. tauto. }
  apply Nat.eqb_eq in E6. split.
  - intros H. injection H as <-. tauto.
  - intros [_ ->]. reflexivity.
Qed.

Lemma parse_none_iff (s : str) :
  parse_unp_qr_content s = None <-> ~ valid_payload s.
Proof.
  destruct (parse_unp_qr_content s) as [r|] eqn:E.
  - apply parse_iff in E as [Hv _]. split; [discriminate | tauto].
  - split; [|reflexivity]. intros _ Hv.
    assert (H : parse_unp_qr_content s = Some (record_of s))
      by (apply parse_iff; tauto).
    congruence.
Qed.

End QRParser.

(** ** The literal scenario of the specification *)

(** The nineteen lines of the QR content. *)
Definition scenario_lines : list str :=
  List.map lit
    ["UPNQR"; ""; ""; ""; ""; ""; ""; ""; "00000002874"; ""; ""; "OTHR";
     "Prispevek za DO"; ""; "SI56110022334455667"; "SI19 12345-67890";
     "JANEZ NOVAK"; "DUNAJSKA 1"; "LJUBLJANA"]%string.

(** The QR content: every line ends in a line feed. *)
Definition scenario_content : str := join [NL] scenario_lines ++ [NL].

(** The record the specification expects from it. *)
Definition scenario_record (address payer : str) : UPNPayment :=
  mkUPNPayment (lit "JANEZ NOVAK") address (lit "SI56110022334455667")
               (2874 # 100) (lit "SI1912345-67890") (lit "Prispevek za DO") payer.

Lemma scenario_parses :
  unp_qr_decode.parse_unp_qr_content scenario_content =
  Some (mkUPNPayment (lit "JANEZ NOVAK") (lit "DUNAJSKA 1 LJUBLJANA")
          (lit "SI56110022334455667") (2874 # 100) (lit "SI19 12345-67890")
          (lit "Prispevek za DO") []).
Proof. vm_compute. reflexivity. Qed.

(** C1. A payload that passes the validation parses to a record whose amount
    is the eleven-digit integer of line 8 divided by 100 and whose IBAN is
    line 14 without whitespace, in upper case. *)
Theorem parse_valid_amount_iban (s : str) :
  strip s <> [] ->
  (19 <= length (unp_qr_decode.payload_lines s))%nat ->
  unp_qr_decode.line (unp_qr_decode.payload_lines s) 0 = lit "UPNQR" ->
  length (keep_decimals (unp_qr_decode.line (unp_qr_decode.payload_lines s) 8))
    = 11%nat ->
  startswith (lit "SI")
    (upper (remove_spaces (unp_qr_decode.line (unp_qr_decode.payload_lines s) 14)))
    = true ->
  length (upper (remove_spaces
                   (unp_qr_decode.line (unp_qr_decode.payload_lines s) 14)))
    = 19%nat ->
  exists r,
    unp_qr_decode.parse_unp_qr_content s = Some r /\
    amount r =
      (int_of_digits
         (keep_decimals (unp_qr_decode.line (unp_qr_decode.payload_lines s) 8))
       # 100) /\
    iban r =
      upper (remove_spaces (unp_qr_decode.line (unp_qr_decode.payload_lines s) 14)).
Proof.
  intros H1 H2 H3 H4 H5 H6. exists (record_of s). split.
  - apply parse_iff. unfold valid_payload. tauto.
  - split; reflexivity.
Qed.

(** The scenario as a scanner may deliver it: blanks around the text, the
    amount with a currency and a comma, the IBAN in small letters and in
    groups of four. *)
Definition scenario_untidy : str :=
  lit "  " ++
  join [NL]
    (List.map lit
       ["UPNQR"; ""; ""; ""; ""; ""; ""; ""; "EUR 000000028,74"; ""; "";
        "OTHR"; "Prispevek za DO"; ""; " si56 1100 2233 4455 667 ";
        "SI19 12345-67890"; "JANEZ NOVAK"; "DUNAJSKA 1"; "LJUBLJANA"]%string)
  ++ [NL].

(** Digits of another script are digits: eleven Arabic-Indic digits on
    line 8 are an amount. *)
Definition scenario_arabic_indic : str :=
  join [NL]
    (List.map lit ["UPNQR"; ""; ""; ""; ""; ""; ""; ""]%string
     ++ [[1632; 1632; 1632; 1632; 1632; 1632; 1632; 1634; 1640; 1639; 1636]]
     ++ List.map lit
          [""; ""; "OTHR"; "Prispevek za DO"; ""; "SI56110022334455667";
           "SI19 12345-67890"; "JANEZ NOVAK"; "DUNAJSKA 1";
           "LJUBLJANA"]%string).

Example parse_arabic_indic_amount :
  option_map amount (unp_qr_decode.parse_unp_qr_content scenario_arabic_indic)
  = Some (2874 # 100).
Proof. vm_compute. reflexivity. Qed.

(** Upper case can lengthen a text: an IBAN line of 19 characters that ends
    in U+01F0 has 20 in upper case, and the payload is refused. *)
Definition scenario_long_upper : str :=
  join [NL]
    (List.map lit
       ["UPNQR"; ""; ""; ""; ""; ""; ""; ""; "00000002874"; ""; ""; "OTHR";
        "Prispevek za DO"; ""]%string
     ++ [lit "SI5611002233445566" ++ [496]]
     ++ List.map lit
          ["SI19 12345-67890"; "JANEZ NOVAK"; "DUNAJSKA 1";
           "LJUBLJANA"]%string).

Example parse_long_upper_refused :
  length (remove_spaces (lit "SI5611002233445566" ++ [496])) = 19%nat /\
  length (upper (lit "SI5611002233445566" ++ [496])) = 20%nat /\
  unp_qr_decode.parse_unp_qr_content scenario_long_upper = None.
Proof. vm_compute. repeat split. Qed.

Lemma parse_valid_amount_iban_witness :
  exists r,
    unp_qr_decode.parse_unp_qr_content scenario_untidy = Some r /\
    amount r = (2874 # 100) /\ iban r = lit "SI56110022334455667".
Proof.
  apply (parse_valid_amount_iban scenario_untidy);
    vm_compute; first [reflexivity | discriminate | lia].
Defined.

(** C2. A payload that fails one of the checks (empty after trimming, fewer
    than 19 lines, no [UPNQR] on line 0, an amount field without exactly
    eleven digits, an IBAN not starting with [SI] or not of 19 characters)
    parses to [None]; the parser is total, so nothing is raised and no
    record is returned. *)
Theorem parse_invalid_is_none (s : str) :
  strip s = []
  \/ (length (unp_qr_decode.payload_lines s) < 19)%nat
  \/ unp_qr_decode.line (unp_qr_decode.payload_lines s) 0 <> lit "UPNQR"
  \/ length (keep_decimals (unp_qr_decode.line (unp_qr_decode.payload_lines s) 8))
     <> 11%nat
  \/ startswith (lit "SI")
       (upper (remove_spaces
                 (unp_qr_decode.line (unp_qr_decode.payload_lines s) 14)))
     = false
  \/ length (upper (remove_spaces
                      (unp_qr_decode.line (unp_qr_decode.payload_lines s) 14)))
     <> 19%nat ->
  unp_qr_decode.parse_unp_qr_content s = None.
Proof.
  intros H. apply parse_none_iff. unfold valid_payload.
  intros (V1 & V2 & V3 & V4 & V5 & V6).
  destruct H as [H|[H|[H|[H|[H|H]]]]]; try tauto; try lia; congruence.
Qed.

Lemma parse_invalid_is_none_witness :
  unp_qr_decode.parse_unp_qr_content (lit "UPNQR") = None.
Proof.
  apply (parse_invalid_is_none (lit "UPNQR")).
  right; left. vm_compute. lia.
Defined.

(** C3, as the code has it. The literal QR content parses to the record with
    amount 28.74, the IBAN, the recipient name and the purpose of the
    specification; the reference keeps its inner space, since only the ends
    of line 15 are trimmed. *)
Theorem parse_scenario :
  unp_qr_decode.parse_unp_qr_content scenario_content =
  Some (mkUPNPayment (lit "JANEZ NOVAK") (lit "DUNAJSKA 1 LJUBLJANA")
          (lit "SI56110022334455667") (2874 # 100) (lit "SI19 12345-67890")
          (lit "Prispevek za DO") []).
Proof. vm_compute. reflexivity. Qed.

(** C3 as stated fails: no record with the reference [SI1912345-67890]
    comes out of the literal QR content. *)
Lemma scenario_reference_keeps_space :
  ~ exists r,
      unp_qr_decode.parse_unp_qr_content scenario_content = Some r /\
      amount r = (2874 # 100) /\
      iban r = lit "SI56110022334455667" /\
      reference r = lit "SI1912345-67890" /\
      recipient_name r = lit "JANEZ NOVAK" /\
      purpose r = lit "Prispevek za DO".
Proof.
  intros (r & Hr & _ & _ & Href & _).
  rewrite scenario_parses in Hr. injection Hr as <-. vm_compute in Href. discriminate.
Qed.

(** C10. A record of the QR path has an empty payer reference, a recipient
    name that is line 16 or, when that is empty, the placeholder, and a
    purpose that is the purpose text, else the first four characters of the
    purpose code, else the default; neither is empty. *)
Theorem parse_record_defaults (s : str) (r : UPNPayment) :
  unp_qr_decode.parse_unp_qr_content s = Some r ->
  payer_reference r = [] /\
  recipient_name r <> [] /\
  purpose r <> [] /\
  recipient_name r =
    match unp_qr_decode.line (unp_qr_decode.payload_lines s) 16 with
    | [] => lit "Recipient"
    | name => name
    end /\
  purpose r =
    match unp_qr_decode.line (unp_qr_decode.payload_lines s) 12 with
    | [] =>
        match take 4 (unp_qr_decode.line (unp_qr_decode.payload_lines s) 11) with
        | [] => lit "UPN payment"
        | code => code
        end
    | text => text
    end.
Proof.
  intros H. apply parse_iff in H as [_ ->].
  unfold record_of, unp_qr_decode.build_record.
  cbn [payer_reference recipient_name purpose].
  rewrite !payload_line_stripped.
  split; [reflexivity|]. split; [|split].
  - apply or_str_nonempty. discriminate.
  - apply or_str_nonempty, or_str_nonempty. discriminate.
  - split; unfold or_str.
    + now destruct (unp_qr_decode.line _ 16).
    + destruct (unp_qr_decode.line _ 12); [|reflexivity].
      now destruct (take 4 _).
Qed.

Lemma parse_record_defaults_witness :
  exists r,
    unp_qr_decode.parse_unp_qr_content scenario_content = Some r /\
    payer_reference r = [] /\ recipient_name r <> [] /\ purpose r <> [].
Proof.
  eexists. split; [exact scenario_parses|].
  pose proof (parse_record_defaults scenario_content _ scenario_parses)
    as (H1 & H2 & H3 & _).
  auto.
Defined.

(** ** The EPC encoder *)

(** C4 as stated fails: the payload of the scenario's record does not begin
    with the text of the specification, whose ninth field is [OTHR]. *)
Lemma epc_scenario_not_OTHR :
  startswith
    (join [NL]
       (List.map lit
          ["BCD"; "002"; "1"; "SCT"; ""; "JANEZ NOVAK"; "SI56110022334455667";
           "EUR28.74"; "OTHR"; "SI1912345-67890"; "Prispevek za DO"]%string))
    (epc_qr.build_epc_payload
       (scenario_record (lit "DUNAJSKA 1 LJUBLJANA") []) (Some []))
  = false.
Proof. vm_compute. reflexivity. Qed.

(** C4, as the code has it. With an empty BIC, or none, the scenario's
    record is encoded as the eleven fields of the specification, except that
    the purpose code is [Pris], the first four characters of the purpose:
    the record carries no purpose code. *)
Theorem epc_scenario_payload (address payer : str) :
  epc_qr.build_epc_payload (scenario_record address payer) (Some []) =
    join [NL]
      (List.map lit
         ["BCD"; "002"; "1"; "SCT"; ""; "JANEZ NOVAK"; "SI56110022334455667";
          "EUR28.74"; "Pris"; "SI1912345-67890"; "Prispevek za DO"]%string)
  /\ epc_qr.build_epc_payload (scenario_record address payer) None =
     epc_qr.build_epc_payload (scenario_record address payer) (Some []).
Proof. split; vm_compute; reflexivity. Qed.

(** C7. For a record with an empty purpose and an empty BIC, the payload is
    the fields joined by line feeds, where the fields are the eleven parts
    without a run of empty parts at their end: what is dropped is empty, the
    last field kept is not, and the first seven fields are always there. *)
Theorem epc_empty_purpose_trim (p : UPNPayment) :
  purpose p = [] ->
  epc_qr.build_epc_payload p (Some []) = join [NL] (epc_qr.epc_fields p (Some []))
  /\ (exists dropped,
        epc_qr.epc_parts p (Some []) = epc_qr.epc_fields p (Some []) ++ dropped
        /\ Forall (fun f => f = []) dropped)
  /\ last (epc_qr.epc_fields p (Some [])) [] <> []
  /\ (1 <= length (epc_qr.epc_fields p (Some [])))%nat
  /\ firstn 7 (epc_qr.epc_fields p (Some [])) =
     [lit "BCD"; lit "002"; lit "1"; lit "SCT"; [];
      take 70 (recipient_name p);
      take 34 (upper (filter (fun c => negb (c =? 32)) (iban p)))].
Proof.
  intros Hp. split; [reflexivity|].
  unfold epc_qr.epc_fields, epc_qr.epc_parts. rewrite Hp.
  generalize (take 70 (recipient_name p)) as name.
  generalize (take 34 (upper (filter (fun c => negb (c =? 32)) (iban p)))) as ib.
  generalize (format_2f (amount p)) as amt.
  generalize (take 35 (take 35 (reference p))) as rem.
  intros rem amt ib name.
  change (strip []) with (@nil char). change (take 4 []) with (@nil char).
  change (take 70 []) with (@nil char).
  destruct rem as [|c rem].
  - unfold epc_qr.trim_parts. cbn [rev app epc_qr.pop_empty_rev].
    change (lit "EUR" ++ amt) with (69 :: 85 :: 82 :: amt).
    cbn [rev app epc_qr.pop_empty_rev last length firstn].
    repeat split; try discriminate; try lia.
    exists [[]; []; []]. split; [reflexivity|]. repeat constructor.
  - unfold epc_qr.trim_parts. cbn [rev app epc_qr.pop_empty_rev last length firstn].
    repeat split; try discriminate; try lia.
    exists [[]]. split; [reflexivity|]. repeat constructor.
Qed.

Lemma epc_empty_purpose_trim_witness :
  (1 <= length (epc_qr.epc_fields
                  (mkUPNPayment (lit "JANEZ NOVAK") [] (lit "SI56110022334455667")
                                (2874 # 100) [] [] []) (Some [])))%nat.
Proof.
  apply (epc_empty_purpose_trim
           (mkUPNPayment (lit "JANEZ NOVAK") [] (lit "SI56110022334455667")
                         (2874 # 100) [] [] [])).
  reflexivity.
Defined.

(** ** Text normalisation *)

(** C8. Bytes are decoded by the first codec that succeeds, in the order
    UTF-8, ISO-8859-2, Windows-1250, Latin-1, and Latin-1 never fails; the
    single byte E8, which is not UTF-8, becomes U+010D (c with caron), not
    the replacement character. *)
Theorem normalize_bytes_priority :
  (forall b : bytes,
      exists s,
        pdf_qr_extract._normalize_qr_content_to_str (pdf_qr_extract.RawBytes b)
          = Some s /\
        (decode_utf8 b = Some s
         \/ (decode_utf8 b = None /\ decode_iso8859_2 b = Some s)
         \/ (decode_utf8 b = None /\ decode_iso8859_2 b = None
             /\ decode_cp1250 b = Some s)
         \/ (decode_utf8 b = None /\ decode_iso8859_2 b = None
             /\ decode_cp1250 b = None /\ decode_latin1 b = Some s)))
  /\ (forall b : bytes, decode_latin1 b <> None)
  /\ decode_utf8 [Byte.xe8] = None
  /\ pdf_qr_extract._normalize_qr_content_to_str
       (pdf_qr_extract.RawBytes [Byte.xe8]) = Some [269]
  /\ 269 <> REPLACEMENT.
Proof.
  split; [|split; [|split; [|split]]].
  - intros b.
    unfold pdf_qr_extract._normalize_qr_content_to_str,
      pdf_qr_extract.normalize_bytes, pdf_qr_extract.encodings.
    cbn [pdf_qr_extract.decode_first].
    destruct (decode_utf8 b) as [u1|] eqn:E1;
      [eexists; split; [reflexivity | auto] |].
    destruct (decode_iso8859_2 b) as [u2|] eqn:E2;
      [eexists; split; [reflexivity | auto] |].
    destruct (decode_cp1250 b) as [u3|] eqn:E3;
      [eexists; split; [reflexivity | auto 6] |].
    destruct (decode_latin1 b) as [u4|] eqn:E4;
      [eexists; split; [reflexivity | auto 8] |].
    discriminate E4.
  - intros b. discriminate.
  - reflexivity.
  - reflexivity.
  - discriminate.
Qed.

(** ISO-8859-2 defines every byte: what is not UTF-8 is read as
    ISO-8859-2, and the two codecs after it are never reached. *)
Lemma normalize_bytes_utf8_or_latin2 (b : bytes) :
  pdf_qr_extract.normalize_bytes b =
  match decode_utf8 b with
  | Some s => s
  | None => List.map (fun x => iso8859_2_char (Byte.to_N x)) b
  end.
Proof.
  unfold pdf_qr_extract.normalize_bytes, pdf_qr_extract.encodings.
  cbn [pdf_qr_extract.decode_first].
  destruct (decode_utf8 b); reflexivity.
Qed.

(** ** Deduplication *)

Section Dedup.
Import unp_qr_decode.

(** The records of the strings that parse, in order. *)
Definition survivors (qr_strings : list str) : list UPNPayment :=
  flat_map (fun s => match parse_unp_qr_content s with
                     | Some p => [p]
                     | None => []
                     end) qr_strings.

(** The first record of each key: a record stays when no record before it
    in the list, [earlier], has its key. *)
Fixpoint first_of_each_key (earlier l : list UPNPayment) : list UPNPayment :=
  match l with
  | [] => []
  | p :: t =>
      if existsb (key_eqb p) earlier
      then first_of_each_key (earlier ++ [p]) t
      else p :: first_of_each_key (earlier ++ [p]) t
  end.

Lemma key_eqb_refl (a : UPNPayment) : key_eqb a a = true.
Proof.
  unfold key_eqb. rewrite !str_eqb_refl. cbn [andb].
  apply Qeq_bool_iff. reflexivity.
Qed.

Lemma key_eqb_spec (a b : UPNPayment) :
  key_eqb a b = true <->
  iban a = iban b /\ reference a = reference b /\ amount a == amount b.
Proof.
  unfold key_eqb. rewrite !andb_true_iff, !str_eqb_eq, Qeq_bool_iff. tauto.
Qed.

(** The key as the specification words it: the same IBAN, the same
    reference and the same amount. It is stated on the fields, apart from
    the comparison the loop makes. *)
Definition same_key (p q : UPNPayment) : Prop :=
  iban p = iban q /\ reference p = reference q /\ amount p == amount q.

Definition same_key_dec (p q : UPNPayment)
  : {same_key p q} + {~ same_key p q} :=
  match list_eq_dec N.eq_dec (iban p) (iban q),
        list_eq_dec N.eq_dec (reference p) (reference q),
        Qeq_dec (amount p) (amount q) with
  | left a, left b, left c => left (conj a (conj b c))
  | right n, _, _ => right (fun H => n (proj1 H))
  | _, right n, _ => right (fun H => n (proj1 (proj2 H)))
  | _, _, right n => right (fun H => n (proj2 (proj2 H)))
  end.

(** Is there a record with the key of [p] in [l]? *)
Fixpoint has_key (p : UPNPayment) (l : list UPNPayment) : bool :=
  match l with
  | [] => false
  | q :: t => if same_key_dec p q then true else has_key p t
  end.

(** Deduplication as the specification words it: of the records of each
    key the first one is kept, in the order in which they were met;
    [earlier] holds the records already met. *)
Fixpoint keep_first_per_key (earlier l : list UPNPayment)
  : list UPNPayment :=
  match l with
  | [] => []
  | p :: t =>
      if has_key p earlier
      then keep_first_per_key (earlier ++ [p]) t
      else p :: keep_first_per_key (earlier ++ [p]) t
  end.

Lemma has_key_spec (p : UPNPayment) (l : list UPNPayment) :
  has_key p l = true <-> exists q, In q l /\ same_key p q.
Proof.
  induction l as [|q t IH]; cbn [has_key].
  - split; [discriminate | intros (q & [] & _)].
  - destruct (same_key_dec p q) as [K|K].
    + split; [intros _; exists q; split; [now left | exact K] | reflexivity].
    + rewrite IH. split.
      * intros (x & Hx & Kx). exists x. split; [now right | exact Kx].
      * intros (x & [<-|Hx] & Kx); [contradiction|]. now exists x.
Qed.

(** The comparison of the loop decides the key of the specification. *)
Lemma has_key_existsb (p : UPNPayment) (l : list UPNPayment) :
  has_key p l = existsb (key_eqb p) l.
Proof.
  destruct (existsb (key_eqb p) l) eqn:E.
  - apply has_key_spec. apply existsb_exists in E as (q & Hq & K).
    exists q. split; [exact Hq | now apply key_eqb_spec].
  - destruct (has_key p l) eqn:H; [|reflexivity].
    apply has_key_spec in H as (q & Hq & K).
    assert (X : existsb (key_eqb p) l = true).
    { apply existsb_exists. exists q. split; [exact Hq|].
      now apply key_eqb_spec. }
    congruence.
Qed.

Lemma keep_first_per_key_eq (l : list UPNPayment) :
  forall earlier,
    keep_first_per_key earlier l = first_of_each_key earlier l.
Proof.
  induction l as [|p t IH]; intros earlier; [reflexivity|].
  cbn [keep_first_per_key first_of_each_key].
  rewrite has_key_existsb, IH. reflexivity.
Qed.

Lemma key_eqb_sym (a b : UPNPayment) : key_eqb a b = key_eqb b a.
Proof.
  destruct (key_eqb a b) eqn:E1, (key_eqb b a) eqn:E2; try reflexivity.
  - apply key_eqb_spec in E1 as (H1 & H2 & H3).
    assert (key_eqb b a = true) by (apply key_eqb_spec; now rewrite H1, H2, H3).
    congruence.
  - apply key_eqb_spec in E2 as (H1 & H2 & H3).
    assert (key_eqb a b = true) by (apply key_eqb_spec; now rewrite H1, H2, H3).
    congruence.
Qed.

Lemma key_eqb_trans (a b c : UPNPayment) :
  key_eqb a b = true -> key_eqb b c = true -> key_eqb a c = true.
Proof.
  rewrite !key_eqb_spec. intros (H1 & H2 & H3) (H4 & H5 & H6).
  repeat split; try congruence. now rewrite H3.
Qed.

(** [seen] stands for [earlier]: the same keys are met in both. *)
Definition same_keys (seen earlier : list UPNPayment) : Prop :=
  forall p, existsb (key_eqb p) seen = existsb (key_eqb p) earlier.

Lemma same_keys_skip (seen earlier : list UPNPayment) (p : UPNPayment) :
  same_keys seen earlier -> existsb (key_eqb p) seen = true ->
  same_keys seen (earlier ++ [p]).
Proof.
  intros H Hp q. rewrite existsb_app. cbn [existsb]. rewrite orb_false_r.
  rewrite <- H. destruct (key_eqb q p) eqn:E; [|now rewrite orb_false_r].
  rewrite orb_true_r.
  apply existsb_exists in Hp as (x & Hx & Hpx).
  apply existsb_exists. exists x. split; [exact Hx|].
  now apply key_eqb_trans with p.
Qed.

Lemma same_keys_add (seen earlier : list UPNPayment) (p : UPNPayment) :
  same_keys seen earlier -> same_keys (p :: seen) (earlier ++ [p]).
Proof.
  intros H q. rewrite existsb_app. cbn [existsb]. rewrite orb_false_r.
  rewrite <- H. apply orb_comm.
Qed.

Lemma parse_all_loop_spec (ss : list str) :
  forall seen earlier payments,
    same_keys seen earlier ->
    parse_all_loop ss seen payments =
    payments ++ first_of_each_key earlier (survivors ss).
Proof.
  induction ss as [|s ss IH]; intros seen earlier payments Hk.
  - simpl. now rewrite app_nil_r.
  - cbn [parse_all_loop survivors flat_map].
    fold (survivors ss).
    destruct (parse_unp_qr_content s) as [p|]; cbn [app].
    + cbn [first_of_each_key]. rewrite <- (Hk p).
      destruct (existsb (key_eqb p) seen) eqn:E.
      * apply IH. now apply same_keys_skip.
      * rewrite (IH (p :: seen) (earlier ++ [p])) by now apply same_keys_add.
        now rewrite <- app_assoc.
    + now apply IH.
Qed.

End Dedup.

(** C6. [parse_all_unp_qr_contents] parses each string on its own, skips
    those that do not parse and keeps, in order, the first record of each key
    (iban, reference, amount), the key being the equality of the three
    fields; two payloads whose records share the key give one record, the
    first, and two whose records differ in the key give both. *)
Theorem parse_all_first_of_each_key :
  (forall qr_strings,
      unp_qr_decode.parse_all_unp_qr_contents qr_strings =
      keep_first_per_key [] (survivors qr_strings))
  /\ (forall s1 s2 r1 r2,
         unp_qr_decode.parse_unp_qr_content s1 = Some r1 ->
         unp_qr_decode.parse_unp_qr_content s2 = Some r2 ->
         iban r1 = iban r2 -> reference r1 = reference r2 ->
         amount r1 == amount r2 ->
         unp_qr_decode.parse_all_unp_qr_contents [s1; s2] = [r1])
  /\ (forall s1 s2 r1 r2,
         unp_qr_decode.parse_unp_qr_content s1 = Some r1 ->
         unp_qr_decode.parse_unp_qr_content s2 = Some r2 ->
         ~ (iban r1 = iban r2 /\ reference r1 = reference r2 /\
            amount r1 == amount r2) ->
         unp_qr_decode.parse_all_unp_qr_contents [s1; s2] = [r1; r2]).
Proof.
  assert (H : forall qr_strings,
             unp_qr_decode.parse_all_unp_qr_contents qr_strings =
             keep_first_per_key [] (survivors qr_strings)).
  { intros ss. unfold unp_qr_decode.parse_all_unp_qr_contents.
    rewrite (parse_all_loop_spec ss [] [] []) by (intros p; reflexivity).
    symmetry. apply keep_first_per_key_eq. }
  split; [exact H|]. split.
  - intros s1 s2 r1 r2 H1 H2 Hi Hr Ha.
    rewrite H. unfold survivors. cbn [flat_map]. rewrite H1, H2.
    cbn [app keep_first_per_key has_key].
    destruct (same_key_dec r2 r1) as [K|K]; [reflexivity|].
    exfalso. apply K. split; [congruence|]. split; [congruence|].
    now symmetry.
  - intros s1 s2 r1 r2 H1 H2 K.
    rewrite H. unfold survivors. cbn [flat_map]. rewrite H1, H2.
    cbn [app keep_first_per_key has_key].
    destruct (same_key_dec r2 r1) as [(Ki & Kr & Ka)|_]; [|reflexivity].
    exfalso. apply K. split; [congruence|]. split; [congruence|].
    now symmetry.
Qed.

(** A second payload, the scenario with another recipient name. *)
Definition scenario_other_name : str :=
  join [NL]
    (List.map lit
       ["UPNQR"; ""; ""; ""; ""; ""; ""; ""; "00000002874"; ""; ""; "OTHR";
        "Prispevek za DO"; ""; "SI56110022334455667"; "SI19 12345-67890";
        "ANA KOS"; "DUNAJSKA 1"; "LJUBLJANA"]%string) ++ [NL].

Lemma parse_all_first_of_each_key_witness :
  unp_qr_decode.parse_all_unp_qr_contents [scenario_content; scenario_other_name]
  = [mkUPNPayment (lit "JANEZ NOVAK") (lit "DUNAJSKA 1 LJUBLJANA")
       (lit "SI56110022334455667") (2874 # 100) (lit "SI19 12345-67890")
       (lit "Prispevek za DO") []].
Proof.
  eapply (proj1 (proj2 parse_all_first_of_each_key));
    [exact scenario_parses | vm_compute; reflexivity | reflexivity ..].
Defined.

(** ** Trimming, splitting and joining *)

Lemma drop_while_app (f : char -> bool) (x y : str) :
  drop_while f x <> [] -> drop_while f (x ++ y) = drop_while f x ++ y.
Proof.
  induction x as [|c x IH]; simpl; [congruence|].
  destruct (f c); [exact IH | reflexivity].
Qed.

Lemma drop_while_app_space (f : char -> bool) (x : str) (c : char) :
  f c = true ->
  drop_while f (x ++ [c]) =
  match drop_while f x with [] => [] | y => y ++ [c] end.
Proof.
  intros Hc. induction x as [|a x IH]; simpl.
  - now rewrite Hc.
  - destruct (f a); [exact IH | reflexivity].
Qed.

Lemma drop_while_In (f : char -> bool) (s : str) (c : char) :
  In c (drop_while f s) -> In c s.
Proof.
  induction s as [|a s IH]; simpl; [tauto|].
  destruct (f a); [intros H; right; now apply IH | tauto].
Qed.

Lemma rstrip_space_cons (c : char) (t : str) :
  is_space c = true ->
  rstrip (c :: t) = match rstrip t with [] => [] | r => c :: r end.
Proof.
  intros Hc. unfold rstrip. simpl.
  rewrite drop_while_app_space by exact Hc.
  destruct (drop_while is_space (rev t)) as [|a y] eqn:E; [reflexivity|].
  rewrite rev_app_distr. simpl.
  destruct (rev y ++ [a]) eqn:E2; [|reflexivity].
  now destruct (rev y).
Qed.

Lemma lstrip_rstrip_comm (s : str) : lstrip (rstrip s) = rstrip (lstrip s).
Proof.
  induction s as [|c t IH]; [reflexivity|].
  destruct (is_space c) eqn:E.
  - rewrite rstrip_space_cons by exact E.
    unfold lstrip at 2. simpl. rewrite E. fold (lstrip t). rewrite <- IH.
    destruct (rstrip t) as [|a r]; [reflexivity|].
    unfold lstrip at 1. simpl. now rewrite E.
  - rewrite rstrip_cons by exact E.
    unfold lstrip. simpl. rewrite E. now rewrite rstrip_cons.
Qed.

Lemma strip_lstrip (s : str) : strip (lstrip s) = strip s.
Proof. unfold strip, lstrip. now rewrite drop_while_idem. Qed.

Lemma strip_rstrip (s : str) : strip (rstrip s) = strip s.
Proof. unfold strip. now rewrite lstrip_rstrip_comm, rstrip_idem. Qed.

Lemma strip_nonempty_lstrip (s : str) : strip s <> [] -> lstrip s <> [].
Proof. unfold strip. intros H E. rewrite E in H. now apply H. Qed.

Lemma strip_nonempty_rstrip (s : str) : strip s <> [] -> rstrip s <> [].
Proof.
  unfold strip. rewrite <- lstrip_rstrip_comm. intros H E. rewrite E in H.
  now apply H.
Qed.

Lemma lstrip_app (x y : str) : strip x <> [] -> lstrip (x ++ y) = lstrip x ++ y.
Proof. intros H. apply drop_while_app. now apply strip_nonempty_lstrip. Qed.

Lemma rstrip_app (x y : str) : strip y <> [] -> rstrip (x ++ y) = x ++ rstrip y.
Proof.
  intros H. apply strip_nonempty_rstrip in H. unfold rstrip in *.
  rewrite rev_app_distr, drop_while_app.
  - now rewrite rev_app_distr, rev_involutive.
  - intros E. rewrite E in H. now apply H.
Qed.

Lemma rstrip_In (s : str) (c : char) : In c (rstrip s) -> In c s.
Proof.
  unfold rstrip. intros H. apply in_rev in H. apply drop_while_In in H.
  now apply in_rev.
Qed.

Lemma strip_no_space (s : str) :
  forallb (fun c => negb (is_space c)) s = true -> strip s = s.
Proof.
  intros H.
  assert (R : forall t, forallb (fun c => negb (is_space c)) t = true ->
                        rstrip t = t).
  { induction t as [|c t IH]; [reflexivity|]. simpl. intros Ht.
    apply andb_true_iff in Ht as [Hc Ht]. apply negb_true_iff in Hc.
    rewrite rstrip_cons by exact Hc. now rewrite IH. }
  unfold strip. destruct s as [|c t]; [reflexivity|].
  unfold lstrip. simpl in *. apply andb_true_iff in H as [Hc Ht].
  apply negb_true_iff in Hc. rewrite Hc. apply R. simpl.
  now rewrite Hc, Ht.
Qed.

Lemma join_cons (sep p : str) (ps : list str) :
  ps <> [] -> join sep (p :: ps) = p ++ sep ++ join sep ps.
Proof. destruct ps; [congruence | reflexivity]. Qed.

Lemma join_snoc (sep : str) (ps : list str) (l : str) :
  ps <> [] -> join sep (ps ++ [l]) = join sep ps ++ sep ++ l.
Proof.
  induction ps as [|p ps IH]; [congruence|]. intros _.
  destruct ps as [|q ps]; [reflexivity|].
  change ((p :: q :: ps) ++ [l]) with (p :: ((q :: ps) ++ [l])).
  rewrite join_cons by (destruct ps; discriminate).
  rewrite IH by discriminate.
  rewrite (join_cons sep p (q :: ps)) by discriminate.
  now rewrite <- !app_assoc.
Qed.

Lemma split_on_app (sep : char) (x y : str) :
  ~ In sep x ->
  split_on sep (x ++ sep :: y) = x :: split_on sep y.
Proof.
  induction x as [|c x IH]; intros H.
  - simpl. now rewrite N.eqb_refl.
  - simpl. destruct (c =? sep) eqn:E.
    + apply N.eqb_eq in E. exfalso. apply H. now left.
    + rewrite IH; [reflexivity|]. intros Hx. apply H. now right.
Qed.

Lemma split_on_none (sep : char) (x : str) :
  ~ In sep x -> split_on sep x = [x].
Proof.
  induction x as [|c x IH]; intros H; [reflexivity|].
  simpl. destruct (c =? sep) eqn:E.
  - apply N.eqb_eq in E. exfalso. apply H. now left.
  - rewrite IH; [reflexivity|]. intros Hx. apply H. now right.
Qed.

(** Splitting undoes joining when no part holds the separator. *)
Lemma split_join (sep : char) (ps : list str) :
  ps <> [] -> (forall p, In p ps -> ~ In sep p) ->
  split_on sep (join [sep] ps) = ps.
Proof.
  induction ps as [|p ps IH]; [congruence|]. intros _ H.
  destruct ps as [|q ps].
  - simpl. apply split_on_none, H. now left.
  - rewrite join_cons by discriminate.
    change ([sep] ++ join [sep] (q :: ps)) with (sep :: join [sep] (q :: ps)).
    rewrite split_on_app by (apply H; now left).
    rewrite IH; [reflexivity | discriminate |].
    intros r Hr. apply H. now right.
Qed.

(** ** The checksum line *)

Section Checksum.
Import unp_qr_decode.

(** The lines of a payload joined from [l0], [mid] and [ln], when the first
    and the last line are not blank: each line, trimmed. *)
Lemma raw_lines_join (l0 : str) (mid : list str) (ln : str) :
  (forall p, In p (l0 :: mid ++ [ln]) -> ~ In NL p) ->
  strip l0 <> [] -> strip ln <> [] ->
  raw_lines (join [NL] (l0 :: mid ++ [ln])) = List.map strip (l0 :: mid ++ [ln]).
Proof.
  intros Hnl H0 Hn. unfold raw_lines.
  assert (E : strip (join [NL] (l0 :: mid ++ [ln]))
              = join [NL] ((lstrip l0 :: mid) ++ [rstrip ln])).
  { unfold strip.
    rewrite join_cons by (destruct mid; discriminate).
    rewrite lstrip_app by exact H0.
    rewrite <- join_cons by (destruct mid; discriminate).
    change (lstrip l0 :: mid ++ [ln]) with ((lstrip l0 :: mid) ++ [ln]).
    rewrite !join_snoc by discriminate.
    rewrite !app_assoc. rewrite rstrip_app by exact Hn. reflexivity. }
  rewrite E. rewrite split_join.
  - cbn [app List.map]. rewrite List.map_app. cbn [List.map].
    now rewrite strip_lstrip, strip_rstrip, List.map_app.
  - discriminate.
  - intros p Hp Hin. cbn [app] in Hp. destruct Hp as [<-|Hp].
    + apply (Hnl l0); [now left|]. now apply drop_while_In in Hin.
    + apply in_app_or in Hp as [Hp|[<-|[]]].
      * apply (Hnl p); [right; apply in_or_app; now left | exact Hin].
      * apply (Hnl ln); [right; apply in_or_app; right; now left|].
        now apply rstrip_In.
Qed.

Lemma decimal_is_digit (l : str) :
  forallb is_decimal l = true -> forallb is_digit_char l = true.
Proof.
  rewrite !forallb_forall. intros H c Hc. unfold is_digit_char.
  now rewrite (H c Hc).
Qed.

Lemma decimal_not_space (l : str) :
  forallb is_decimal l = true ->
  forallb (fun c => negb (is_space c)) l = true.
Proof.
  rewrite !forallb_forall. intros H c Hc. specialize (H c Hc).
  destruct (is_space c) eqn:E; [|reflexivity].
  apply space_not_decimal in E. congruence.
Qed.

Lemma checksum_line_ok (l : str) :
  length l = 3%nat -> forallb is_decimal l = true ->
  is_checksum_line (strip l) = true.
Proof.
  intros Hl Hd. rewrite strip_no_space by now apply decimal_not_space.
  unfold is_checksum_line, isdigit. rewrite Hl, decimal_is_digit by exact Hd.
  destruct l; [discriminate | reflexivity].
Qed.

(** The parser looks at its input through the trimmed text being empty or
    not and through the payload lines. *)
Lemma parse_ext (s1 s2 : str) :
  strip s1 <> [] -> strip s2 <> [] ->
  payload_lines s1 = payload_lines s2 ->
  parse_unp_qr_content s1 = parse_unp_qr_content s2.
Proof.
  intros H1 H2 E.
  assert (V : valid_payload s1 <-> valid_payload s2).
  { unfold valid_payload. rewrite E. tauto. }
  assert (R : record_of s1 = record_of s2) by (unfold record_of; now rewrite E).
  destruct (parse_unp_qr_content s1) as [r|] eqn:P1.
  - apply parse_iff in P1 as [Hv ->]. symmetry. apply parse_iff.
    split; [now apply V | exact R].
  - apply parse_none_iff in P1. symmetry. apply parse_none_iff. tauto.
Qed.

Lemma raw_lines_blank (s : str) : strip s = [] -> raw_lines s = [[]].
Proof. unfold raw_lines. now intros ->. Qed.

End Checksum.

(** A payload of twenty lines whose nineteenth line, the recipient's town,
    is empty and whose last line is the checksum [123]. *)
Definition blank_town_lines : list str :=
  List.map lit
    ["UPNQR"; ""; ""; ""; ""; ""; ""; ""; "00000002874"; ""; ""; "OTHR";
     "Prispevek za DO"; ""; "SI56110022334455667"; "SI1912345-67890";
     "JANEZ NOVAK"; "DUNAJSKA 1"; ""; "123"]%string.

(** C5 as stated fails: with an empty nineteenth line the payload parses
    with its checksum line and does not without it, since trimming the whole
    text then leaves fewer than nineteen lines. *)
Lemma checksum_removed_blank_town :
  length blank_town_lines = 20%nat /\
  last blank_town_lines [] = lit "123" /\
  unp_qr_decode.parse_unp_qr_content (join [NL] blank_town_lines) <>
  unp_qr_decode.parse_unp_qr_content (join [NL] (removelast blank_town_lines)).
Proof. repeat split. vm_compute. discriminate. Qed.

(** The same happens with a blank first line: trimming drops it, the
    checksum line becomes the nineteenth line and is read as the town. *)
Example checksum_removed_blank_first_line :
  let ls := List.map lit
              [""; "UPNQR"; ""; ""; ""; ""; ""; ""; ""; "00000002874"; ""; "";
               "OTHR"; "Prispevek za DO"; ""; "SI56110022334455667";
               "SI1912345-67890"; "JANEZ NOVAK"; "DUNAJSKA 1"; "123"]%string in
  length ls = 20%nat /\
  unp_qr_decode.parse_unp_qr_content (join [NL] ls) <> None /\
  unp_qr_decode.parse_unp_qr_content (join [NL] (removelast ls)) = None.
Proof. vm_compute. repeat split. discriminate. Qed.

(** C5, as the code has it. A payload of twenty lines whose last line is
    three decimal digits (three ASCII digits among them) parses as the
    payload without that line does, when its first and nineteenth lines are
    not blank. *)
Theorem checksum_line_ignored (ls : list str) :
  length ls = 20%nat ->
  (forall l, In l ls -> ~ In NL l) ->
  length (last ls []) = 3%nat ->
  forallb is_decimal (last ls []) = true ->
  strip (nth 0 ls []) <> [] ->
  strip (nth 18 ls []) <> [] ->
  unp_qr_decode.parse_unp_qr_content (join [NL] ls) =
  unp_qr_decode.parse_unp_qr_content (join [NL] (removelast ls)).
Proof.
  intros Hlen Hnl H3 Hd H0 H18.
  do 20 (destruct ls as [|? ls]; [discriminate Hlen|]).
  destruct ls; [|discriminate Hlen]. clear Hlen.
  cbn [last nth removelast] in *.
  assert (Hnl' : forall p, In p [s; s0; s1; s2; s3; s4; s5; s6; s7; s8; s9; s10;
                                  s11; s12; s13; s14; s15; s16; s17] -> ~ In NL p).
  { intros p Hp. apply Hnl. cbn [In] in *. tauto. }
  assert (Hc : strip s18 <> []).
  { rewrite strip_no_space by now apply decimal_not_space.
    destruct s18; [discriminate H3 | discriminate]. }
  pose proof (raw_lines_join s
                [s0; s1; s2; s3; s4; s5; s6; s7; s8; s9; s10; s11; s12; s13;
                 s14; s15; s16; s17] s18 Hnl H0 Hc) as R20.
  pose proof (raw_lines_join s
                [s0; s1; s2; s3; s4; s5; s6; s7; s8; s9; s10; s11; s12; s13;
                 s14; s15; s16] s17 Hnl' H0 H18) as R19.
  cbn [app] in R20, R19.
  apply parse_ext.
  - intros E. apply raw_lines_blank in E. rewrite R20 in E. discriminate E.
  - intros E. apply raw_lines_blank in E. rewrite R19 in E. discriminate E.
  - unfold unp_qr_decode.payload_lines. rewrite R20, R19.
    cbn [List.map length last Nat.ltb Nat.leb andb removelast].
    now rewrite checksum_line_ok.
Qed.

Lemma checksum_line_ignored_witness :
  unp_qr_decode.parse_unp_qr_content
    (join [NL] (scenario_lines ++ [lit "123"])) =
  unp_qr_decode.parse_unp_qr_content (join [NL] scenario_lines).
Proof.
  apply (checksum_line_ignored (scenario_lines ++ [lit "123"])).
  - reflexivity.
  - intros l Hl Hin.
    assert (F : forallb (fun p => negb (existsb (N.eqb NL) p))
                        (scenario_lines ++ [lit "123"]) = true)
      by (vm_compute; reflexivity).
    rewrite forallb_forall in F. specialize (F l Hl).
    apply negb_true_iff in F.
    assert (T : existsb (N.eqb NL) l = true)
      by (apply existsb_exists; exists NL; split; [exact Hin | apply N.eqb_refl]).
    congruence.
  - reflexivity.
  - reflexivity.
  - vm_compute. discriminate.
  - vm_compute. discriminate.
Defined.

(** ** Regular expressions: what a match says about the text *)

Inductive matches : regex -> str -> Prop :=
| MEps : matches Reps []
| MClass (f : char -> bool) (c : char) : f c = true -> matches (Rclass f) [c]
| MSeq (r1 r2 : regex) (s1 s2 : str) :
    matches r1 s1 -> matches r2 s2 -> matches (Rseq r1 r2) (s1 ++ s2)
| MAltL (r1 r2 : regex) (s : str) : matches r1 s -> matches (Ralt r1 r2) s
| MAltR (r1 r2 : regex) (s : str) : matches r2 s -> matches (Ralt r1 r2) s
| MStarNil (r : regex) : matches (Rstar r) []
| MStarApp (r : regex) (s1 s2 : str) :
    matches r s1 -> matches (Rstar r) s2 -> matches (Rstar r) (s1 ++ s2).

Lemma nullable_sound (r : regex) : nullable r = true -> matches r [].
Proof.
  induction r; simpl; intros H; try discriminate.
  - constructor.
  - apply andb_true_iff in H as [H1 H2].
    change (@nil char) with (@nil char ++ []). constructor; auto.
  - apply orb_true_iff in H as [H|H]; [apply MAltL | apply MAltR]; auto.
  - constructor.
Qed.

Lemma deriv_sound (r : regex) (c : char) :
  forall s, matches (deriv c r) s -> matches r (c :: s).
Proof.
  induction r; simpl; intros s H.
  - inversion H.
  - inversion H.
  - destruct (f c) eqn:E; inversion H; subst. now constructor.
  - destruct (nullable r1) eqn:N.
    + inversion H as [| | | ? ? ? H1 | ? ? ? H1 | |]; subst.
      * inversion H1; subst.
        change (c :: s1 ++ s2) with ((c :: s1) ++ s2). constructor; auto.
      * change (c :: s) with ([] ++ c :: s). constructor; auto.
        now apply nullable_sound.
    + inversion H; subst.
      change (c :: s1 ++ s2) with ((c :: s1) ++ s2). constructor; auto.
  - inversion H; subst; [apply MAltL | apply MAltR]; auto.
  - inversion H; subst.
    change (c :: s1 ++ s2) with ((c :: s1) ++ s2). constructor; auto.
Qed.

Lemma accepts_sound (s : str) : forall r, accepts r s = true -> matches r s.
Proof.
  induction s as [|c s IH]; simpl; intros r H.
  - now apply nullable_sound.
  - apply deriv_sound. now apply IH.
Qed.

Lemma nullable_complete (r : regex) : matches r [] -> nullable r = true.
Proof.
  intros H. remember (@nil char) as s eqn:Es.
  induction H; simpl; try reflexivity; try discriminate.
  - apply app_eq_nil in Es as [-> ->]. now rewrite IHmatches1, IHmatches2.
  - now rewrite IHmatches.
  - rewrite IHmatches by exact Es. apply orb_true_r.
Qed.

Lemma deriv_complete (r : regex) (c : char) (s : str) :
  matches r (c :: s) -> matches (deriv c r) s.
Proof.
  intros H. remember (c :: s) as cs eqn:E. revert s E.
  induction H as [|f a Ha|r1 r2 u1 u2 H1 IH1 H2 IH2|r1 r2 u H1 IH1
                  |r1 r2 u H2 IH2|r|r u1 u2 H1 IH1 H2 IH2];
    intros t E; simpl; try discriminate.
  - injection E as -> <-. rewrite Ha. constructor.
  - destruct u1 as [|a u1].
    + simpl in E. subst u2.
      rewrite (nullable_complete r1 H1). apply MAltR. now apply IH2.
    + injection E as -> <-.
      destruct (nullable r1); [apply MAltL|]; constructor; auto.
  - apply MAltL. now apply IH1.
  - apply MAltR. now apply IH2.
  - destruct u1 as [|a u1].
    + simpl in E. now apply IH2.
    + injection E as -> <-. constructor; auto.
Qed.

(** The matcher decides the language of the expression. *)
Lemma accepts_iff (r : regex) (s : str) : accepts r s = true <-> matches r s.
Proof.
  split; [apply accepts_sound|].
  revert r. induction s as [|c s IH]; simpl; intros r H.
  - now apply nullable_complete.
  - now apply IH, deriv_complete.
Qed.

Lemma matches_lit (l s : str) : matches (Rlit l) s -> s = l.
Proof.
  revert s. induction l as [|c l IH]; simpl; intros s H.
  - now inversion H.
  - inversion H as [| |? ? ? ? H1 H2| | | |]; subst.
    inversion H1 as [|? ? Hc| | | | |]; subst. apply N.eqb_eq in Hc. subst.
    simpl. f_equal. now apply IH.
Qed.

Lemma matches_star_class (f : char -> bool) (s : str) :
  matches (Rstar (Rclass f)) s -> forallb f s = true.
Proof.
  intros H. remember (Rstar (Rclass f)) as r eqn:E.
  induction H as [| | | | | |r0 u1 u2 H1 IH1 H2 IH2];
    try discriminate; [reflexivity|].
  injection E as ->. inversion H1 as [|? ? Hc| | | | |]; subst. simpl.
  rewrite IH2 by reflexivity. now rewrite Hc.
Qed.

Lemma matches_plus_class (f : char -> bool) (s : str) :
  matches (Rplus (Rclass f)) s -> forallb f s = true /\ s <> [].
Proof.
  intros H. inversion H as [| |? ? ? ? H1 H2| | | |]; subst.
  inversion H1 as [|? ? Hc| | | | |]; subst.
  apply matches_star_class in H2. simpl.
  split; [now rewrite H2, Hc | discriminate].
Qed.

(** ** Upper case *)

Ltac bool_hyps :=
  repeat match goal with
    | H : (_ && _) = true |- _ => apply andb_true_iff in H; destruct H
    | H : (_ || _) = true |- _ => apply orb_true_iff in H; destruct H
    | H : in_range _ _ _ = true |- _ => apply in_range_spec in H
    | H : (_ =? _) = true |- _ => apply N.eqb_eq in H
    | H : is_space _ = true |- _ => apply is_space_spec in H
    | H : is_decimal _ = true |- _ => apply is_decimal_cases in H
    end.

Ltac not_space :=
  match goal with
  | |- is_space ?x = false =>
      let E := fresh "E" in
      destruct (is_space x) eqn:E; [exfalso; bool_hyps; lia | reflexivity]
  end.

(** What [upper_char] gives is the code point itself or an entry of the
    table. *)
Lemma upper_char_cases (c : char) :
  upper_char c = [c] \/ In (c, upper_char c) upper_table.
Proof.
  unfold upper_char.
  destruct (find (fun e => fst e =? c) upper_table) as [e|] eqn:E;
    [|now left].
  right. apply find_some in E as [Hin He]. apply N.eqb_eq in He.
  destruct e as [k u]. cbn [fst snd] in *. now subst k.
Qed.

Lemma upper_char_none (c : char) :
  (forall e, In e upper_table -> fst e <> c) -> upper_char c = [c].
Proof.
  intros H. unfold upper_char.
  destruct (find (fun e => fst e =? c) upper_table) as [e|] eqn:E;
    [|reflexivity].
  apply find_some in E as [Hin He]. apply N.eqb_eq in He.
  now apply H in Hin.
Qed.

Lemma upper_table_no_space :
  forallb (fun e => forallb (fun x => negb (is_space x)) (snd e)) upper_table
  = true.
Proof. vm_compute. reflexivity. Qed.

Lemma upper_table_keys :
  forallb (fun e => negb (is_decimal (fst e))
                    && negb (in_range 65 90 (fst e))) upper_table = true.
Proof. vm_compute. reflexivity. Qed.

(** Upper-casing brings in no whitespace. *)
Lemma upper_char_no_space (c : char) :
  is_space c = false ->
  forallb (fun x => negb (is_space x)) (upper_char c) = true.
Proof.
  intros Hc. destruct (upper_char_cases c) as [->|Hin].
  - cbn [forallb]. now rewrite Hc.
  - pose proof upper_table_no_space as T. rewrite forallb_forall in T.
    exact (T _ Hin).
Qed.

Lemma upper_no_space (s : str) :
  forallb (fun x => negb (is_space x)) s = true ->
  forallb (fun x => negb (is_space x)) (upper s) = true.
Proof.
  induction s as [|c s IH]; [reflexivity|]. simpl. intros H.
  apply andb_true_iff in H as [Hc Hs]. apply negb_true_iff in Hc.
  rewrite forallb_app, (upper_char_no_space c Hc). now apply IH.
Qed.

Lemma remove_spaces_no_space (s : str) :
  forallb (fun x => negb (is_space x)) (remove_spaces s) = true.
Proof.
  apply forallb_forall. intros c Hc. now apply filter_In in Hc.
Qed.

(** Digits and the capital letters A to Z are their own upper case. *)
Lemma upper_char_fixed (c : char) :
  is_decimal c || in_range 65 90 c = true -> upper_char c = [c].
Proof.
  intros Hc. apply upper_char_none. intros e Hin <-.
  pose proof upper_table_keys as T. rewrite forallb_forall in T.
  specialize (T e Hin). apply andb_true_iff in T as [T1 T2].
  apply negb_true_iff in T1, T2. rewrite T1, T2 in Hc. discriminate.
Qed.

Lemma upper_fixed (s : str) :
  forallb (fun c => is_decimal c || in_range 65 90 c) s = true ->
  upper s = s.
Proof.
  induction s as [|c s IH]; [reflexivity|]. simpl. intros H.
  apply andb_true_iff in H as [Hc Hs].
  rewrite (upper_char_fixed c Hc), IH by exact Hs. reflexivity.
Qed.

(** ** The text-layout parsers *)

Section TextParsers.
Import upn_parser.

(** What the parsers promise of an IBAN. *)
Definition iban_ok (ib : str) : Prop :=
  startswith (lit "SI56") ib = true /\ length ib = 19%nat /\
  forallb (fun c => negb (is_space c)) ib = true.

(** What the parsers promise of a record. *)
Definition payment_ok (p : UPNPayment) : Prop :=
  (0 < amount p)%Q /\ iban_ok (iban p).

Lemma amount_positive (x : Q) : Qle_bool x 0 = false -> (0 < x)%Q.
Proof.
  intros H. apply Qnot_le_lt. intros L. apply Qle_bool_iff in L. congruence.
Qed.

Lemma re_match_no_space (r : regex) (t : str) :
  forallb (fun c => negb (is_space c)) t = true ->
  re_match r t = true -> matches r t.
Proof.
  intros Ht H. unfold re_match in H. apply orb_true_iff in H as [H|H].
  - now apply accepts_sound.
  - exfalso. destruct (rev t) as [|c u] eqn:E; [discriminate|].
    apply andb_true_iff in H as [Hc _]. apply N.eqb_eq in Hc. subst c.
    rewrite forallb_forall in Ht.
    assert (Hin : In NL t) by (apply in_rev; rewrite E; now left).
    specialize (Ht NL Hin). discriminate Ht.
Qed.

(** A line the parsers take for an IBAN gives, normalised, the text
    [SI56] and fifteen digits. *)
Lemma iban_line_normalized (cur : str) :
  is_iban_line cur = true -> iban_ok (_normalize_iban cur).
Proof.
  unfold is_iban_line. intros H.
  apply andb_true_iff in H as [H Hlen]. apply andb_true_iff in H as [Hre _].
  apply Nat.eqb_eq in Hlen.
  pose proof (remove_spaces_no_space cur) as Hns.
  apply re_match_no_space in Hre; [|exact Hns].
  unfold iban_re in Hre.
  inversion Hre as [| |? ? p1 rest Hp1 Hrest| | | |]; subst.
  apply (matches_lit (lit "SI56")) in Hp1. subst p1.
  inversion Hrest as [| |? ? w d Hw Hd| | | |]; subst.
  apply matches_star_class in Hw. apply matches_plus_class in Hd as [Hd _].
  match goal with E : _ = remove_spaces cur |- _ => rename E into Et end.
  rewrite <- Et in Hns, Hlen.
  assert (Hfix : forallb (fun c => is_decimal c || in_range 65 90 c)
                         (lit "SI56" ++ w ++ d) = true).
  { rewrite !forallb_app in *.
    apply andb_true_iff in Hns as [_ Hns]. apply andb_true_iff in Hns as [Hw' Hd'].
    apply andb_true_iff. split; [reflexivity|]. apply andb_true_iff. split.
    - apply forallb_forall. intros c Hc.
      rewrite forallb_forall in Hw, Hw'.
      specialize (Hw c Hc). specialize (Hw' c Hc). cbn in Hw.
      rewrite Hw in Hw'. discriminate.
    - apply forallb_forall. intros c Hc.
      rewrite forallb_forall in Hd, Hd'.
      specialize (Hd c Hc). specialize (Hd' c Hc). cbn beta in Hd.
      apply negb_true_iff in Hd'. rewrite Hd', orb_false_r in Hd.
      now rewrite Hd. }
  unfold _normalize_iban. rewrite remove_spaces_strip, <- Et.
  rewrite (upper_fixed _ Hfix).
  unfold iban_ok. split; [reflexivity|]. split; assumption.
Qed.

(** *** [extract_upn_payments] *)

Lemma block_payment_ok (line : str) (after : list str) (p : UPNPayment) :
  block_payment line after = Some p -> payment_ok p.
Proof.
  unfold block_payment.
  destruct (negb _ || negb _); [discriminate|].
  destruct (negb (startswith _ _) || negb (Nat.eqb _ 19)) eqn:G; [discriminate|].
  apply orb_false_iff in G as [G1 G2].
  apply negb_false_iff in G1, G2. apply Nat.eqb_eq in G2.
  destruct (b_amount_val _) as [a|]; [|discriminate].
  destruct (positive_amount a && _ && _) eqn:G3; [|discriminate].
  intros H. injection H as <-.
  apply andb_true_iff in G3 as [G3 _]. apply andb_true_iff in G3 as [G3 _].
  unfold positive_amount in G3. apply negb_true_iff in G3.
  split; [now apply amount_positive|]. cbn [iban].
  split; [exact G1|]. split; [exact G2|].
  unfold _normalize_iban. apply upper_no_space, remove_spaces_no_space.
Qed.

Lemma extract_loop_ok (lines : list str) :
  Forall payment_ok (extract_loop lines).
Proof.
  induction lines as [|line after IH]; simpl; [constructor|].
  destruct (block_payment line after) as [p|] eqn:E; [|exact IH].
  constructor; [now apply block_payment_ok in E | exact IH].
Qed.

(** *** [extract_upn_payments_v2] and the fallback *)

Lemma add_unseen_ok (a : acc) (k : key) (p : UPNPayment) :
  Forall payment_ok (snd a) -> payment_ok p ->
  Forall payment_ok (snd (add_unseen a k p)).
Proof.
  destruct a as [seen payments]. simpl. intros Ha Hp.
  destruct (existsb _ seen); simpl; [exact Ha|].
  apply Forall_app. split; [exact Ha | now constructor].
Qed.

Lemma find_iban_above_ok (above : list str) :
  nonempty (find_iban_above above) = true -> iban_ok (find_iban_above above).
Proof.
  induction above as [|cur more IH]; simpl; [discriminate|].
  destruct (is_iban_line cur) eqn:E; [|exact IH].
  intros _. now apply iban_line_normalized.
Qed.

Lemma step_v2_ok (above : list str) (line : str) (after : list str) (a : acc) :
  Forall payment_ok (snd a) ->
  Forall payment_ok (snd (step_v2 above line after a)).
Proof.
  intros Ha. unfold step_v2.
  destruct (negb (re_match si19_re _)); [exact Ha|].
  destruct after as [|l1 rest]; [exact Ha|].
  destruct (negb (re_match amount_re l1)); [exact Ha|].
  destruct (_parse_amount l1) as [amount_val|]; [|exact Ha].
  destruct (Qle_bool amount_val 0) eqn:Hq; [exact Ha|].
  destruct (negb (nonempty _)) eqn:Hi; [exact Ha|].
  apply negb_false_iff in Hi. apply find_iban_above_ok in Hi.
  destruct (scan_names_v2 _ _ _ _ _) as [[name_lines purpose] payer_ref].
  apply add_unseen_ok; [exact Ha|].
  split; [now apply amount_positive | exact Hi].
Qed.

Lemma loop_v2_ok (lines : list str) :
  forall above a,
    Forall payment_ok (snd a) -> Forall payment_ok (snd (loop_v2 above lines a)).
Proof.
  induction lines as [|line after IH]; simpl; intros above a Ha; [exact Ha|].
  apply IH. now apply step_v2_ok.
Qed.

Lemma find_iban_ref_ok (window : list str) :
  forall ib,
    (nonempty ib = true -> iban_ok ib) ->
    nonempty (fst (find_iban_ref window ib)) = true ->
    iban_ok (fst (find_iban_ref window ib)).
Proof.
  induction window as [|cur more IH]; simpl; intros ib Hib; [exact Hib|].
  assert (Hib' : nonempty (if is_iban_line cur then _normalize_iban cur else ib)
                 = true ->
                 iban_ok (if is_iban_line cur then _normalize_iban cur else ib)).
  { destruct (is_iban_line cur) eqn:E; [|exact Hib].
    intros _. now apply iban_line_normalized. }
  destruct (re_match si19_re (remove_spaces cur)); [exact Hib'|].
  now apply IH.
Qed.

Lemma step_fb_ok (line : str) (after : list str) (a : acc) :
  Forall payment_ok (snd a) ->
  Forall payment_ok (snd (step_fb line after a)).
Proof.
  intros Ha. unfold step_fb.
  destruct (negb (re_match amount_re line)); [exact Ha|].
  destruct (_parse_amount line) as [amount_val|]; [|exact Ha].
  destruct (Qle_bool amount_val 0) eqn:Hq; [exact Ha|].
  match goal with
  | |- context [find_iban_ref ?w []] =>
      pose proof (find_iban_ref_ok w [] (fun H => False_ind _ (diff_false_true H)))
        as Hw;
      destruct (find_iban_ref w []) as [ib ref_si19]
  end.
  cbn [fst] in Hw.
  destruct (negb (nonempty ib) || negb (nonempty ref_si19)) eqn:G; [exact Ha|].
  apply orb_false_iff in G as [G _]. apply negb_false_iff in G.
  destruct (scan_names_fb _ _) as [name_lines purpose].
  apply add_unseen_ok; [exact Ha|].
  split; [now apply amount_positive | now apply Hw].
Qed.

Lemma loop_fb_ok (lines : list str) :
  forall a,
    Forall payment_ok (snd a) -> Forall payment_ok (snd (loop_fb lines a)).
Proof.
  induction lines as [|line after IH]; simpl; intros a Ha; [exact Ha|].
  apply IH. now apply step_fb_ok.
Qed.

End TextParsers.

(** C9. Every record of the three text-layout parsers has an amount above
    zero and an IBAN that begins with [SI56], has 19 characters and holds no
    whitespace. *)
Theorem text_parsers_invariant (text : str) (p : UPNPayment) :
  In p (upn_parser.extract_upn_payments text)
  \/ In p (upn_parser.extract_upn_payments_v2 text)
  \/ In p (upn_parser.extract_upn_payments_from_text_fallback text) ->
  (0 < amount p)%Q /\
  startswith (lit "SI56") (iban p) = true /\
  length (iban p) = 19%nat /\
  forallb (fun c => negb (is_space c)) (iban p) = true.
Proof.
  intros H.
  assert (Hok : payment_ok p).
  { destruct H as [H|[H|H]]; revert p H; apply Forall_forall.
    - apply extract_loop_ok.
    - apply loop_v2_ok. constructor.
    - apply loop_fb_ok. constructor. }
  exact Hok.
Qed.

(** A text in the layout the second parser expects. *)
Definition layout_v2_text : str :=
  join [NL]
    (List.map lit
       ["SI56 1100 2233 4455 667"; "SI19 12345-67890"; "***28,74"; "***28,74";
        "JANEZ NOVAK"; "DUNAJSKA 1"; "RF12"; "Prispevek za DO"]%string).

Lemma text_parsers_invariant_witness :
  (0 < 2874 # 100)%Q /\
  startswith (lit "SI56") (lit "SI56110022334455667") = true /\
  length (lit "SI56110022334455667") = 19%nat /\
  forallb (fun c => negb (is_space c)) (lit "SI56110022334455667") = true.
Proof.
  apply (text_parsers_invariant layout_v2_text
           (mkUPNPayment (lit "JANEZ NOVAK") (lit "DUNAJSKA 1")
              (lit "SI56110022334455667") (2874 # 100) (lit "SI1912345-67890")
              (lit "Prispevek za DO") (lit "RF12"))).
  right; left. vm_compute. left. reflexivity.
Defined.

(** ** Amount lines *)

Lemma drop_while_all (f : char -> bool) (a b : str) :
  forallb f a = true -> drop_while f (a ++ b) = drop_while f b.
Proof.
  induction a as [|c a IH]; simpl; [reflexivity|]. intros H.
  apply andb_true_iff in H as [Hc Ha]. rewrite Hc. now apply IH.
Qed.

Lemma take_while_stop (f : char -> bool) (a b : str) (c : char) :
  forallb f a = true -> f c = false -> take_while f (a ++ c :: b) = a.
Proof.
  intros Ha Hc. induction a as [|x a IH]; simpl.
  - now rewrite Hc.
  - simpl in Ha. apply andb_true_iff in Ha as [Hx Ha]. rewrite Hx.
    now rewrite IH.
Qed.

Lemma drop_while_stop (f : char -> bool) (a b : str) (c : char) :
  forallb f a = true -> f c = false -> drop_while f (a ++ c :: b) = c :: b.
Proof.
  intros Ha Hc. rewrite drop_while_all by exact Ha. simpl. now rewrite Hc.
Qed.

Lemma rstrip_spaces (x w : str) :
  forallb is_space w = true -> rstrip (x ++ w) = rstrip x.
Proof.
  intros H. unfold rstrip. rewrite rev_app_distr, drop_while_all; [reflexivity|].
  rewrite forallb_forall in *. intros c Hc. apply H. now apply in_rev.
Qed.

Lemma rstrip_last (x : str) (c : char) :
  is_space c = false -> rstrip (x ++ [c]) = x ++ [c].
Proof.
  intros H. unfold rstrip. rewrite rev_app_distr. simpl. rewrite H.
  simpl. now rewrite rev_involutive.
Qed.

Lemma matches_rep_class (f : char -> bool) (n : nat) :
  forall s, matches (Rrep n (Rclass f)) s ->
            length s = n /\ forallb f s = true.
Proof.
  induction n as [|n IH]; simpl; intros s H.
  - inversion H. split; reflexivity.
  - inversion H as [| |? ? s1 s2 H1 H2| | | |]; subst.
    inversion H1 as [|? ? Hc| | | | |]; subst.
    apply IH in H2 as [Hl Hf]. simpl. rewrite Hc, Hl, Hf. split; reflexivity.
Qed.

Lemma decimal_facts (c : char) :
  is_decimal c = true ->
  is_space c = false /\ (c =? 42) = false /\ (c =? 44) = false
  /\ (c =? 45) = false /\ (c =? 43) = false.
Proof.
  intros H. apply is_decimal_cases in H.
  repeat split; try (apply N.eqb_neq; lia).
  destruct (is_space c) eqn:E; [apply is_space_spec in E; lia | reflexivity].
Qed.

Lemma space_facts (c : char) :
  is_space c = true -> (c =? 42) = false /\ (c =? 44) = false.
Proof.
  intros H. apply is_space_spec in H. split; apply N.eqb_neq; lia.
Qed.

(** The text of a line that [amount_re] accepts. *)
Definition amount_line (l stars ws ds : str) (sep d1 d2 : char) (ws' : str)
  : Prop :=
  l = stars ++ ws ++ ds ++ sep :: d1 :: d2 :: ws' /\
  stars <> [] /\ forallb (N.eqb 42) stars = true /\
  forallb is_space ws = true /\
  ds <> [] /\ forallb is_decimal ds = true /\
  (sep = 44 \/ sep = 46) /\
  is_decimal d1 = true /\ is_decimal d2 = true /\
  forallb is_space ws' = true.

Lemma amount_re_matches (l : str) :
  matches upn_parser.amount_re l ->
  exists stars ws ds sep d1 d2 ws', amount_line l stars ws ds sep d1 d2 ws'.
Proof.
  unfold upn_parser.amount_re. intros H.
  inversion H as [| |? ? stars r1 Hst H1| | | |]; subst.
  inversion H1 as [| |? ? ws r2 Hws H2| | | |]; subst.
  inversion H2 as [| |? ? ds r3 Hds H3| | | |]; subst.
  inversion H3 as [| |? ? sp r4 Hsp H4| | | |]; subst.
  inversion H4 as [| |? ? dd ws' Hdd Hws'| | | |]; subst.
  apply matches_plus_class in Hst as [Hst Hst'].
  apply matches_star_class in Hws.
  apply matches_plus_class in Hds as [Hds Hds'].
  inversion Hsp as [|? sep Hsep| | | | |]; subst.
  apply (matches_rep_class is_decimal 2) in Hdd as [Hl Hdd].
  apply matches_star_class in Hws'.
  destruct dd as [|d1 [|d2 [|]]]; try discriminate Hl.
  simpl in Hdd. apply andb_true_iff in Hdd as [Hd1 Hd2].
  apply andb_true_iff in Hd2 as [Hd2 _].
  exists stars, ws, ds, sep, d1, d2, ws'. unfold amount_line.
  repeat split; try assumption.
  apply orb_true_iff in Hsep as [E|E]; apply N.eqb_eq in E; auto.
Qed.

Lemma amount_re_shape (l : str) :
  re_match upn_parser.amount_re l = true ->
  exists stars ws ds sep d1 d2 ws', amount_line l stars ws ds sep d1 d2 ws'.
Proof.
  unfold re_match. intros H. apply orb_true_iff in H as [H|H].
  - apply amount_re_matches. now apply accepts_sound.
  - destruct (rev l) as [|c t] eqn:E; [discriminate|].
    apply andb_true_iff in H as [Hc H]. apply N.eqb_eq in Hc. subst c.
    apply accepts_sound, amount_re_matches in H
      as (stars & ws & ds & sep & d1 & d2 & ws' & Hl & H1 & H2 & H3 & H4 & H5
          & H6 & H7 & H8 & H9).
    exists stars, ws, ds, sep, d1, d2, (ws' ++ [NL]). unfold amount_line.
    repeat split; try assumption.
    + rewrite <- (rev_involutive l), E. simpl. rewrite Hl.
      now rewrite <- !app_assoc.
    + rewrite forallb_app, H9. reflexivity.
Qed.

(** Every line that [amount_re] accepts parses, to a number of hundredths:
    on the calls the parsers make, [float_of_str] stays within the spellings
    it models. *)
Lemma parse_amount_line (l : str) :
  re_match upn_parser.amount_re l = true ->
  exists n : Z, (0 <= n)%Z /\ upn_parser._parse_amount l = Some (n # 100).
Proof.
  intros H.
  apply amount_re_shape in H
    as (stars & ws & ds & sep & d1 & d2 & ws' & Hl & H1 & H2 & H3 & H4 & H5
        & H6 & H7 & H8 & H9).
  destruct (decimal_facts d1 H7) as (S1 & _).
  destruct (decimal_facts d2 H8) as (S2 & _).
  destruct stars as [|st stars]; [congruence|]. clear H1.
  destruct ds as [|d0 ds]; [congruence|]. clear H4.
  pose proof H2 as H2'. cbn [forallb] in H2'. apply andb_true_iff in H2' as [Hst _].
  apply N.eqb_eq in Hst. subst st.
  pose proof H5 as H5'. cbn [forallb] in H5'. apply andb_true_iff in H5' as [Hd0 Hds].
  destruct (decimal_facts d0 Hd0) as (S0 & T0 & C0 & M0 & P0).
  exists (int_of_digits ((d0 :: ds) ++ [d1; d2])). split.
  { apply int_of_digits_nonneg_from; [lia|].
    rewrite forallb_app, H5. cbn [forallb]. now rewrite H7, H8. }
  unfold upn_parser._parse_amount.
  assert (E1 : strip l = (42 :: stars) ++ ws ++ (d0 :: ds) ++ [sep; d1; d2]).
  { rewrite Hl. unfold strip, lstrip. cbn [app drop_while].
    change (is_space 42) with false. cbn iota.
    match goal with
    | |- rstrip ?x = _ =>
        replace x
          with (((42 :: stars ++ ws ++ d0 :: ds ++ [sep; d1]) ++ [d2]) ++ ws')
    end.
    2:{ cbn [app]. f_equal. rewrite <- !app_assoc. cbn [app].
        rewrite <- !app_assoc. reflexivity. }
    rewrite rstrip_spaces by exact H9.
    rewrite rstrip_last by exact S2.
    cbn [app]. f_equal. rewrite <- !app_assoc. cbn [app].
    rewrite <- !app_assoc. reflexivity. }
  rewrite E1.
  assert (E2 : drop_while (N.eqb 42)
                 ((42 :: stars) ++ ws ++ (d0 :: ds) ++ [sep; d1; d2])
               = ws ++ (d0 :: ds) ++ [sep; d1; d2]).
  { rewrite drop_while_all by exact H2.
    destruct ws as [|w ws]; cbn [app drop_while].
    - rewrite N.eqb_sym, T0. reflexivity.
    - cbn [forallb] in H3. apply andb_true_iff in H3 as [Hw _].
      destruct (space_facts w Hw) as [Tw _]. rewrite N.eqb_sym, Tw. reflexivity. }
  rewrite E2.
  assert (E3 : List.map (fun c => if c =? 44 then 46 else c)
                    (ws ++ (d0 :: ds) ++ [sep; d1; d2])
               = ws ++ (d0 :: ds) ++ [(46 : char); d1; d2]).
  { assert (Hid : forall s : str,
               (forall c, In c s -> (c =? 44) = false) ->
               List.map (fun c => if c =? 44 then 46 else c) s = s).
    { induction s as [|c s IH]; [reflexivity|]. intros Hs. cbn [List.map].
      rewrite (Hs c) by now left. f_equal. apply IH. intros x Hx. apply Hs.
      now right. }
    rewrite !List.map_app. f_equal; [|f_equal].
    - apply Hid. intros c Hc. rewrite forallb_forall in H3.
      now destruct (space_facts c (H3 c Hc)).
    - apply Hid. intros c Hc. rewrite forallb_forall in H5.
      now destruct (decimal_facts c (H5 c Hc)) as (_ & _ & C & _).
    - cbn [List.map].
      destruct (decimal_facts d1 H7) as (_ & _ & C1 & _).
      destruct (decimal_facts d2 H8) as (_ & _ & C2 & _).
      rewrite C1, C2. destruct H6 as [-> | ->]; reflexivity. }
  rewrite E3.
  unfold float_of_str.
  assert (E4 : strip (ws ++ (d0 :: ds) ++ [(46 : char); d1; d2])
               = d0 :: ds ++ [(46 : char); d1; d2]).
  { unfold strip, lstrip. rewrite drop_while_all by exact H3.
    cbn [app drop_while]. rewrite S0.
    match goal with
    | |- rstrip ?x = _ => replace x with ((d0 :: ds ++ [(46 : char); d1]) ++ [d2])
    end.
    2:{ cbn [app]. rewrite <- ?app_assoc. reflexivity. }
    rewrite rstrip_last by exact S2.
    cbn [app]. rewrite <- ?app_assoc. reflexivity. }
  rewrite E4. rewrite M0, P0.
  pose proof (take_while_stop is_decimal (d0 :: ds) [d1; d2] 46 H5 eq_refl) as Et.
  pose proof (drop_while_stop is_decimal (d0 :: ds) [d1; d2] 46 H5 eq_refl) as Ed.
  cbn [app] in Et, Ed. rewrite Et, Ed.
  cbn [forallb]. rewrite H7, H8. reflexivity.
Qed.

(** ** The three parsers at work *)

(** A text in the layout of the first parser; its reference pattern asks
    for whitespace other than a space after [SI19], here a tab. *)
Definition layout_v1_text : str :=
  join [NL]
    [lit "SI56 1100 2233 4455 667"; lit "JANEZ NOVAK"; lit "DUNAJSKA 1";
     lit "SI56 1100 2233 4455 667"; lit "SI19" ++ [9] ++ lit "12345-67890";
     lit "***28,74"].

(** A text in the layout of the fallback parser. *)
Definition layout_fb_text : str :=
  join [NL]
    (List.map lit
       ["***28,74"; "***28,74"; "SI56 1100 2233 4455 667"; "SI19 12345-67890";
        "LBRI"; "JANEZ NOVAK"; "DUNAJSKA 1"; "Prispevek za DO"]%string).

Example extract_upn_payments_layout :
  upn_parser.extract_upn_payments layout_v1_text =
  [mkUPNPayment (lit "JANEZ NOVAK") (lit "DUNAJSKA 1")
     (lit "SI56110022334455667") (2874 # 100) (lit "SI1912345-67890")
     (lit "UPN payment") []].
Proof. vm_compute. reflexivity. Qed.

Example extract_upn_payments_v2_layout :
  upn_parser.extract_upn_payments_v2 layout_v2_text =
  [mkUPNPayment (lit "JANEZ NOVAK") (lit "DUNAJSKA 1")
     (lit "SI56110022334455667") (2874 # 100) (lit "SI1912345-67890")
     (lit "Prispevek za DO") (lit "RF12")].
Proof. vm_compute. reflexivity. Qed.

Example extract_upn_payments_fallback_layout :
  upn_parser.extract_upn_payments_from_text_fallback layout_fb_text =
  [mkUPNPayment (lit "JANEZ NOVAK") (lit "DUNAJSKA 1")
     (lit "SI56110022334455667") (2874 # 100) (lit "SI1912345-67890")
     (lit "Prispevek za DO") []].
Proof. vm_compute. reflexivity. Qed.

(** * Further properties of the code *)

(** ** More on strings *)

Lemma drop_while_nil_iff (f : char -> bool) (s : str) :
  drop_while f s = [] <-> forallb f s = true.
Proof.
  induction s as [|c s IH]; simpl; [tauto|].
  destruct (f c); simpl; [exact IH|]. split; discriminate.
Qed.

Lemma strip_In (s : str) (c : char) : In c (strip s) -> In c s.
Proof.
  unfold strip, lstrip. intros H. apply rstrip_In in H.
  now apply drop_while_In in H.
Qed.

Lemma split_on_no_sep (sep : char) (s : str) :
  forall l, In l (split_on sep s) -> ~ In sep l.
Proof.
  induction s as [|c s IH]; simpl; intros l Hl.
  - destruct Hl as [<-|[]]. tauto.
  - destruct (c =? sep) eqn:E.
    + destruct Hl as [<-|Hl]; [tauto | now apply IH].
    + apply N.eqb_neq in E. destruct (split_on sep s) as [|l0 ls].
      * destruct Hl as [<-|[]]. simpl. intuition congruence.
      * destruct Hl as [<-|Hl].
        -- simpl. intros [H|H]; [congruence|].
           apply (IH l0); [now left | exact H].
        -- apply IH. now right.
Qed.

(** Whitespace around a text does not show in the trimmed text. *)
Lemma strip_pad (w1 s w2 : str) :
  forallb is_space w1 = true -> forallb is_space w2 = true ->
  strip (w1 ++ s ++ w2) = strip s.
Proof.
  intros H1 H2. unfold strip, lstrip. rewrite drop_while_all by exact H1.
  destruct (drop_while is_space s) as [|c t] eqn:E.
  - apply drop_while_nil_iff in E.
    assert (A : forallb is_space (s ++ w2) = true)
      by (rewrite forallb_app, E, H2; reflexivity).
    apply drop_while_nil_iff in A. now rewrite A.
  - rewrite drop_while_app by (rewrite E; discriminate).
    rewrite E. now apply rstrip_spaces.
Qed.

Lemma int_of_digits_bound_from (s : str) :
  forall acc : Z,
    (0 <= acc)%Z -> forallb is_decimal s = true ->
    (fold_left (fun a c => (10 * a + digit_value c)%Z) s acc
     < (acc + 1) * 10 ^ Z.of_nat (length s))%Z.
Proof.
  induction s as [|c s IH]; intros acc Ha Hs.
  - cbn [fold_left length]. change (Z.of_nat 0) with 0%Z. lia.
  - cbn [fold_left forallb] in *. apply andb_true_iff in Hs as [Hc Hs].
    pose proof (digit_value_range c Hc) as Hd.
    specialize (IH (10 * acc + digit_value c)%Z ltac:(lia) Hs).
    replace (Z.of_nat (length (c :: s))) with (Z.succ (Z.of_nat (length s)))
      by (cbn [length]; lia).
    rewrite Z.pow_succ_r by lia.
    assert (P : (0 < 10 ^ Z.of_nat (length s))%Z) by (apply Z.pow_pos_nonneg; lia).
    nia.
Qed.

Lemma int_of_digits_bound (s : str) :
  forallb is_decimal s = true ->
  (int_of_digits s < 10 ^ Z.of_nat (length s))%Z.
Proof.
  intros H. pose proof (int_of_digits_bound_from s 0%Z ltac:(lia) H) as B.
  unfold int_of_digits. lia.
Qed.

(** ** More on the QR payload parser *)

Section QRParserMore.
Import unp_qr_decode.

Lemma payload_line_no_nl (s : str) (i : nat) :
  ~ In NL (line (payload_lines s) i).
Proof.
  unfold line.
  destruct (nth_in_or_default i (payload_lines s) []) as [H|H].
  - assert (Hraw : In (nth i (payload_lines s) []) (raw_lines s)).
    { unfold payload_lines in *.
      destruct (_ && _); [now apply removelast_incl | exact H]. }
    unfold raw_lines in Hraw. apply in_map_iff in Hraw as [x [Hx Hin]].
    rewrite <- Hx. intros Hnl. apply strip_In in Hnl.
    now apply (split_on_no_sep NL _ x Hin).
  - rewrite H. tauto.
Qed.

(** The parser sees its input through the trimmed text only. *)
Lemma parse_strip (s1 s2 : str) :
  strip s1 = strip s2 ->
  parse_unp_qr_content s1 = parse_unp_qr_content s2.
Proof.
  intros E. destruct (str_eqb (strip s1) []) eqn:B.
  - apply str_eqb_eq in B.
    assert (N1 : parse_unp_qr_content s1 = None).
    { apply parse_none_iff. intros [H _]. contradiction. }
    assert (N2 : parse_unp_qr_content s2 = None).
    { apply parse_none_iff. intros [H _]. rewrite <- E in H. contradiction. }
    congruence.
  - apply str_eqb_neq in B. apply parse_ext; [exact B | now rewrite <- E |].
    unfold payload_lines, raw_lines. now rewrite E.
Qed.

Lemma line_firstn (lines : list str) (i : nat) :
  (i < 19)%nat -> line lines i = line (firstn 19 lines) i.
Proof.
  intros Hi. unfold line.
  rewrite <- (firstn_skipn 19 lines) at 1.
  destruct (Nat.lt_ge_cases i (length (firstn 19 lines))) as [L|L].
  - now rewrite app_nth1.
  - rewrite (nth_overflow (firstn 19 lines)) by exact L.
    rewrite length_firstn in L.
    apply nth_overflow. rewrite length_app, length_firstn, length_skipn. lia.
Qed.

(** The parser sees the payload lines through the first nineteen only. *)
Lemma parse_first_19 (s1 s2 : str) :
  strip s1 <> [] -> strip s2 <> [] ->
  (19 <= length (payload_lines s1))%nat ->
  (19 <= length (payload_lines s2))%nat ->
  firstn 19 (payload_lines s1) = firstn 19 (payload_lines s2) ->
  parse_unp_qr_content s1 = parse_unp_qr_content s2.
Proof.
  intros H1 H2 L1 L2 E.
  assert (Hl : forall i, (i < 19)%nat ->
                 line (payload_lines s1) i = line (payload_lines s2) i).
  { intros i Hi. rewrite (line_firstn _ i Hi), E. symmetry.
    now apply line_firstn. }
  assert (V : valid_payload s1 <-> valid_payload s2).
  { unfold valid_payload. rewrite !Hl by lia. tauto. }
  assert (R : record_of s1 = record_of s2).
  { unfold record_of, build_record. now rewrite !Hl by lia. }
  destruct (parse_unp_qr_content s1) as [r|] eqn:P1.
  - apply parse_iff in P1 as [Hv ->]. symmetry. apply parse_iff.
    split; [now apply V | exact R].
  - apply parse_none_iff in P1. symmetry. apply parse_none_iff. tauto.
Qed.

(** [raw_lines_join] for a list given as a whole. *)
Lemma raw_lines_of_lines (ls : list str) :
  (2 <= length ls)%nat ->
  (forall l, In l ls -> ~ In NL l) ->
  strip (nth 0 ls []) <> [] -> strip (last ls []) <> [] ->
  raw_lines (join [NL] ls) = List.map strip ls.
Proof.
  intros Hlen Hnl H0 Hn.
  destruct ls as [|l0 tl]; [simpl in Hlen; lia|].
  destruct tl as [|l1 tl]; [simpl in Hlen; lia|].
  assert (Ht : l1 :: tl <> []) by discriminate.
  destruct (exists_last Ht) as (mid & ln & E). rewrite E in *.
  apply raw_lines_join.
  - exact Hnl.
  - exact H0.
  - change (l0 :: mid ++ [ln]) with ((l0 :: mid) ++ [ln]) in Hn.
    now rewrite last_last in Hn.
Qed.

End QRParserMore.

(** X1. A record of the QR parser has an amount of 0 to 999999999.99 in
    hundredths, an IBAN of 19 characters that starts with [SI] and holds no
    whitespace, and text fields without a line feed; name, address and
    reference are trimmed. *)
Theorem qr_record_invariant (s : str) (r : UPNPayment) :
  unp_qr_decode.parse_unp_qr_content s = Some r ->
  (exists n : Z, amount r = (n # 100) /\ (0 <= n < 10 ^ 11)%Z) /\
  startswith (lit "SI") (iban r) = true /\
  length (iban r) = 19%nat /\
  forallb (fun c => negb (is_space c)) (iban r) = true /\
  ~ In NL (recipient_name r) /\ ~ In NL (recipient_address r) /\
  ~ In NL (reference r) /\ ~ In NL (purpose r) /\
  strip (recipient_name r) = recipient_name r /\
  strip (recipient_address r) = recipient_address r /\
  strip (reference r) = reference r.
Proof.
  intros H. apply parse_iff in H as [(V1 & V2 & V3 & V4 & V5 & V6) ->].
  unfold record_of, unp_qr_decode.build_record.
  cbn [amount iban recipient_name recipient_address reference purpose].
  rewrite !payload_line_stripped.
  pose proof (payload_line_no_nl s) as NoNL.
  split; [|split; [exact V5|split; [exact V6|split]]].
  - eexists. split; [reflexivity|]. split; [apply int_of_digits_nonneg|].
    pose proof (int_of_digits_bound _ (keep_decimals_all
                  (unp_qr_decode.line (unp_qr_decode.payload_lines s) 8))) as B.
    rewrite V4 in B. exact B.
  - apply upper_no_space, remove_spaces_no_space.
  - repeat split.
    + unfold or_str. destruct (unp_qr_decode.line _ 16) eqn:E.
      * vm_compute. intuition discriminate.
      * rewrite <- E. apply NoNL.
    + intros Hin. apply strip_In in Hin.
      pose proof (NoNL 17%nat) as N17. pose proof (NoNL 18%nat) as N18.
      cbn [filter] in Hin.
      destruct (unp_qr_decode.line _ 17) as [|a l17];
        destruct (unp_qr_decode.line _ 18) as [|b l18];
        cbn [str_eqb negb join] in Hin.
      * destruct Hin.
      * now apply N18.
      * now apply N17.
      * apply in_app_or in Hin as [Hin|Hin]; [now apply N17|].
        apply in_app_or in Hin as [Hin|Hin]; [|now apply N18].
        vm_compute in Hin. intuition discriminate.
    + apply NoNL.
    + unfold or_str. destruct (unp_qr_decode.line _ 12) eqn:E12.
      * destruct (take 4 _) eqn:E11.
        -- vm_compute. intuition discriminate.
        -- rewrite <- E11. intros Hin. apply (NoNL 11%nat).
           unfold take in Hin. rewrite <- (firstn_skipn 4). apply in_or_app.
           now left.
      * rewrite <- E12. apply NoNL.
    + unfold or_str. destruct (unp_qr_decode.line _ 16) eqn:E.
      * vm_compute. reflexivity.
      * rewrite <- E. apply payload_line_stripped.
    + apply strip_idem.
Qed.

Lemma qr_record_invariant_witness :
  length (lit "SI56110022334455667") = 19%nat.
Proof.
  apply (qr_record_invariant scenario_content _ scenario_parses).
Defined.

(** X2. Whitespace before and after the payload does not change what the
    parser returns. *)
Theorem parse_ignores_padding (w1 s w2 : str) :
  forallb is_space w1 = true -> forallb is_space w2 = true ->
  unp_qr_decode.parse_unp_qr_content (w1 ++ s ++ w2) =
  unp_qr_decode.parse_unp_qr_content s.
Proof.
  intros H1 H2. apply parse_strip. now apply strip_pad.
Qed.

Lemma parse_ignores_padding_witness :
  unp_qr_decode.parse_unp_qr_content
    (lit "  " ++ scenario_content ++ [NL; 32; 13; NL]) =
  unp_qr_decode.parse_unp_qr_content scenario_content.
Proof.
  apply (parse_ignores_padding (lit "  ") scenario_content [NL; 32; 13; NL]);
    reflexivity.
Defined.

(** X3. Lines after the nineteenth do not change what the parser returns:
    a payload of nineteen lines or more parses as its first nineteen lines
    do (first, nineteenth and last line not blank). *)
Theorem lines_after_19_ignored (ls : list str) :
  (19 <= length ls)%nat ->
  (forall l, In l ls -> ~ In NL l) ->
  strip (nth 0 ls []) <> [] ->
  strip (nth 18 ls []) <> [] ->
  strip (last ls []) <> [] ->
  unp_qr_decode.parse_unp_qr_content (join [NL] ls) =
  unp_qr_decode.parse_unp_qr_content (join [NL] (firstn 19 ls)).
Proof.
  intros Hlen Hnl H0 H18 Hlast.
  pose proof (raw_lines_of_lines ls ltac:(lia) Hnl H0 Hlast) as R.
  assert (R19 : unp_qr_decode.raw_lines (join [NL] (firstn 19 ls))
                = List.map strip (firstn 19 ls)).
  { apply raw_lines_of_lines.
    - rewrite length_firstn. lia.
    - intros l Hl. apply Hnl.
      rewrite <- (firstn_skipn 19 ls). apply in_or_app. now left.
    - clear - Hlen H0. destruct ls; [simpl in Hlen; lia | exact H0].
    - clear - Hlen H18.
      do 19 (destruct ls as [|? ls]; [simpl in Hlen; lia|]). exact H18. }
  assert (L19 : length (firstn 19 ls) = 19%nat) by (rewrite length_firstn; lia).
  apply parse_first_19.
  - intros E. apply raw_lines_blank in E. rewrite R in E.
    apply (f_equal (@length str)) in E. rewrite length_map in E. simpl in E. lia.
  - intros E. apply raw_lines_blank in E. rewrite R19 in E.
    apply (f_equal (@length str)) in E. rewrite length_map, L19 in E.
    discriminate E.
  - unfold unp_qr_decode.payload_lines. rewrite R.
    destruct (Nat.ltb 19 (length (List.map strip ls))) eqn:G; cbn [andb].
    + apply Nat.ltb_lt in G.
      destruct (unp_qr_decode.is_checksum_line _);
        [|rewrite length_map in *; lia].
      rewrite removelast_firstn_len, length_firstn. lia.
    + rewrite length_map. lia.
  - unfold unp_qr_decode.payload_lines. rewrite R19, length_map, L19.
    change (Nat.ltb 19 19) with false. cbn [andb]. rewrite length_map, L19. lia.
  - unfold unp_qr_decode.payload_lines. rewrite R, R19.
    rewrite (length_map strip (firstn 19 ls)), L19.
    change (Nat.ltb 19 19) with false. cbn [andb].
    rewrite firstn_map, firstn_firstn. change (Init.Nat.min 19 19) with 19%nat.
    destruct (Nat.ltb 19 (length (List.map strip ls))) eqn:G; cbn [andb].
    + apply Nat.ltb_lt in G.
      destruct (unp_qr_decode.is_checksum_line _); [|now rewrite firstn_map].
      rewrite firstn_removelast by exact G. now rewrite firstn_map.
    + now rewrite firstn_map.
Qed.

Lemma lines_after_19_ignored_witness :
  unp_qr_decode.parse_unp_qr_content
    (join [NL] (scenario_lines ++ [lit "not a checksum"; lit "more"])) =
  unp_qr_decode.parse_unp_qr_content (join [NL] scenario_lines).
Proof.
  apply (lines_after_19_ignored
           (scenario_lines ++ [lit "not a checksum"; lit "more"])).
  - vm_compute. lia.
  - intros l Hl Hin.
    assert (F : forallb (fun p => negb (existsb (N.eqb NL) p))
                        (scenario_lines ++ [lit "not a checksum"; lit "more"])
                = true) by (vm_compute; reflexivity).
    rewrite forallb_forall in F. specialize (F l Hl).
    apply negb_true_iff in F.
    assert (T : existsb (N.eqb NL) l = true)
      by (apply existsb_exists; exists NL; split; [exact Hin | apply N.eqb_refl]).
    congruence.
  - vm_compute. discriminate.
  - vm_compute. discriminate.
  - vm_compute. discriminate.
Defined.

(** ** More on the EPC encoder *)

Lemma firstn_length_le {A} (n : nat) (l : list A) : (length (firstn n l) <= n)%nat.
Proof. rewrite length_firstn. lia. Qed.

Lemma pop_empty_rev_spec (rparts : list str) :
  exists dropped,
    rparts = dropped ++ epc_qr.pop_empty_rev rparts /\
    Forall (fun f => f = []) dropped /\
    (rparts = [] \/ (exists x, epc_qr.pop_empty_rev rparts = [x])
     \/ hd [] (epc_qr.pop_empty_rev rparts) <> []).
Proof.
  induction rparts as [|p t IH].
  - exists []. simpl. auto.
  - destruct p as [|c p].
    + destruct t as [|q t].
      * exists []. simpl. split; [reflexivity|]. split; [constructor|].
        right; left. now exists [].
      * destruct IH as (d & E & F & L).
        exists ([] :: d). change (epc_qr.pop_empty_rev ([] :: q :: t))
          with (epc_qr.pop_empty_rev (q :: t)).
        split; [cbn [app]; now rewrite <- E|]. split; [now constructor|].
        destruct L as [L|L]; [discriminate L | right; exact L].
    + exists []. simpl. split; [reflexivity|]. split; [constructor|].
      right; right. discriminate.
Qed.

(** What trimming does to any list of parts: it drops empty parts from the
    end, down to one part or to a part that is not empty. *)
Lemma trim_parts_spec (parts : list str) :
  exists dropped,
    parts = epc_qr.trim_parts parts ++ dropped /\
    Forall (fun f => f = []) dropped /\
    (parts = [] \/ (exists x, epc_qr.trim_parts parts = [x])
     \/ last (epc_qr.trim_parts parts) [] <> []).
Proof.
  unfold epc_qr.trim_parts.
  destruct (pop_empty_rev_spec (rev parts)) as (d & E & F & L).
  exists (rev d). split; [|split].
  - rewrite <- rev_app_distr, <- E. now rewrite rev_involutive.
  - apply Forall_rev. exact F.
  - destruct L as [L|[[x L]|L]].
    + left. now destruct parts; [|apply (f_equal (@length str)) in L;
        rewrite length_rev in L; discriminate L].
    + right; left. exists x. now rewrite L.
    + right; right.
      destruct (epc_qr.pop_empty_rev (rev parts)) as [|a l]; [now contradiction L|].
      cbn [rev hd] in *. now rewrite last_last.
Qed.

Lemma prefix_nth_length (fields dropped : list str) (i : nat) :
  (length (nth i fields []) <= length (nth i (fields ++ dropped) []))%nat.
Proof.
  destruct (Nat.lt_ge_cases i (length fields)) as [L|L].
  - now rewrite app_nth1.
  - rewrite (nth_overflow fields) by exact L. simpl. lia.
Qed.

(** X4. For every record and BIC the payload fields are the eleven parts
    without empty parts at the end; the first eight fields, up to the amount,
    are always there, the last field is never empty, and name, IBAN, purpose
    code, reference and purpose text keep to 70, 34, 4, 35 and 70
    characters. *)
Theorem epc_fields_shape (p : UPNPayment) (bic : option str) :
  (exists dropped,
      epc_qr.epc_parts p bic = epc_qr.epc_fields p bic ++ dropped /\
      Forall (fun f => f = []) dropped) /\
  (8 <= length (epc_qr.epc_fields p bic) <= 11)%nat /\
  last (epc_qr.epc_fields p bic) [] <> [] /\
  firstn 8 (epc_qr.epc_fields p bic) =
    [lit "BCD"; lit "002"; lit "1"; lit "SCT";
     strip (match bic with Some b => b | None => [] end);
     take 70 (recipient_name p);
     take 34 (upper (filter (fun c => negb (c =? 32)) (iban p)));
     lit "EUR" ++ format_2f (amount p)] /\
  (length (nth 5 (epc_qr.epc_fields p bic) []) <= 70)%nat /\
  (length (nth 6 (epc_qr.epc_fields p bic) []) <= 34)%nat /\
  (length (nth 8 (epc_qr.epc_fields p bic) []) <= 4)%nat /\
  (length (nth 9 (epc_qr.epc_fields p bic) []) <= 35)%nat /\
  (length (nth 10 (epc_qr.epc_fields p bic) []) <= 70)%nat.
Proof.
  unfold epc_qr.epc_fields.
  destruct (trim_parts_spec (epc_qr.epc_parts p bic)) as (d & E & F & L).
  set (fields := epc_qr.trim_parts (epc_qr.epc_parts p bic)) in *.
  assert (Hlen : (length fields + length d = 11)%nat).
  { rewrite <- length_app, <- E. reflexivity. }
  assert (H8 : (8 <= length fields)%nat).
  { destruct (Nat.lt_ge_cases (length fields) 8) as [Lt|Ge]; [|exact Ge].
    exfalso.
    assert (N7 : nth 7 (epc_qr.epc_parts p bic) [] = []).
    { rewrite E, app_nth2 by lia.
      rewrite Forall_forall in F. apply F. apply nth_In. lia. }
    discriminate N7. }
  split; [exists d; auto|]. split; [lia|]. split.
  - destruct L as [L|[[x L]|L]]; [discriminate L | | exact L].
    rewrite L in H8. simpl in H8. lia.
  - split.
    + assert (A : firstn 8 (epc_qr.epc_parts p bic) = firstn 8 fields).
      { rewrite E, firstn_app.
        replace (8 - length fields)%nat with 0%nat by lia.
        now rewrite firstn_O, app_nil_r. }
      rewrite <- A. reflexivity.
    + pose proof (fun i => prefix_nth_length fields d i) as P.
      rewrite <- E in P. unfold epc_qr.epc_parts in P.
      repeat split.
      * specialize (P 5%nat). cbn [nth] in P.
        etransitivity; [exact P | apply firstn_length_le].
      * specialize (P 6%nat). cbn [nth] in P.
        etransitivity; [exact P | apply firstn_length_le].
      * specialize (P 8%nat). cbn [nth] in P.
        etransitivity; [exact P | apply firstn_length_le].
      * specialize (P 9%nat). cbn [nth] in P.
        etransitivity; [exact P | apply firstn_length_le].
      * specialize (P 10%nat). cbn [nth] in P.
        etransitivity; [exact P | apply firstn_length_le].
Qed.

(** ** Numbers as text: what is written reads back *)

Lemma int_of_digits_snoc (ds : str) (d : char) :
  int_of_digits (ds ++ [d]) = (10 * int_of_digits ds + digit_value d)%Z.
Proof. unfold int_of_digits. now rewrite fold_left_app. Qed.

Lemma int_of_digits_app (a b : str) :
  int_of_digits (a ++ b) =
  (int_of_digits a * 10 ^ Z.of_nat (length b) + int_of_digits b)%Z.
Proof.
  induction b as [|d b IH] using rev_ind.
  - rewrite app_nil_r. cbn [length]. change (int_of_digits []) with 0%Z.
    change (Z.of_nat 0) with 0%Z. lia.
  - rewrite app_assoc, !int_of_digits_snoc, IH, length_app. cbn [length].
    replace (Z.of_nat (length b + 1)) with (Z.succ (Z.of_nat (length b))) by lia.
    rewrite Z.pow_succ_r by lia. ring.
Qed.

Lemma digit_char (k : Z) :
  (0 <= k <= 9)%Z ->
  is_decimal (48 + Z.to_N k) = true /\ digit_value (48 + Z.to_N k) = k.
Proof.
  intros H. split.
  - apply is_decimal_ascii. lia.
  - rewrite digit_value_ascii by lia. lia.
Qed.

Lemma dec_digits_spec (fuel : nat) :
  forall (n : Z) (acc : str),
    (0 <= n < 10 ^ Z.of_nat (S fuel))%Z ->
    exists ds,
      dec_digits (S fuel) n acc = ds ++ acc /\ ds <> [] /\
      forallb is_decimal ds = true /\ int_of_digits ds = n.
Proof.
  induction fuel as [|k IH]; intros n acc Hn.
  - change (10 ^ Z.of_nat 1)%Z with 10%Z in Hn. cbn [dec_digits].
    assert (E : (n <? 10)%Z = true) by (apply Z.ltb_lt; lia). rewrite E.
    assert (Hm : (0 <= n mod 10 <= 9)%Z) by (rewrite Z.mod_small; lia).
    destruct (digit_char _ Hm) as [D1 D2].
    exists [48 + Z.to_N (n mod 10)].
    split; [reflexivity|]. split; [discriminate|].
    split; [cbn [forallb]; now rewrite D1|].
    unfold int_of_digits. cbn [fold_left]. rewrite D2.
    rewrite Z.mod_small by lia. lia.
  - remember (S k) as k1 eqn:Ek. cbn [dec_digits].
    assert (Hm : (0 <= n mod 10 <= 9)%Z)
      by (pose proof (Z.mod_pos_bound n 10); lia).
    destruct (digit_char _ Hm) as [D1 D2].
    destruct (n <? 10)%Z eqn:E.
    + apply Z.ltb_lt in E. exists [48 + Z.to_N (n mod 10)].
      split; [reflexivity|]. split; [discriminate|].
      split; [cbn [forallb]; now rewrite D1|].
      unfold int_of_digits. cbn [fold_left]. rewrite D2.
      rewrite Z.mod_small by lia. lia.
    + apply Z.ltb_ge in E.
      assert (Hq : (0 <= n / 10 < 10 ^ Z.of_nat k1)%Z).
      { replace (Z.of_nat (S k1)) with (Z.succ (Z.of_nat k1)) in Hn by lia.
        rewrite Z.pow_succ_r in Hn by lia.
        split; [apply Z.div_pos; lia|].
        apply Z.div_lt_upper_bound; lia. }
      subst k1.
      destruct (IH (n / 10)%Z ((48 + Z.to_N (n mod 10)) :: acc) Hq)
        as (ds & E1 & E2 & E3 & E4).
      exists (ds ++ [48 + Z.to_N (n mod 10)]).
      split; [rewrite E1, <- app_assoc; reflexivity|].
      split; [destruct ds; discriminate|].
      split; [rewrite forallb_app, E3; cbn [forallb]; now rewrite D1|].
      rewrite int_of_digits_snoc, E4, D2.
      pose proof (Z.div_mod n 10). lia.
Qed.

(** [str(n)] gives digits that read back as [n]. *)
Lemma str_of_Z_spec (n : Z) :
  (0 <= n)%Z ->
  str_of_Z n <> [] /\ forallb is_decimal (str_of_Z n) = true /\
  int_of_digits (str_of_Z n) = n.
Proof.
  intros Hn. unfold str_of_Z.
  assert (B : (0 <= n < 10 ^ Z.of_nat (S (Z.to_nat (Z.log2 n))))%Z).
  { split; [exact Hn|].
    pose proof (Z.log2_nonneg n) as L0.
    replace (Z.of_nat (S (Z.to_nat (Z.log2 n)))) with (Z.succ (Z.log2 n)) by lia.
    destruct (Z.eq_dec n 0) as [->|Hz].
    - vm_compute. reflexivity.
    - pose proof (Z.log2_spec n ltac:(lia)) as [_ U].
      eapply Z.lt_le_trans; [exact U|].
      apply Z.pow_le_mono_l. lia. }
  destruct (dec_digits_spec _ n [] B) as (ds & E1 & E2 & E3 & E4).
  rewrite app_nil_r in E1. rewrite E1. auto.
Qed.

Lemma dec_digits_chars (fuel : nat) :
  forall (n : Z) (acc : str),
    forallb is_decimal acc = true ->
    forallb is_decimal (dec_digits fuel n acc) = true.
Proof.
  induction fuel as [|k IH]; intros n acc Ha; [exact Ha|].
  cbn [dec_digits].
  assert (Hm : (0 <= n mod 10 <= 9)%Z) by (pose proof (Z.mod_pos_bound n 10); lia).
  destruct (digit_char _ Hm) as [D1 _].
  assert (Ha' : forallb is_decimal ((48 + Z.to_N (n mod 10)) :: acc) = true)
    by (cbn [forallb]; now rewrite D1, Ha).
  destruct (n <? 10)%Z; [exact Ha' | now apply IH].
Qed.

(** The characters of a formatted amount: digits, the period, the minus
    sign. *)
Lemma format_2f_chars (x : Q) :
  forallb (fun c => is_decimal c || (c =? 46) || (c =? 45)) (format_2f x) = true.
Proof.
  unfold format_2f.
  set (cents := round_half_even _ _).
  assert (D : forall l, forallb is_decimal l = true ->
                forallb (fun c => is_decimal c || (c =? 46) || (c =? 45)) l = true).
  { intros l Hl. rewrite forallb_forall in *. intros c Hc.
    now rewrite (Hl c Hc). }
  assert (B : forallb (fun c => is_decimal c || (c =? 46) || (c =? 45))
                (str_of_Z (cents / 100) ++ [46] ++
                 [48 + Z.to_N (cents mod 100 / 10); 48 + Z.to_N (cents mod 10)])
              = true).
  { rewrite !forallb_app. rewrite D by (apply dec_digits_chars; reflexivity).
    assert (H1 : (0 <= cents mod 100 / 10 <= 9)%Z).
    { pose proof (Z.mod_pos_bound cents 100 ltac:(lia)).
      split; [apply Z.div_pos; lia|].
      assert (cents mod 100 / 10 < 10)%Z by (apply Z.div_lt_upper_bound; lia).
      lia. }
    assert (H2 : (0 <= cents mod 10 <= 9)%Z)
      by (pose proof (Z.mod_pos_bound cents 10); lia).
    destruct (digit_char _ H1) as [D1 _]. destruct (digit_char _ H2) as [D2 _].
    cbn [forallb]. now rewrite D1, D2. }
  destruct (Qnum x <? 0)%Z; [|exact B].
  cbn [forallb]. rewrite B. reflexivity.
Qed.

(** An amount given in hundredths is written in full. *)
Lemma format_2f_hundredths (n : Z) :
  (0 <= n)%Z ->
  format_2f (n # 100) =
  str_of_Z (n / 100) ++
  [(46 : char); 48 + Z.to_N (n mod 100 / 10); 48 + Z.to_N (n mod 10)].
Proof.
  intros Hn. unfold format_2f. cbn [Qnum Qden].
  assert (R : round_half_even (100 * Z.abs n) 100 = n).
  { unfold round_half_even. rewrite Z.abs_eq by lia.
    replace (100 * n)%Z with (n * 100)%Z by lia.
    rewrite Z.div_mul by lia. rewrite Z.mod_mul by lia. reflexivity. }
  rewrite R. destruct (n <? 0)%Z eqn:E; [apply Z.ltb_lt in E; lia|].
  reflexivity.
Qed.

(** A formatted amount reads back as the amount. *)
Lemma float_of_formatted (n : Z) :
  (0 <= n)%Z -> float_of_str (format_2f (n # 100)) = Some (n # 100).
Proof.
  intros Hn. rewrite format_2f_hundredths by exact Hn.
  assert (Hq : (0 <= n / 100)%Z) by (apply Z.div_pos; lia).
  destruct (str_of_Z_spec (n / 100) Hq) as (S1 & S2 & S3).
  pose proof (Z.mod_pos_bound n 100 ltac:(lia)) as Hm.
  assert (H1 : (0 <= n mod 100 / 10 <= 9)%Z).
  { split; [apply Z.div_pos; lia|].
    assert (n mod 100 / 10 < 10)%Z by (apply Z.div_lt_upper_bound; lia). lia. }
  assert (H2 : (0 <= n mod 10 <= 9)%Z) by (pose proof (Z.mod_pos_bound n 10); lia).
  destruct (digit_char _ H1) as [D1 V1]. destruct (digit_char _ H2) as [D2 V2].
  set (ds := str_of_Z (n / 100)) in *.
  set (d1 := 48 + Z.to_N (n mod 100 / 10)) in *.
  set (d2 := 48 + Z.to_N (n mod 10)) in *.
  destruct ds as [|d0 ds'] eqn:Eds; [congruence|].
  pose proof S2 as S2'. cbn [forallb] in S2'. apply andb_true_iff in S2' as [Hd0 _].
  destruct (decimal_facts d0 Hd0) as (Sp0 & _ & _ & M0 & P0).
  unfold float_of_str.
  assert (Est : strip ((d0 :: ds') ++ [(46 : char); d1; d2])
                = (d0 :: ds') ++ [(46 : char); d1; d2]).
  { apply strip_no_space. rewrite forallb_app.
    rewrite (decimal_not_space _ S2). cbn [forallb].
    destruct (decimal_facts d1 D1) as (Sp1 & _).
    destruct (decimal_facts d2 D2) as (Sp2 & _).
    rewrite Sp1, Sp2. reflexivity. }
  rewrite Est. cbn [app]. rewrite M0, P0.
  pose proof (take_while_stop is_decimal (d0 :: ds') [d1; d2] 46 S2 eq_refl) as Et.
  pose proof (drop_while_stop is_decimal (d0 :: ds') [d1; d2] 46 S2 eq_refl) as Ed.
  cbn [app] in Et, Ed. rewrite Et, Ed.
  cbn [forallb]. rewrite D1, D2.
  cbn [andb N.eqb Pos.eqb length Nat.add Nat.eqb negb].
  change (Z.to_pos (10 ^ Z.of_nat 2)) with 100%positive. do 2 f_equal.
  rewrite int_of_digits_app, S3. cbn [length].
  change (10 ^ Z.of_nat 2)%Z with 100%Z.
  unfold int_of_digits. cbn [fold_left]. rewrite V1, V2.
  pose proof (Z.div_mod n 100 ltac:(lia)) as A.
  pose proof (Z.div_mod (n mod 100) 10 ltac:(lia)) as B.
  pose proof (Z.div_mod n 10 ltac:(lia)) as C.
  pose proof (Z.mod_pos_bound (n mod 100) 10 ltac:(lia)) as C'.
  assert (E10 : ((n mod 100) mod 10 = n mod 10)%Z) by lia.
  lia.
Qed.

(** ** More on upper case *)

Ltac parity_hyps :=
  repeat match goal with
    | H : N.odd _ = true |- _ => apply N.odd_spec in H; destruct H as [? H]
    | H : N.even _ = true |- _ => apply N.even_spec in H; destruct H as [? H]
    end.

Ltac split_ifs :=
  repeat match goal with
    | |- context [if ?b then _ else _] =>
        let E := fresh "B" in destruct b eqn:E
    end.

(** Upper-casing brings in no line feed. *)
Lemma upper_char_nl (c : char) : In NL (upper_char c) -> c = NL.
Proof.
  destruct (upper_char_cases c) as [->|Hin].
  - intros [H|[]]. now symmetry.
  - intros H. exfalso.
    pose proof upper_table_no_space as T. rewrite forallb_forall in T.
    specialize (T _ Hin). cbn [snd] in T. rewrite forallb_forall in T.
    specialize (T NL H). discriminate T.
Qed.

Lemma upper_nl (s : str) : In NL (upper s) -> In NL s.
Proof.
  unfold upper. intros H. apply in_flat_map in H as (c & Hc & Hin).
  apply upper_char_nl in Hin. now subst c.
Qed.

Lemma upper_table_idem :
  forallb (fun e => str_eqb (upper (snd e)) (snd e)) upper_table = true.
Proof. vm_compute. reflexivity. Qed.

(** Upper case of upper case is the same text. *)
Lemma upper_char_idem (c : char) : upper (upper_char c) = upper_char c.
Proof.
  destruct (upper_char_cases c) as [E|Hin].
  - rewrite E. unfold upper. cbn [flat_map]. rewrite E. reflexivity.
  - pose proof upper_table_idem as T. rewrite forallb_forall in T.
    specialize (T _ Hin). cbn [snd] in T. now apply str_eqb_eq in T.
Qed.

Lemma upper_idem (s : str) : upper (upper s) = upper s.
Proof.
  induction s as [|c s IH]; [reflexivity|].
  unfold upper in *. cbn [flat_map]. rewrite flat_map_app, IH.
  f_equal. apply upper_char_idem.
Qed.

Lemma filter_all {A} (f : A -> bool) (l : list A) :
  forallb f l = true -> filter f l = l.
Proof.
  induction l as [|a l IH]; [reflexivity|]. simpl. intros H.
  apply andb_true_iff in H as [Ha Hl]. rewrite Ha. now rewrite IH.
Qed.

(** ** The payload and its fields *)

Lemma firstn_In {A} (n : nat) (l : list A) (x : A) : In x (firstn n l) -> In x l.
Proof.
  intros H. rewrite <- (firstn_skipn n l). apply in_or_app. now left.
Qed.

(** The fields are the parts without empty parts at the end, and the first
    eight parts are among them. *)
Lemma epc_fields_prefix (p : UPNPayment) (bic : option str) :
  exists dropped,
    epc_qr.epc_parts p bic = epc_qr.epc_fields p bic ++ dropped /\
    Forall (fun f => f = []) dropped /\
    (8 <= length (epc_qr.epc_fields p bic))%nat.
Proof.
  unfold epc_qr.epc_fields.
  destruct (trim_parts_spec (epc_qr.epc_parts p bic)) as (d & E & F & _).
  exists d. split; [exact E|]. split; [exact F|].
  set (fields := epc_qr.trim_parts (epc_qr.epc_parts p bic)) in *.
  assert (Hlen : (length fields + length d = 11)%nat).
  { rewrite <- length_app, <- E. reflexivity. }
  destruct (Nat.lt_ge_cases (length fields) 8) as [Lt|Ge]; [|exact Ge].
  exfalso.
  assert (N7 : nth 7 (epc_qr.epc_parts p bic) [] = []).
  { rewrite E, app_nth2 by lia.
    rewrite Forall_forall in F. apply F. apply nth_In. lia. }
  discriminate N7.
Qed.

Lemma format_2f_no_nl (x : Q) : ~ In NL (format_2f x).
Proof.
  intros H. pose proof (format_2f_chars x) as C.
  rewrite forallb_forall in C. specialize (C NL H). discriminate C.
Qed.

Lemma epc_parts_no_nl (p : UPNPayment) (bic : option str) :
  ~ In NL (match bic with Some b => b | None => [] end) ->
  ~ In NL (recipient_name p) -> ~ In NL (iban p) ->
  ~ In NL (reference p) -> ~ In NL (purpose p) ->
  forall f, In f (epc_qr.epc_parts p bic) -> ~ In NL f.
Proof.
  intros Hb Hn Hi Hr Hp f Hf. unfold epc_qr.epc_parts in Hf. cbn [In] in Hf.
  destruct Hf as [<-|[<-|[<-|[<-|[<-|[<-|[<-|[<-|[<-|[<-|[<-|[]]]]]]]]]]]].
  - vm_compute. intuition discriminate.
  - vm_compute. intuition discriminate.
  - vm_compute. intuition discriminate.
  - vm_compute. intuition discriminate.
  - intros H. apply strip_In in H. now apply Hb.
  - intros H. apply firstn_In in H. now apply Hn.
  - intros H. apply firstn_In, upper_nl in H. apply filter_In in H as [H _].
    now apply Hi.
  - intros H. apply in_app_or in H as [H|H].
    + vm_compute in H. intuition discriminate.
    + now apply (format_2f_no_nl (amount p)).
  - intros H. apply firstn_In in H. now apply Hp.
  - intros H. apply firstn_In, firstn_In in H. now apply Hr.
  - intros H. apply firstn_In in H. now apply Hp.
Qed.

(** X5. When bic, name, IBAN, reference and purpose hold no line feed,
    splitting the payload at its line feeds gives back the fields it was
    joined from. *)
Theorem epc_payload_splits (p : UPNPayment) (bic : option str) :
  ~ In NL (match bic with Some b => b | None => [] end) ->
  ~ In NL (recipient_name p) -> ~ In NL (iban p) ->
  ~ In NL (reference p) -> ~ In NL (purpose p) ->
  split_on NL (epc_qr.build_epc_payload p bic) = epc_qr.epc_fields p bic.
Proof.
  intros Hb Hn Hi Hr Hp. unfold epc_qr.build_epc_payload.
  destruct (epc_fields_prefix p bic) as (d & E & _ & L).
  apply split_join.
  - intros N. rewrite N in L. simpl in L. lia.
  - intros f Hf. apply (epc_parts_no_nl p bic Hb Hn Hi Hr Hp).
    rewrite E. apply in_or_app. now left.
Qed.

Lemma epc_payload_splits_witness :
  split_on NL (epc_qr.build_epc_payload (scenario_record [] []) None) =
  epc_qr.epc_fields (scenario_record [] []) None.
Proof.
  apply (epc_payload_splits (scenario_record [] []) None);
    vm_compute; intuition discriminate.
Defined.

(** ** From the QR payload to the EPC payload *)

Section QRToEPC.
Import unp_qr_decode.

Lemma record_of_no_nl (s : str) :
  ~ In NL (recipient_name (record_of s)) /\
  ~ In NL (reference (record_of s)) /\
  ~ In NL (purpose (record_of s)).
Proof.
  unfold record_of, build_record. cbn [recipient_name reference purpose].
  rewrite !payload_line_stripped.
  pose proof (payload_line_no_nl s) as NoNL.
  split; [|split].
  - unfold or_str. destruct (line _ 16) eqn:E.
    + vm_compute. intuition discriminate.
    + rewrite <- E. apply NoNL.
  - apply NoNL.
  - unfold or_str. destruct (line _ 12) eqn:E12.
    + destruct (take 4 _) eqn:E11.
      * vm_compute. intuition discriminate.
      * rewrite <- E11. intros Hin. apply firstn_In in Hin.
        now apply (NoNL 11%nat).
    + rewrite <- E12. apply NoNL.
Qed.

Lemma record_of_purpose (s : str) : purpose (record_of s) <> [].
Proof.
  unfold record_of, build_record. cbn [purpose].
  apply or_str_nonempty, or_str_nonempty. discriminate.
Qed.

Lemma no_space_no_blank (u : str) :
  forallb (fun c => negb (is_space c)) u = true ->
  forallb (fun c => negb (c =? 32)) u = true /\ ~ In NL u.
Proof.
  intros H. rewrite forallb_forall in H. split.
  - apply forallb_forall. intros c Hc. specialize (H c Hc).
    destruct (c =? 32) eqn:E; [|reflexivity].
    apply N.eqb_eq in E. subst c. discriminate H.
  - intros Hin. specialize (H NL Hin). discriminate H.
Qed.

(** The IBAN of a parsed record is written to the payload as it is. *)
Lemma record_of_iban_field (s : str) :
  valid_payload s ->
  take 34 (upper (filter (fun c => negb (c =? 32)) (iban (record_of s))))
  = iban (record_of s) /\ ~ In NL (iban (record_of s)).
Proof.
  intros (_ & _ & _ & _ & _ & V6). unfold record_of, build_record. cbn [iban].
  set (u := upper (remove_spaces (line (payload_lines s) 14))) in *.
  assert (Hns : forallb (fun c => negb (is_space c)) u = true)
    by apply upper_no_space, remove_spaces_no_space.
  destruct (no_space_no_blank u Hns) as [Hb Hnl].
  split; [|exact Hnl].
  match goal with
  | |- context [filter ?f u] =>
      replace (filter f u) with u by (symmetry; apply filter_all; exact Hb)
  end.
  unfold u at 1. rewrite upper_idem. fold u.
  unfold take. apply firstn_all2. lia.
Qed.

Lemma trim_parts_keep (parts : list str) :
  last parts [] <> [] -> epc_qr.trim_parts parts = parts.
Proof.
  intros H. unfold epc_qr.trim_parts.
  destruct parts as [|p ps] using rev_ind; [reflexivity|].
  rewrite last_last in H. rewrite rev_app_distr. cbn [rev app].
  destruct p as [|c p]; [now contradiction H|].
  cbn [epc_qr.pop_empty_rev rev]. now rewrite rev_involutive.
Qed.

End QRToEPC.

(** X6. Parsing a QR payload and encoding the record gives a payload of
    exactly eleven lines: the four constants, the BIC, the name cut to 70
    characters, the IBAN unchanged, EUR and the amount, the first 4
    characters of the purpose, the reference cut to 35 and the purpose cut
    to 70. *)
Theorem qr_to_epc_fields (s : str) (r : UPNPayment) (bic : option str) :
  unp_qr_decode.parse_unp_qr_content s = Some r ->
  ~ In NL (match bic with Some b => b | None => [] end) ->
  split_on NL (epc_qr.build_epc_payload r bic) =
  [lit "BCD"; lit "002"; lit "1"; lit "SCT";
   strip (match bic with Some b => b | None => [] end);
   take 70 (recipient_name r); iban r;
   lit "EUR" ++ format_2f (amount r);
   take 4 (purpose r); take 35 (reference r); take 70 (purpose r)].
Proof.
  intros H Hb. apply parse_iff in H as [V ->].
  destruct (record_of_no_nl s) as (N1 & N2 & N3).
  destruct (record_of_iban_field s V) as [Ei Ni].
  pose proof (record_of_purpose s) as Hp.
  assert (Ef : epc_qr.epc_fields (record_of s) bic
               = epc_qr.epc_parts (record_of s) bic).
  { unfold epc_qr.epc_fields. apply trim_parts_keep.
    unfold epc_qr.epc_parts. cbn [last].
    destruct (purpose (record_of s)); [now contradiction Hp | discriminate]. }
  unfold epc_qr.build_epc_payload. rewrite Ef.
  rewrite split_join.
  - unfold epc_qr.epc_parts. rewrite Ei.
    replace (take 35 (take 35 (reference (record_of s))))
      with (take 35 (reference (record_of s)))
      by (unfold take; now rewrite firstn_firstn, Nat.min_id).
    reflexivity.
  - discriminate.
  - apply epc_parts_no_nl; assumption.
Qed.

Lemma qr_to_epc_fields_witness :
  length (split_on NL
            (epc_qr.build_epc_payload
               (mkUPNPayment (lit "JANEZ NOVAK") (lit "DUNAJSKA 1 LJUBLJANA")
                  (lit "SI56110022334455667") (2874 # 100)
                  (lit "SI19 12345-67890") (lit "Prispevek za DO") []) None))
  = 11%nat.
Proof.
  rewrite (qr_to_epc_fields scenario_content _ None scenario_parses).
  - reflexivity.
  - intros [].
Defined.

(** X7. The amount of a parsed record is written after EUR in the eighth
    field of the payload, and what is written reads back as that amount. *)
Theorem epc_amount_reads_back (s : str) (r : UPNPayment) (bic : option str) :
  unp_qr_decode.parse_unp_qr_content s = Some r ->
  nth 7 (epc_qr.epc_fields r bic) [] = lit "EUR" ++ format_2f (amount r) /\
  float_of_str (format_2f (amount r)) = Some (amount r).
Proof.
  intros H. split.
  - destruct (epc_fields_prefix r bic) as (d & E & _ & L).
    rewrite <- (app_nth1 _ d) by lia. rewrite <- E. reflexivity.
  - apply parse_iff in H as [_ ->]. unfold record_of, unp_qr_decode.build_record.
    cbn [amount]. apply float_of_formatted, int_of_digits_nonneg.
Qed.

Lemma epc_amount_reads_back_witness :
  float_of_str (format_2f (2874 # 100)) = Some (2874 # 100).
Proof.
  apply (epc_amount_reads_back scenario_content _ None scenario_parses).
Defined.

(** ** More on deduplication *)

Section DedupMore.
Import unp_qr_decode.

(** No record of the list has the key of a record before it. *)
Fixpoint distinct_keys (l : list UPNPayment) : Prop :=
  match l with
  | [] => True
  | a :: t => Forall (fun b => key_eqb a b = false) t /\ distinct_keys t
  end.

Lemma parse_all_spec (ss : list str) :
  parse_all_unp_qr_contents ss = first_of_each_key [] (survivors ss).
Proof.
  unfold parse_all_unp_qr_contents.
  rewrite (parse_all_loop_spec ss [] [] []) by (intros p; reflexivity).
  reflexivity.
Qed.

Lemma first_of_each_key_fresh (l : list UPNPayment) :
  forall earlier x,
    In x (first_of_each_key earlier l) ->
    In x l /\ existsb (key_eqb x) earlier = false.
Proof.
  induction l as [|p t IH]; intros earlier x Hx; [destruct Hx|].
  cbn [first_of_each_key] in Hx.
  destruct (existsb (key_eqb p) earlier) eqn:E.
  - apply IH in Hx as [Hin Hf]. split; [now right|].
    rewrite existsb_app in Hf. now apply orb_false_iff in Hf as [Hf _].
  - destruct Hx as [<-|Hx]; [split; [now left | exact E]|].
    apply IH in Hx as [Hin Hf]. split; [now right|].
    rewrite existsb_app in Hf. now apply orb_false_iff in Hf as [Hf _].
Qed.


Lemma first_of_each_key_app (l1 l2 : list UPNPayment) :
  forall earlier,
    first_of_each_key earlier (l1 ++ l2) =
    first_of_each_key earlier l1 ++ first_of_each_key (earlier ++ l1) l2.
Proof.
  induction l1 as [|p t IH]; intros earlier.
  - cbn [app first_of_each_key]. now rewrite app_nil_r.
  - cbn [app first_of_each_key]. rewrite IH, <- app_assoc. cbn [app].
    now destruct (existsb (key_eqb p) earlier).
Qed.

Lemma first_of_each_key_covered (l : list UPNPayment) :
  forall earlier,
    (forall x, In x l -> existsb (key_eqb x) earlier = true) ->
    first_of_each_key earlier l = [].
Proof.
  induction l as [|p t IH]; intros earlier H; [reflexivity|].
  cbn [first_of_each_key]. rewrite (H p) by now left.
  apply IH. intros x Hx. rewrite existsb_app, (H x) by now right. reflexivity.
Qed.

(** Every key met in [earlier] or [l] is met in [earlier] or in the records
    kept of [l]. *)
Lemma first_of_each_key_complete (l : list UPNPayment) :
  forall earlier x,
    In x l ->
    existsb (key_eqb x) earlier = true \/
    existsb (key_eqb x) (first_of_each_key earlier l) = true.
Proof.
  induction l as [|p t IH]; intros earlier x Hx; [destruct Hx|].
  cbn [first_of_each_key]. destruct Hx as [<-|Hx].
  - destruct (existsb (key_eqb p) earlier) eqn:E; [now left|].
    right. cbn [existsb]. now rewrite key_eqb_refl.
  - destruct (IH (earlier ++ [p]) x Hx) as [H|H].
    + rewrite existsb_app in H. apply orb_true_iff in H as [H|H]; [now left|].
      cbn [existsb] in H. rewrite orb_false_r in H.
      destruct (existsb (key_eqb p) earlier) eqn:E.
      * left. apply existsb_exists in E as (y & Hy & Hpy).
        apply existsb_exists. exists y. split; [exact Hy|].
        now apply key_eqb_trans with p.
      * right. cbn [existsb]. now rewrite H.
    + destruct (existsb (key_eqb p) earlier); [now right|].
      right. cbn [existsb]. now rewrite H, orb_true_r.
Qed.

Lemma survivors_In (ss : list str) (p : UPNPayment) :
  In p (survivors ss) <->
  exists s, In s ss /\ parse_unp_qr_content s = Some p.
Proof.
  unfold survivors. rewrite in_flat_map. split.
  - intros (s & Hs & Hp). exists s. split; [exact Hs|].
    destruct (parse_unp_qr_content s) as [q|]; [|destruct Hp].
    destruct Hp as [<-|[]]. reflexivity.
  - intros (s & Hs & Hp). exists s. split; [exact Hs|]. rewrite Hp. now left.
Qed.

Lemma first_of_each_key_length (l : list UPNPayment) :
  forall earlier, (length (first_of_each_key earlier l) <= length l)%nat.
Proof.
  induction l as [|p t IH]; intros earlier; [simpl; lia|].
  cbn [first_of_each_key]. specialize (IH (earlier ++ [p])).
  destruct (existsb _ earlier); simpl; lia.
Qed.

Lemma survivors_length (ss : list str) :
  (length (survivors ss) <= length ss)%nat.
Proof.
  induction ss as [|s ss IH]; [simpl; lia|].
  unfold survivors in *. cbn [flat_map]. rewrite length_app.
  destruct (parse_unp_qr_content s); simpl; lia.
Qed.

End DedupMore.


(** X9. Every record of [parse_all_unp_qr_contents] is the record of one of
    the strings, every string that parses has a record with its IBAN, its
    reference and its amount among the records, and there are no more
    records than strings. *)
Theorem parse_all_sound_complete (qr_strings : list str) :
  (forall p, In p (unp_qr_decode.parse_all_unp_qr_contents qr_strings) ->
             exists s, In s qr_strings /\
                       unp_qr_decode.parse_unp_qr_content s = Some p) /\
  (forall s p, In s qr_strings ->
               unp_qr_decode.parse_unp_qr_content s = Some p ->
               exists q, In q (unp_qr_decode.parse_all_unp_qr_contents qr_strings)
                         /\ iban p = iban q /\ reference p = reference q
                         /\ amount p == amount q) /\
  (length (unp_qr_decode.parse_all_unp_qr_contents qr_strings)
   <= length qr_strings)%nat.
Proof.
  rewrite parse_all_spec. split; [|split].
  - intros p Hp. apply first_of_each_key_fresh in Hp as [Hp _].
    now apply survivors_In.
  - intros s p Hs Hp.
    assert (Hin : In p (survivors qr_strings))
      by (apply survivors_In; now exists s).
    destruct (first_of_each_key_complete _ [] p Hin) as [H|H];
      [discriminate H|].
    apply existsb_exists in H as (q & Hq & Hpq).
    apply key_eqb_spec in Hpq. now exists q.
  - etransitivity; [apply first_of_each_key_length | apply survivors_length].
Qed.

Lemma parse_all_sound_complete_witness :
  exists q,
    In q (unp_qr_decode.parse_all_unp_qr_contents
            [scenario_content; scenario_other_name]) /\
    lit "SI56110022334455667" = iban q /\
    lit "SI19 12345-67890" = reference q /\
    (2874 # 100) == amount q.
Proof.
  apply (proj1 (proj2 (parse_all_sound_complete
                         [scenario_content; scenario_other_name]))
           scenario_content
           (mkUPNPayment (lit "JANEZ NOVAK") (lit "DUNAJSKA 1 LJUBLJANA")
              (lit "SI56110022334455667") (2874 # 100)
              (lit "SI19 12345-67890") (lit "Prispevek za DO") [])).
  - now left.
  - exact scenario_parses.
Defined.

(** X10. Strings added at the end leave the records of the strings before
    them as they are: the records of [a ++ b] are those of [a], then the
    first record of each key of [b] that no string of [a] has. *)
Theorem parse_all_app (a b : list str) :
  unp_qr_decode.parse_all_unp_qr_contents (a ++ b) =
  unp_qr_decode.parse_all_unp_qr_contents a ++
  first_of_each_key (survivors a) (survivors b).
Proof.
  rewrite !parse_all_spec. unfold survivors at 1. rewrite flat_map_app.
  fold (survivors a). fold (survivors b).
  now rewrite first_of_each_key_app.
Qed.

(** X11. A string that occurs again adds nothing: when every string of [b]
    is among those of [a], the records of [a ++ b] are the records of
    [a]. *)
Theorem parse_all_repeats (a b : list str) :
  (forall s, In s b -> In s a) ->
  unp_qr_decode.parse_all_unp_qr_contents (a ++ b) =
  unp_qr_decode.parse_all_unp_qr_contents a.
Proof.
  intros H. rewrite !parse_all_spec. unfold survivors at 1.
  rewrite flat_map_app. fold (survivors a). fold (survivors b).
  rewrite first_of_each_key_app.
  rewrite (first_of_each_key_covered (survivors b)).
  - apply app_nil_r.
  - intros x Hx. apply survivors_In in Hx as (s & Hs & Hp).
    apply existsb_exists. exists x. split; [|apply key_eqb_refl].
    apply survivors_In. exists s. split; [now apply H | exact Hp].
Qed.

Lemma parse_all_repeats_witness :
  unp_qr_decode.parse_all_unp_qr_contents
    ([scenario_content; lit "12345"] ++ [scenario_content; scenario_content]) =
  unp_qr_decode.parse_all_unp_qr_contents [scenario_content; lit "12345"].
Proof.
  apply (parse_all_repeats [scenario_content; lit "12345"]
           [scenario_content; scenario_content]).
  intros s [<-|[<-|[]]]; now left.
Defined.

(** ** More on the text-layout parsers *)

Section TextParsersMore.
Import upn_parser.

(** A reference as the parsers keep it: [SI19], then digits and dashes. *)
Definition ref_ok (r : str) : Prop :=
  exists dd,
    r = lit "SI19" ++ dd /\ dd <> [] /\
    forallb (fun c => is_decimal c || (c =? 45)) dd = true.

Lemma remove_spaces_app (a b : str) :
  remove_spaces (a ++ b) = remove_spaces a ++ remove_spaces b.
Proof. apply filter_app. Qed.

Lemma remove_spaces_all (w : str) :
  forallb is_space w = true -> remove_spaces w = [].
Proof.
  induction w as [|c w IH]; [reflexivity|]. simpl. intros H.
  apply andb_true_iff in H as [Hc Hw]. rewrite Hc. simpl. now apply IH.
Qed.

Lemma remove_spaces_idem (s : str) : remove_spaces (remove_spaces s) = remove_spaces s.
Proof. apply filter_all, remove_spaces_no_space. Qed.

Lemma remove_spaces_blanks (s : str) :
  remove_spaces (filter (fun c => negb (c =? 32)) s) = remove_spaces s.
Proof.
  induction s as [|c s IH]; [reflexivity|]. cbn [filter].
  destruct (c =? 32) eqn:E; cbn [negb].
  - apply N.eqb_eq in E. subst c. exact IH.
  - unfold remove_spaces in *. cbn [filter]. now rewrite IH.
Qed.

Lemma digits_dash_no_space (dd : str) :
  forallb (fun c => is_decimal c || (c =? 45)) dd = true ->
  remove_spaces dd = dd.
Proof.
  intros H. apply filter_all. rewrite forallb_forall in *. intros c Hc.
  specialize (H c Hc). apply negb_true_iff.
  apply orb_true_iff in H as [H|H].
  - now destruct (decimal_facts c H).
  - apply N.eqb_eq in H. subst c. reflexivity.
Qed.

(** The reference taken from a line that one of the [SI19] patterns accepts;
    [W] is the whitespace part of the pattern. *)
Lemma si19_reference (W : regex) (l : str) :
  (forall w, matches W w -> forallb is_space w = true) ->
  re_match (Rseq (Rlit (lit "SI19")) (Rseq W (Rplus digits_or_dash))) l = true ->
  ref_ok (remove_spaces l).
Proof.
  intros HW H.
  assert (Hshape : exists ws dd tail,
             l = lit "SI19" ++ ws ++ dd ++ tail /\
             forallb is_space ws = true /\ forallb is_space tail = true /\
             dd <> [] /\
             forallb (fun c => is_decimal c || (c =? 45)) dd = true).
  { assert (M : forall t,
               matches (Rseq (Rlit (lit "SI19")) (Rseq W (Rplus digits_or_dash))) t ->
               exists ws dd,
                 t = lit "SI19" ++ ws ++ dd /\ forallb is_space ws = true /\
                 dd <> [] /\
                 forallb (fun c => is_decimal c || (c =? 45)) dd = true).
    { intros t Ht.
      inversion Ht as [| |? ? p1 rest Hp1 Hrest| | | |]; subst.
      apply (matches_lit (lit "SI19")) in Hp1. subst p1.
      inversion Hrest as [| |? ? ws dd Hws Hdd| | | |]; subst.
      apply HW in Hws. apply matches_plus_class in Hdd as [Hdd Hne].
      now exists ws, dd. }
    unfold re_match in H. apply orb_true_iff in H as [H|H].
    - apply accepts_sound, M in H as (ws & dd & E & H1 & H2 & H3).
      exists ws, dd, []. rewrite app_nil_r. auto.
    - destruct (rev l) as [|c t] eqn:E; [discriminate|].
      apply andb_true_iff in H as [Hc H]. apply N.eqb_eq in Hc. subst c.
      apply accepts_sound, M in H as (ws & dd & E' & H1 & H2 & H3).
      exists ws, dd, [NL]. split; [|auto].
      rewrite <- (rev_involutive l), E. cbn [rev]. rewrite E'.
      now rewrite <- !app_assoc. }
  destruct Hshape as (ws & dd & tail & E & H1 & H2 & H3 & H4).
  exists dd. split; [|auto].
  rewrite E, !remove_spaces_app.
  rewrite (remove_spaces_all ws H1), (remove_spaces_all tail H2).
  rewrite (digits_dash_no_space dd H4), app_nil_r. reflexivity.
Qed.

Lemma plus_space (w : str) : matches (Rplus cls_s) w -> forallb is_space w = true.
Proof. intros H. now apply matches_plus_class in H as [H _]. Qed.

Lemma star_space (w : str) : matches (Rstar cls_s) w -> forallb is_space w = true.
Proof. apply matches_star_class. Qed.

Lemma si19_v1_reference (l : str) :
  re_match si19_re_v1 l = true -> ref_ok (remove_spaces l).
Proof. apply si19_reference, plus_space. Qed.

Lemma si19_re_reference (l : str) :
  re_match si19_re l = true -> ref_ok (remove_spaces l).
Proof. apply si19_reference, star_space. Qed.

Lemma ref_ok_nonempty (r : str) : ref_ok r -> r <> [].
Proof. intros (dd & -> & _). discriminate. Qed.

End TextParsersMore.

Section TextShape.
Import upn_parser.

(** The reference of a block scan is empty or in shape. *)
Definition ref_inv (b : block) : Prop :=
  b_ref_si19 b = [] \/ ref_ok (b_ref_si19 b).

Lemma scan_block_ref (rest : list str) :
  forall b, ref_inv b -> ref_inv (scan_block rest b).
Proof.
  induction rest as [|cur after IH]; intros b Hb; [exact Hb|].
  cbn [scan_block].
  assert (S1 : forall l,
             re_match si19_re_v1 (filter (fun c => negb (c =? 32)) l) = true ->
             ref_inv (set_ref b (remove_spaces l))).
  { intros l Hl. right. cbn [set_ref b_ref_si19].
    rewrite <- remove_spaces_blanks. now apply si19_v1_reference. }
  assert (S2 : forall l,
             re_match si19_re_v1 (remove_spaces l) = true ->
             ref_inv (set_ref b (remove_spaces l))).
  { intros l Hl. right. cbn [set_ref b_ref_si19].
    rewrite <- remove_spaces_idem. now apply si19_v1_reference. }
  destruct (is_iban_line_v1 cur).
  - set (b1 := match after with
               | l1 :: _ =>
                   if re_match si19_re_v1 (filter (fun c => negb (c =? 32)) l1)
                   then set_ref b (remove_spaces l1) else b
               | [] => b
               end).
    assert (H1 : ref_inv b1).
    { unfold b1. destruct after as [|l1 ?]; [exact Hb|].
      destruct (re_match si19_re_v1 _) eqn:E; [now apply S1 | exact Hb]. }
    set (b2 := match after with
               | _ :: l2 :: _ =>
                   if re_match amount_re l2
                   then set_amount b1 (_parse_amount l2) else b1
               | _ => b1
               end).
    assert (H2 : ref_inv b2).
    { unfold b2. destruct after as [|? [|l2 ?]]; try exact H1.
      destruct (re_match amount_re l2); exact H1. }
    destruct (b_amount_val b2); [|now apply IH].
    destruct (nonempty (b_ref_si19 b2)); [exact H2 | now apply IH].
  - destruct (re_match si19_re_v1 (remove_spaces cur)) eqn:E1;
      [apply IH; now apply S2|].
    destruct (re_match amount_re cur); [apply IH; exact Hb|].
    destruct (re_match rf_re cur); [apply IH; exact Hb|].
    apply IH.
    repeat match goal with
      | |- context [if ?c then _ else _] => destruct c
      end; exact Hb.
Qed.

End TextShape.

Section TextShape2.
Import upn_parser.

(** What the parsers promise of the texts of a record. *)
Definition shape_ok (p : UPNPayment) : Prop :=
  ref_ok (reference p) /\ recipient_name p <> [] /\ purpose p <> [].

Lemma nonempty_true (s : str) : nonempty s = true -> s <> [].
Proof.
  unfold nonempty. intros H E. subst s. discriminate H.
Qed.

Lemma block_payment_shape (line : str) (after : list str) (p : UPNPayment) :
  block_payment line after = Some p -> shape_ok p.
Proof.
  unfold block_payment.
  destruct (negb _ || negb _); [discriminate|].
  destruct (negb (startswith _ _) || negb (Nat.eqb _ 19)); [discriminate|].
  pose proof (scan_block_ref after block0 (or_introl eq_refl)) as Hr.
  destruct (b_amount_val _) as [a|]; [|discriminate].
  destruct (positive_amount a && _ && _) eqn:G; [|discriminate].
  intros H. injection H as <-.
  apply andb_true_iff in G as [G _]. apply andb_true_iff in G as [_ G].
  apply nonempty_true in G.
  unfold shape_ok. cbn [reference recipient_name purpose].
  split; [|split].
  - destruct Hr as [Hr|Hr]; [contradiction | exact Hr].
  - apply or_str_nonempty. discriminate.
  - apply or_str_nonempty. discriminate.
Qed.

Lemma extract_loop_shape (lines : list str) :
  Forall shape_ok (extract_loop lines).
Proof.
  induction lines as [|line after IH]; simpl; [constructor|].
  destruct (block_payment line after) as [p|] eqn:E; [|exact IH].
  constructor; [now apply block_payment_shape in E | exact IH].
Qed.

Lemma add_unseen_shape (a : acc) (k : key) (p : UPNPayment) :
  Forall shape_ok (snd a) -> shape_ok p ->
  Forall shape_ok (snd (add_unseen a k p)).
Proof.
  destruct a as [seen payments]. simpl. intros Ha Hp.
  destruct (existsb _ seen); simpl; [exact Ha|].
  apply Forall_app. split; [exact Ha | now constructor].
Qed.

Lemma step_v2_shape (above : list str) (line : str) (after : list str) (a : acc) :
  Forall shape_ok (snd a) ->
  Forall shape_ok (snd (step_v2 above line after a)).
Proof.
  intros Ha. unfold step_v2.
  destruct (negb (re_match si19_re _)) eqn:G; [exact Ha|].
  apply negb_false_iff, si19_re_reference in G.
  rewrite remove_spaces_idem in G.
  destruct after as [|l1 rest]; [exact Ha|].
  destruct (negb (re_match amount_re l1)); [exact Ha|].
  destruct (_parse_amount l1) as [amount_val|]; [|exact Ha].
  destruct (Qle_bool amount_val 0); [exact Ha|].
  destruct (negb (nonempty _)); [exact Ha|].
  destruct (scan_names_v2 _ _ _ _ _) as [[name_lines purp] payer].
  apply add_unseen_shape; [exact Ha|].
  unfold shape_ok. cbn [reference recipient_name purpose].
  split; [exact G|]. split; apply or_str_nonempty; discriminate.
Qed.

Lemma loop_v2_shape (lines : list str) :
  forall above a,
    Forall shape_ok (snd a) -> Forall shape_ok (snd (loop_v2 above lines a)).
Proof.
  induction lines as [|line after IH]; simpl; intros above a Ha; [exact Ha|].
  apply IH. now apply step_v2_shape.
Qed.

Lemma find_iban_ref_reference (window : list str) :
  forall ib,
    snd (find_iban_ref window ib) = [] \/ ref_ok (snd (find_iban_ref window ib)).
Proof.
  induction window as [|cur more IH]; simpl; intros ib; [now left|].
  destruct (re_match si19_re (remove_spaces cur)) eqn:E; [|apply IH].
  right. cbn [snd]. apply si19_re_reference in E.
  now rewrite remove_spaces_idem in E.
Qed.

Lemma collapse_nonempty (s : str) : s <> [] -> collapse_spaces s <> [].
Proof.
  destruct s as [|c s]; [congruence|]. intros _.
  unfold collapse_spaces. cbn [collapse_ws].
  destruct (is_space c); discriminate.
Qed.

Lemma scan_names_fb_names (window : list str) :
  forall names,
    Forall (fun n => n <> []) names ->
    Forall (fun n => n <> []) (fst (scan_names_fb window names)).
Proof.
  induction window as [|ln more IH]; simpl; intros names H; [exact H|].
  destruct (contains _ ln); [exact H|].
  destruct (re_match iban_re _ || re_match si19_re _); [now apply IH|].
  destruct (nonempty ln && _ && _ && _) eqn:G; [|now apply IH].
  apply IH. apply Forall_app. split; [exact H|]. constructor; [|constructor].
  apply collapse_nonempty.
  apply andb_true_iff in G as [G _]. apply andb_true_iff in G as [G _].
  apply andb_true_iff in G as [G _]. now apply nonempty_true.
Qed.

Lemma step_fb_shape (line : str) (after : list str) (a : acc) :
  Forall shape_ok (snd a) ->
  Forall shape_ok (snd (step_fb line after a)).
Proof.
  intros Ha. unfold step_fb.
  destruct (negb (re_match amount_re line)); [exact Ha|].
  destruct (_parse_amount line) as [amount_val|]; [|exact Ha].
  destruct (Qle_bool amount_val 0); [exact Ha|].
  match goal with
  | |- context [find_iban_ref ?w []] =>
      pose proof (find_iban_ref_reference w []) as Hw;
      destruct (find_iban_ref w []) as [ib ref_si19]
  end.
  cbn [snd] in Hw.
  destruct (negb (nonempty ib) || negb (nonempty ref_si19)) eqn:G; [exact Ha|].
  apply orb_false_iff in G as [_ G]. apply negb_false_iff, nonempty_true in G.
  match goal with
  | |- context [scan_names_fb ?w ?e] =>
      generalize (scan_names_fb_names w e (Forall_nil _));
      destruct (scan_names_fb w e) as [name_lines purp]
  end.
  cbn [fst]. intros Hn.
  apply add_unseen_shape; [exact Ha|].
  unfold shape_ok. cbn [reference recipient_name purpose].
  split; [destruct Hw as [Hw|Hw]; [contradiction | exact Hw]|].
  split; [|apply or_str_nonempty; discriminate].
  destruct name_lines as [|n ?]; [discriminate|].
  exact (Forall_inv Hn).
Qed.

Lemma loop_fb_shape (lines : list str) :
  forall a,
    Forall shape_ok (snd a) -> Forall shape_ok (snd (loop_fb lines a)).
Proof.
  induction lines as [|line after IH]; simpl; intros a Ha; [exact Ha|].
  apply IH. now apply step_fb_shape.
Qed.

End TextShape2.

(** The record the fallback parser reads off [layout_fb_text]. *)
Definition layout_fb_record : UPNPayment :=
  mkUPNPayment (lit "JANEZ NOVAK") (lit "DUNAJSKA 1")
    (lit "SI56110022334455667") (2874 # 100) (lit "SI1912345-67890")
    (lit "Prispevek za DO") [].

(** X12. Every record of the three text-layout parsers has a reference that
    is [SI19] followed by one or more digits and dashes (no whitespace), a
    recipient name that is not empty and a purpose that is not empty. *)
Theorem text_parsers_shape (text : str) (p : UPNPayment) :
  In p (upn_parser.extract_upn_payments text)
  \/ In p (upn_parser.extract_upn_payments_v2 text)
  \/ In p (upn_parser.extract_upn_payments_from_text_fallback text) ->
  (exists dd,
      reference p = lit "SI19" ++ dd /\ dd <> [] /\
      forallb (fun c => is_decimal c || (c =? 45)) dd = true) /\
  recipient_name p <> [] /\ purpose p <> [].
Proof.
  intros H.
  assert (Hok : shape_ok p).
  { destruct H as [H|[H|H]]; revert p H; apply Forall_forall.
    - apply extract_loop_shape.
    - apply loop_v2_shape. constructor.
    - apply loop_fb_shape. constructor. }
  exact Hok.
Qed.

Lemma text_parsers_shape_witness :
  In layout_fb_record
    (upn_parser.extract_upn_payments_from_text_fallback layout_fb_text) /\
  (exists dd,
      reference layout_fb_record = lit "SI19" ++ dd /\ dd <> [] /\
      forallb (fun c => is_decimal c || (c =? 45)) dd = true) /\
  recipient_name layout_fb_record <> [] /\ purpose layout_fb_record <> [].
Proof.
  assert (H : In layout_fb_record
                (upn_parser.extract_upn_payments_from_text_fallback
                   layout_fb_text)).
  { vm_compute. left. reflexivity. }
  split; [exact H|].
  apply (text_parsers_shape layout_fb_text layout_fb_record).
  right; right. exact H.
Defined.

(** ** More on text normalisation *)

(** A Unicode scalar value: a code point that is not a surrogate. *)
Definition scalar (c : char) : Prop :=
  c < 55296 \/ (57343 < c /\ c < 1114112).

(** [s.encode("utf-8")] on one scalar value, as byte values. *)
Definition utf8_encode_char (c : char) : list N :=
  if c <? 128 then [c]
  else if c <? 2048 then [192 + c / 64; 128 + c mod 64]
  else if c <? 65536 then
    [224 + c / 64 / 64; 128 + (c / 64) mod 64; 128 + c mod 64]
  else
    [240 + c / 64 / 64 / 64; 128 + (c / 64 / 64) mod 64;
     128 + (c / 64) mod 64; 128 + c mod 64].

Definition utf8_encode_N (s : str) : list N := flat_map utf8_encode_char s.

Section NormalizeMore.
Import pdf_qr_extract.

Lemma iso8859_2_char_bound (x : Byte.byte) :
  iso8859_2_char (Byte.to_N x) <= 733.
Proof.
  apply N.leb_le. destruct x; reflexivity.
Qed.

Lemma scalar_encodable (s : str) :
  Forall scalar s -> utf8_encodable s = true.
Proof.
  intros H. unfold utf8_encodable. apply forallb_forall. intros c Hc.
  rewrite Forall_forall in H. specialize (H c Hc).
  destruct (in_range 55296 57343 c) eqn:E; [|reflexivity].
  apply in_range_spec in E. unfold scalar in H. lia.
Qed.

Lemma encodable_scalar (s : str) :
  utf8_encodable s = true -> forall c, In c s -> c < 55296 \/ 57343 < c.
Proof.
  unfold utf8_encodable. rewrite forallb_forall. intros H c Hc.
  specialize (H c Hc). apply negb_true_iff in H.
  destruct (N.lt_ge_cases c 55296) as [|L1]; [now left|].
  destruct (N.lt_ge_cases 57343 c) as [|L2]; [now right|].
  assert (in_range 55296 57343 c = true) by (apply in_range_spec; lia).
  congruence.
Qed.

Lemma Forall_option_cons {A} (P : A -> Prop) (o : option (list A)) x s :
  option_map (cons x) o = Some s ->
  P x -> (forall t, o = Some t -> Forall P t) -> Forall P s.
Proof.
  destruct o as [t|]; [|discriminate]. simpl. intros [= <-] Hx Ht.
  constructor; [exact Hx | now apply Ht].
Qed.

(** The strict decoder yields scalar values only. *)
Lemma utf8_decode_scalar_fuel (n : nat) :
  forall b s, (length b <= n)%nat -> utf8_decode_N b = Some s ->
              Forall scalar s.
Proof.
  induction n as [|n IH]; intros b s Hn.
  - destruct b; [|simpl in Hn; lia]. simpl. intros [= <-]. constructor.
  - destruct b as [|b0 t]; [simpl; intros [= <-]; constructor|].
    cbn [utf8_decode_N]. simpl in Hn.
    destruct (b0 <? 128) eqn:E0.
    { intros H. apply N.ltb_lt in E0.
      apply (Forall_option_cons _ _ _ _ H); [left; lia|].
      intros u Hu. apply (IH t); [lia | exact Hu]. }
    destruct (in_range 194 223 b0) eqn:E1.
    { destruct t as [|b1 t1]; [discriminate|].
      destruct (is_cont b1) eqn:C1; [|discriminate].
      intros H. unfold is_cont, cont_bits in *.
      apply in_range_spec in E1, C1.
      apply (Forall_option_cons _ _ _ _ H); [left; lia|].
      intros u Hu. apply (IH t1); [simpl in Hn; lia | exact Hu]. }
    destruct (in_range 224 239 b0) eqn:E2.
    { destruct t as [|b1 [|b2 t2]]; try discriminate.
      destruct (in_range _ _ b1 && is_cont b2) eqn:C; [|discriminate].
      intros H. apply andb_true_iff in C as [C1 C2].
      unfold is_cont, cont_bits in *.
      apply in_range_spec in E2, C1, C2.
      apply (Forall_option_cons _ _ _ _ H).
      - unfold scalar. revert C1.
        destruct (N.eqb_spec (b0) 224); destruct (N.eqb_spec (b0) 237); intros C1; lia.
      - intros u Hu. apply (IH t2); [simpl in Hn; lia | exact Hu]. }
    destruct (in_range 240 244 b0) eqn:E3; [|discriminate].
    destruct t as [|b1 [|b2 [|b3 t3]]]; try discriminate.
    destruct (in_range _ _ b1 && is_cont b2 && is_cont b3) eqn:C;
      [|discriminate].
    intros H. apply andb_true_iff in C as [C C3].
    apply andb_true_iff in C as [C1 C2].
    unfold is_cont, cont_bits in *.
    apply in_range_spec in E3, C1, C2, C3.
    apply (Forall_option_cons _ _ _ _ H).
    + unfold scalar. revert C1.
      destruct (N.eqb_spec (b0) 240); destruct (N.eqb_spec (b0) 244); intros C1; lia.
    + intros u Hu. apply (IH t3); [simpl in Hn; lia | exact Hu].
Qed.

Lemma utf8_decode_scalar (b : list N) (s : str) :
  utf8_decode_N b = Some s -> Forall scalar s.
Proof.
  apply (utf8_decode_scalar_fuel (length b)). lia.
Qed.

Lemma normalize_bytes_scalar (b : bytes) : Forall scalar (normalize_bytes b).
Proof.
  rewrite normalize_bytes_utf8_or_latin2.
  destruct (decode_utf8 b) as [s|] eqn:E.
  - now apply utf8_decode_scalar in E.
  - apply Forall_forall. intros c Hc. apply in_map_iff in Hc as (x & <- & _).
    pose proof (iso8859_2_char_bound x). left. lia.
Qed.

(** A surrogate is no Latin-1 character. *)
Lemma encode_latin1_surrogate (s : str) :
  utf8_encodable s = false -> encode_latin1 s = None.
Proof.
  unfold utf8_encodable, encode_latin1.
  induction s as [|c s IH]; [discriminate|]. cbn [forallb map sequence_opt].
  intros H. apply andb_false_iff in H as [H|H].
  - apply negb_false_iff, in_range_spec in H.
    destruct (Byte.of_N c) as [x|] eqn:E; [|reflexivity].
    apply Byte.to_of_N in E. pose proof (Byte.to_N_bounded x). lia.
  - destruct (Byte.of_N c); [|reflexivity]. now rewrite (IH H).
Qed.

(** Decoding what [utf8_encode_char] wrote. *)
Lemma utf8_decode_encode_char (c : char) (rest : list N) :
  scalar c ->
  utf8_decode_N (utf8_encode_char c ++ rest) =
  option_map (cons c) (utf8_decode_N rest).
Proof.
  intros Hc. unfold scalar in Hc. unfold utf8_encode_char.
  pose proof (N.div_mod c 64 ltac:(lia)) as D1.
  pose proof (N.mod_lt c 64 ltac:(lia)) as M1.
  pose proof (N.div_mod (c / 64) 64 ltac:(lia)) as D2.
  pose proof (N.mod_lt (c / 64) 64 ltac:(lia)) as M2.
  pose proof (N.div_mod (c / 64 / 64) 64 ltac:(lia)) as D3.
  pose proof (N.mod_lt (c / 64 / 64) 64 ltac:(lia)) as M3.
  set (q1 := c / 64) in *. set (r1 := c mod 64) in *.
  set (q2 := q1 / 64) in *. set (r2 := q1 mod 64) in *.
  set (q3 := q2 / 64) in *. set (r3 := q2 mod 64) in *.
  destruct (c <? 128) eqn:L1.
  { cbn [app utf8_decode_N]. now rewrite L1. }
  apply N.ltb_ge in L1.
  destruct (c <? 2048) eqn:L2.
  { apply N.ltb_lt in L2. cbn [app utf8_decode_N].
    replace (192 + q1 <? 128) with false by (symmetry; apply N.ltb_ge; lia).
    replace (in_range 194 223 (192 + q1)) with true
      by (symmetry; apply in_range_spec; lia).
    replace (is_cont (128 + r1)) with true
      by (symmetry; apply in_range_spec; lia).
    unfold cont_bits. f_equal. f_equal. lia. }
  apply N.ltb_ge in L2.
  destruct (c <? 65536) eqn:L3.
  { apply N.ltb_lt in L3. cbn [app utf8_decode_N].
    replace (224 + q2 <? 128) with false by (symmetry; apply N.ltb_ge; lia).
    replace (in_range 194 223 (224 + q2)) with false
      by (symmetry; apply not_true_iff_false; rewrite in_range_spec; lia).
    replace (in_range 224 239 (224 + q2)) with true
      by (symmetry; apply in_range_spec; lia).
    replace (is_cont (128 + r1)) with true
      by (symmetry; apply in_range_spec; lia).
    replace (in_range (if 224 + q2 =? 224 then 160 else 128)
               (if 224 + q2 =? 237 then 159 else 191) (128 + r2)) with true.
    2:{ symmetry. apply in_range_spec.
        destruct (N.eqb_spec (224 + q2) 224); destruct (N.eqb_spec (224 + q2) 237); lia. }
    cbn [andb]. unfold cont_bits. f_equal. f_equal. lia. }
  apply N.ltb_ge in L3. cbn [app utf8_decode_N].
  replace (240 + q3 <? 128) with false by (symmetry; apply N.ltb_ge; lia).
  replace (in_range 194 223 (240 + q3)) with false
    by (symmetry; apply not_true_iff_false; rewrite in_range_spec; lia).
  replace (in_range 224 239 (240 + q3)) with false
    by (symmetry; apply not_true_iff_false; rewrite in_range_spec; lia).
  replace (in_range 240 244 (240 + q3)) with true
    by (symmetry; apply in_range_spec; lia).
  replace (is_cont (128 + r1)) with true
    by (symmetry; apply in_range_spec; lia).
  replace (is_cont (128 + r2)) with true
    by (symmetry; apply in_range_spec; lia).
  replace (in_range (if 240 + q3 =? 240 then 144 else 128)
             (if 240 + q3 =? 244 then 143 else 191) (128 + r3)) with true.
  2:{ symmetry. apply in_range_spec.
      destruct (N.eqb_spec (240 + q3) 240); destruct (N.eqb_spec (240 + q3) 244); lia. }
  cbn [andb]. unfold cont_bits. f_equal. f_equal. lia.
Qed.

Lemma utf8_decode_encode (s : str) :
  Forall scalar s -> utf8_decode_N (utf8_encode_N s) = Some s.
Proof.
  unfold utf8_encode_N.
  induction 1 as [|c s Hc _ IH]; [reflexivity|].
  cbn [flat_map]. rewrite utf8_decode_encode_char by exact Hc.
  now rewrite IH.
Qed.

End NormalizeMore.

(** X13. Bytes that are not well-formed UTF-8 are read as ISO-8859-2, one
    character for each byte, every one of them at most U+02DD: the result
    never holds the replacement character U+FFFD, and Windows-1250, Latin-1
    and the replacing decoder are never reached. *)
Theorem normalize_not_utf8 (raw : bytes) :
  decode_utf8 raw = None ->
  exists s,
    pdf_qr_extract._normalize_qr_content_to_str (pdf_qr_extract.RawBytes raw)
      = Some s /\
    s = List.map (fun x => iso8859_2_char (Byte.to_N x)) raw /\
    length s = length raw /\
    Forall (fun c => c <= 733) s /\
    ~ In REPLACEMENT s.
Proof.
  intros E. eexists. split; [reflexivity|].
  rewrite normalize_bytes_utf8_or_latin2, E.
  assert (B : Forall (fun c => c <= 733)
                (List.map (fun x => iso8859_2_char (Byte.to_N x)) raw)).
  { apply Forall_forall. intros c Hc. apply in_map_iff in Hc as (x & <- & _).
    apply iso8859_2_char_bound. }
  split; [reflexivity|]. split; [apply length_map|]. split; [exact B|].
  intros H. rewrite Forall_forall in B. specialize (B _ H).
  unfold REPLACEMENT in B. lia.
Qed.

Lemma normalize_not_utf8_witness :
  exists s,
    pdf_qr_extract._normalize_qr_content_to_str
      (pdf_qr_extract.RawBytes [Byte.x4b; Byte.xe8; Byte.xb9]) = Some s /\
    s = List.map (fun x => iso8859_2_char (Byte.to_N x))
          [Byte.x4b; Byte.xe8; Byte.xb9] /\
    length s = length [Byte.x4b; Byte.xe8; Byte.xb9] /\
    Forall (fun c => c <= 733) s /\
    ~ In REPLACEMENT s.
Proof.
  apply (normalize_not_utf8 [Byte.x4b; Byte.xe8; Byte.xb9]). reflexivity.
Defined.

(** X14. A text is returned as it is or not at all: the result for a [str]
    is the same [str], and the call raises exactly when the text holds a
    surrogate (the Latin-1 detour of the handler cannot succeed then). *)
Theorem normalize_str_unchanged (s : str) :
  (forall r, pdf_qr_extract._normalize_qr_content_to_str
               (pdf_qr_extract.RawStr s) = Some r -> r = s) /\
  (pdf_qr_extract._normalize_qr_content_to_str (pdf_qr_extract.RawStr s)
     = None <->
   exists c, In c s /\ 55296 <= c <= 57343).
Proof.
  unfold pdf_qr_extract._normalize_qr_content_to_str.
  destruct (utf8_encodable s) eqn:E.
  - split; [now intros r [= <-]|]. split; [discriminate|].
    intros (c & Hc & R). destruct (encodable_scalar s E c Hc); lia.
  - rewrite (encode_latin1_surrogate s E). simpl.
    split; [discriminate|]. split; [|reflexivity]. intros _.
    unfold utf8_encodable in E.
    assert (X : existsb (fun c => in_range 55296 57343 c) s = true).
    { clear -E. induction s as [|c s IH]; [discriminate|]. simpl in *.
      destruct (in_range 55296 57343 c); [reflexivity|]. simpl in *.
      now apply IH. }
    apply existsb_exists in X as (c & Hc & R).
    exists c. split; [exact Hc | now apply in_range_spec].
Qed.

(** X15. What the normalisation makes of bytes is always a sequence of
    Unicode scalar values: it can be encoded as UTF-8, and normalising it
    again as text changes nothing. *)
Theorem normalize_bytes_settles (raw : bytes) :
  Forall scalar (pdf_qr_extract.normalize_bytes raw) /\
  utf8_encodable (pdf_qr_extract.normalize_bytes raw) = true /\
  pdf_qr_extract._normalize_qr_content_to_str
    (pdf_qr_extract.RawStr (pdf_qr_extract.normalize_bytes raw)) =
  pdf_qr_extract._normalize_qr_content_to_str (pdf_qr_extract.RawBytes raw).
Proof.
  pose proof (normalize_bytes_scalar raw) as H.
  pose proof (scalar_encodable _ H) as E.
  split; [exact H|]. split; [exact E|].
  unfold pdf_qr_extract._normalize_qr_content_to_str. now rewrite E.
Qed.

(** X16. UTF-8 comes first: bytes that are the UTF-8 encoding of a text
    without surrogates are normalised to that text, whatever the other
    codecs would read in them. *)
Theorem normalize_utf8_round_trip (raw : bytes) (s : str) :
  Forall scalar s ->
  List.map Byte.to_N raw = utf8_encode_N s ->
  pdf_qr_extract._normalize_qr_content_to_str (pdf_qr_extract.RawBytes raw)
    = Some s.
Proof.
  intros Hs E. unfold pdf_qr_extract._normalize_qr_content_to_str.
  rewrite normalize_bytes_utf8_or_latin2. unfold decode_utf8.
  now rewrite E, utf8_decode_encode.
Qed.

Lemma normalize_utf8_round_trip_witness :
  pdf_qr_extract._normalize_qr_content_to_str
    (pdf_qr_extract.RawBytes [Byte.x4b; Byte.xc4; Byte.x8d; Byte.xe2; Byte.x82;
                              Byte.xac])
  = Some [75; 269; 8364].
Proof.
  apply (normalize_utf8_round_trip
           [Byte.x4b; Byte.xc4; Byte.x8d; Byte.xe2; Byte.x82; Byte.xac]
           [75; 269; 8364]).
  - repeat constructor; unfold scalar; lia.
  - reflexivity.
Defined.

(** * Reading the codes of a PDF ([pdf_qr_extract.py])

    The image libraries are outside the model: what they report for an
    image is data here, and the functions below are what the source does
    with it. *)

(** [if s:] on a string. *)
Definition truthy (s : str) : bool := negb (str_eqb s []).

Module pdf_qr_scan.

(** What OpenCV's detector reports for one view of an image (grey, then
    colour): [detected] is [retval and points is not None and points.size],
    [data_bytes] the bytes of [decodeBytes] ([None] when it raises or
    returns [None]), [data] the text of [detectAndDecode] ([None] when it
    raises or gives no [str]). *)
Record cv2_view := mk_cv2_view {
  detected : bool;
  data_bytes : option bytes;
  data : option str
}.

(** The [result] list of one round of the loop of [_cv2_decode]. On bytes
    [_normalize_qr_content_to_str] is [normalize_bytes]; on text its
    exception is swallowed by the [try] around it. *)
Definition view_result (v : cv2_view) : list str :=
  let result :=
    match data_bytes v with
    | Some b =>
        if Nat.ltb 0 (length b) then
          let s := pdf_qr_extract.normalize_bytes b in
          if truthy (strip s) then [s] else []
        else []
    | None => []
    end in
  match result with
  | [] =>
      match data v with
      | Some d =>
          if truthy d && truthy (strip d) then
            match pdf_qr_extract._normalize_qr_content_to_str
                    (pdf_qr_extract.RawStr d) with
            | Some s => [s]
            | None => []
            end
          else []
      | None => []
      end
  | _ => result
  end.

(** [for im in (arr_gray, arr_bgr): ...; if result: return result] *)
Fixpoint _cv2_decode (views : list cv2_view) : list str :=
  match views with
  | [] => []
  | v :: rest =>
      if negb (detected v) then _cv2_decode rest
      else
        match view_result v with
        | [] => _cv2_decode rest
        | result => result
        end
  end.

(** The [seen] set and the [result] list of [_decode_qr_from_image]. *)
Definition merge_state := (list str * list str)%type.

(** The inner function [add]. *)
Definition add (st : merge_state) (s : str) : merge_state :=
  let '(seen, result) := st in
  if truthy s && truthy (strip s) && negb (existsb (str_eqb (strip s)) seen)
  then (strip s :: seen, result ++ [s])
  else st.

(** [pyzbar] holds the [data] of the symbols pyzbar found, [cv2] the views
    of OpenCV; [None] stands for a decoder that is not installed. *)
Definition _decode_qr_from_image (pyzbar : option (list bytes))
           (cv2 : option (list cv2_view)) : list str :=
  let st0 : merge_state := ([], []) in
  let st1 :=
    match pyzbar with
    | Some objs =>
        fold_left add (List.map pdf_qr_extract.normalize_bytes objs) st0
    | None => st0
    end in
  let st2 :=
    match cv2 with
    | Some views => fold_left add (_cv2_decode views) st1
    | None => st1
    end in
  snd st2.

(** The strings [_decode_qr_from_image] chooses from. *)
Definition candidates (pyzbar : option (list bytes))
           (cv2 : option (list cv2_view)) : list str :=
  match pyzbar with
  | Some objs => List.map pdf_qr_extract.normalize_bytes objs
  | None => []
  end ++
  match cv2 with
  | Some views => _cv2_decode views
  | None => []
  end.

(** [any(s.strip().startswith("UPNQR") for s in result)] *)
Definition has_upnqr (result : list str) : bool :=
  existsb (fun s => startswith (lit "UPNQR") (strip s)) result.

(** [for try_dpi in ...: <render every page>; if any(...): break].
    [render d] is what the pages give at [d] dots per inch, in page order. *)
Fixpoint render_loop (dpis : list N) (render : N -> list str)
         (result : list str) : list str :=
  match dpis with
  | [] => result
  | try_dpi :: rest =>
      let result := result ++ render try_dpi in
      if has_upnqr result then result else render_loop rest render result
  end.

(** The body of [extract_qr_strings_from_pdf] once the document is open:
    [embedded] is what the embedded images give. *)
Definition extract_qr_strings_from_pdf (embedded : list str)
           (render : N -> list str) (dpi : N) : list str :=
  render_loop [dpi; 400; 600] render embedded.

End pdf_qr_scan.

Section ScanProperties.
Import pdf_qr_scan.

Lemma truthy_true (s : str) : truthy s = true <-> s <> [].
Proof.
  unfold truthy. rewrite negb_true_iff. split.
  - intros H E. subst s. discriminate H.
  - intros H. destruct s; [congruence | reflexivity].
Qed.

Lemma view_result_spec (v : cv2_view) :
  (length (view_result v) <= 1)%nat /\
  Forall (fun s => strip s <> []) (view_result v).
Proof.
  unfold view_result.
  destruct (data_bytes v) as [b|].
  - destruct (Nat.ltb 0 (length b)).
    + destruct (truthy (strip (pdf_qr_extract.normalize_bytes b))) eqn:T.
      * split; [simpl; lia|]. constructor; [|constructor].
        now apply truthy_true.
      * destruct (data v) as [d|]; [|split; [simpl; lia | constructor]].
        destruct (truthy d && truthy (strip d)) eqn:G;
          [|split; [simpl; lia | constructor]].
        apply andb_true_iff in G as [_ G]. apply truthy_true in G.
        unfold pdf_qr_extract._normalize_qr_content_to_str.
        destruct (utf8_encodable d) eqn:U.
        -- split; [simpl; lia|]. now repeat constructor.
        -- rewrite (encode_latin1_surrogate d U). simpl.
           split; [lia | constructor].
    + destruct (data v) as [d|]; [|split; [simpl; lia | constructor]].
      destruct (truthy d && truthy (strip d)) eqn:G;
        [|split; [simpl; lia | constructor]].
      apply andb_true_iff in G as [_ G]. apply truthy_true in G.
      unfold pdf_qr_extract._normalize_qr_content_to_str.
      destruct (utf8_encodable d) eqn:U.
      * split; [simpl; lia|]. now repeat constructor.
      * rewrite (encode_latin1_surrogate d U). simpl.
        split; [lia | constructor].
  - destruct (data v) as [d|]; [|split; [simpl; lia | constructor]].
    destruct (truthy d && truthy (strip d)) eqn:G;
      [|split; [simpl; lia | constructor]].
    apply andb_true_iff in G as [_ G]. apply truthy_true in G.
    unfold pdf_qr_extract._normalize_qr_content_to_str.
    destruct (utf8_encodable d) eqn:U.
    + split; [simpl; lia|]. now repeat constructor.
    + rewrite (encode_latin1_surrogate d U). simpl.
      split; [lia | constructor].
Qed.

Lemma cv2_decode_spec (views : list cv2_view) :
  (length (_cv2_decode views) <= 1)%nat /\
  Forall (fun s => strip s <> []) (_cv2_decode views) /\
  (_cv2_decode views = [] \/
   exists v, In v views /\ detected v = true /\ _cv2_decode views = view_result v).
Proof.
  induction views as [|v rest IH]; [simpl; repeat split; auto|].
  cbn [_cv2_decode].
  destruct (detected v) eqn:D; cbn [negb].
  - pose proof (view_result_spec v) as [L F].
    destruct (view_result v) as [|r rs] eqn:E.
    + destruct IH as (IL & IF & [I0|(w & Hw & Dw & Ew)]).
      * repeat split; auto.
      * repeat split; auto. right. exists w. repeat split; auto. now right.
    + repeat split; auto. right. exists v. repeat split; auto. now left.
  - destruct IH as (IL & IF & [I0|(w & Hw & Dw & Ew)]).
    + repeat split; auto.
    + repeat split; auto. right. exists w. repeat split; auto. now right.
Qed.

(** What [add] keeps true of the [seen] set and the [result] list. *)
Definition merge_inv (st : merge_state) : Prop :=
  (forall x, In x (fst st) <-> In x (List.map strip (snd st))) /\
  NoDup (List.map strip (snd st)) /\
  Forall (fun s => strip s <> []) (snd st).

Lemma existsb_str_eqb (x : str) (l : list str) :
  existsb (str_eqb x) l = true <-> In x l.
Proof.
  rewrite existsb_exists. split.
  - intros (y & Hy & E). apply str_eqb_eq in E. now subst y.
  - intros H. exists x. split; [exact H | now apply str_eqb_eq].
Qed.

Lemma add_inv (st : merge_state) (s : str) :
  merge_inv st -> merge_inv (add st s).
Proof.
  destruct st as [seen result]. unfold merge_inv, add. cbn [fst snd].
  intros (HS & N & F).
  destruct (truthy s && truthy (strip s)
            && negb (existsb (str_eqb (strip s)) seen)) eqn:G;
    cbn [fst snd]; [|split; [exact HS | split; [exact N | exact F]]].
  apply andb_true_iff in G as [G G3]. apply andb_true_iff in G as [_ G2].
  apply truthy_true in G2. apply negb_true_iff in G3.
  assert (NS : ~ In (strip s) seen).
  { intros H. apply existsb_str_eqb in H. congruence. }
  rewrite map_app. cbn [map]. repeat split.
  - intros [<-|H]; apply in_or_app; [right; now left|left; now apply HS].
  - intros H. apply in_app_or in H as [H|[<-|[]]];
      [right; now apply HS | now left].
  - apply NoDup_app.
    + exact N.
    + repeat constructor. intros [].
    + intros x Hx [<-|[]]. apply NS. now apply HS.
  - apply Forall_app. split; [exact F | now repeat constructor].
Qed.

Lemma fold_add_inv (cands : list str) :
  forall st, merge_inv st -> merge_inv (fold_left add cands st).
Proof.
  induction cands as [|c cands IH]; intros st H; [exact H|].
  simpl. apply IH. now apply add_inv.
Qed.

Lemma add_grows (st : merge_state) (s : str) :
  exists more, snd (add st s) = snd st ++ more /\
               (forall x, In x more -> x = s) /\
               (forall x, In x (fst st) -> In x (fst (add st s))).
Proof.
  destruct st as [seen result]. unfold add.
  destruct (truthy s && truthy (strip s)
            && negb (existsb (str_eqb (strip s)) seen)); cbn [fst snd].
  - exists [s]. repeat split; [now intros x [<-|[]] | intros x H; now right].
  - exists []. rewrite app_nil_r. repeat split; [intros x [] | auto].
Qed.

Lemma fold_add_grows (cands : list str) :
  forall st,
    exists more, snd (fold_left add cands st) = snd st ++ more /\
                 (forall x, In x more -> In x cands) /\
                 (forall x, In x (fst st) ->
                            In x (fst (fold_left add cands st))).
Proof.
  induction cands as [|c cands IH]; intros st.
  - exists []. rewrite app_nil_r. repeat split; [intros x [] | auto].
  - simpl. destruct (add_grows st c) as (m1 & E1 & M1 & S1).
    destruct (IH (add st c)) as (m2 & E2 & M2 & S2).
    exists (m1 ++ m2). rewrite E2, E1, app_assoc. repeat split.
    + intros x Hx. apply in_app_or in Hx as [Hx|Hx];
        [left; symmetry; now apply M1 | right; now apply M2].
    + intros x Hx. now apply S2, S1.
Qed.

Lemma add_covers (st : merge_state) (s : str) :
  strip s <> [] -> In (strip s) (fst (add st s)).
Proof.
  intros H. destruct st as [seen result]. unfold add.
  assert (T1 : truthy s = true).
  { apply truthy_true. intros E. subst s. now rewrite strip_nil in H. }
  assert (T2 : truthy (strip s) = true) by now apply truthy_true.
  rewrite T1, T2. cbn [andb].
  destruct (existsb (str_eqb (strip s)) seen) eqn:E; cbn [negb fst].
  - now apply existsb_str_eqb.
  - now left.
Qed.

Lemma fold_add_covers (cands : list str) :
  forall st s, In s cands -> strip s <> [] ->
               In (strip s) (fst (fold_left add cands st)).
Proof.
  induction cands as [|c cands IH]; intros st s [].
  - subst c. intros H. simpl.
    destruct (fold_add_grows cands (add st s)) as (_ & _ & _ & K).
    apply K. now apply add_covers.
  - intros Hs. simpl. now apply IH.
Qed.

Lemma fold_add_app (a b : list str) (st : merge_state) :
  fold_left add (a ++ b) st = fold_left add b (fold_left add a st).
Proof. apply fold_left_app. Qed.

Lemma decode_image_fold (pyzbar : option (list bytes))
      (cv2 : option (list cv2_view)) :
  _decode_qr_from_image pyzbar cv2 =
  snd (fold_left add (candidates pyzbar cv2) ([], [])).
Proof.
  unfold _decode_qr_from_image, candidates. rewrite fold_left_app.
  destruct pyzbar, cv2; reflexivity.
Qed.

(** The first line of the trimmed text opens the text. *)
Lemma split_on_head (sep : char) (t : str) :
  exists rest, t = nth 0 (split_on sep t) [] ++ rest.
Proof.
  induction t as [|c t IH]; [now exists []|].
  cbn [split_on]. destruct (c =? sep).
  - now exists (c :: t).
  - destruct IH as (rest & E).
    destruct (split_on sep t) as [|h more]; cbn [nth] in *.
    + exists t. reflexivity.
    + exists rest. change (c :: t = c :: (h ++ rest)). now f_equal.
Qed.

Lemma rstrip_prefix (s : str) : exists w, s = rstrip s ++ w.
Proof.
  induction s as [|c s (w & E)]; [now exists []|].
  destruct (is_space c) eqn:C.
  - rewrite (rstrip_space_cons c s C).
    destruct (rstrip s) as [|r rs] eqn:R.
    + now exists (c :: s).
    + exists w. change (c :: s = c :: ((r :: rs) ++ w)). now f_equal.
  - rewrite (rstrip_cons c s C). exists w.
    change (c :: s = c :: (rstrip s ++ w)). now f_equal.
Qed.

Lemma startswith_app (p x : str) : startswith p (p ++ x) = true.
Proof.
  induction p as [|c p IH]; [reflexivity|].
  cbn [app startswith]. now rewrite N.eqb_refl, IH.
Qed.

Lemma lstrip_strip (s : str) : lstrip (strip s) = strip s.
Proof.
  unfold strip. rewrite lstrip_rstrip_comm. unfold lstrip.
  now rewrite drop_while_idem.
Qed.

Lemma nth0_removelast (l : list str) :
  (2 <= length l)%nat -> nth 0 (removelast l) [] = nth 0 l [].
Proof.
  destruct l as [|a [|b l]]; simpl; try lia. reflexivity.
Qed.

End ScanProperties.

Section ScanAndParse.
Import unp_qr_decode pdf_qr_scan.

Lemma lstrip_head (s : str) (c : char) (x : str) :
  lstrip s = c :: x -> is_space c = false.
Proof.
  unfold lstrip. induction s as [|a s IH]; [discriminate|].
  cbn [drop_while]. destruct (is_space a) eqn:A; [exact IH|].
  now intros [= <- _].
Qed.

(** A payload that parses opens, once trimmed, with [UPNQR]. *)
Lemma parse_starts_upnqr (s : str) (r : UPNPayment) :
  parse_unp_qr_content s = Some r ->
  startswith (lit "UPNQR") (strip s) = true.
Proof.
  intros H. apply parse_iff in H as [(_ & L & U & _) _].
  assert (U0 : nth 0 (raw_lines s) [] = lit "UPNQR").
  { revert L U. unfold payload_lines, line.
    destruct (Nat.ltb 19 (length (raw_lines s))
              && is_checksum_line (last (raw_lines s) [])) eqn:C;
      [|now intros _ U].
    apply andb_true_iff in C as [C _]. apply Nat.ltb_lt in C.
    intros _ U. rewrite nth0_removelast in U by lia. exact U. }
  unfold raw_lines in U0.
  change (@nil char) with (strip []) in U0 at 1.
  rewrite map_nth in U0.
  destruct (split_on_head NL (strip s)) as (rest & E).
  set (h := nth 0 (split_on NL (strip s)) []) in *.
  destruct h as [|c h'] eqn:Eh; [discriminate U0|].
  assert (C : is_space c = false).
  { apply (lstrip_head (strip s) c (h' ++ rest)).
    rewrite lstrip_strip. exact E. }
  assert (R : rstrip (c :: h') = lit "UPNQR").
  { unfold strip, lstrip in U0. cbn [drop_while] in U0.
    now rewrite C in U0. }
  destruct (rstrip_prefix (c :: h')) as (w & W).
  rewrite E, W, R, <- app_assoc. apply startswith_app.
Qed.

Lemma has_upnqr_app (a b : list str) :
  has_upnqr (a ++ b) = has_upnqr a || has_upnqr b.
Proof. unfold has_upnqr. apply existsb_app. Qed.

Lemma parsable_has_upnqr (l : list str) :
  (exists s, In s l /\ parse_unp_qr_content s <> None) ->
  has_upnqr l = true.
Proof.
  intros (s & Hs & P). unfold has_upnqr. apply existsb_exists.
  exists s. split; [exact Hs|].
  destruct (parse_unp_qr_content s) as [r|] eqn:E; [|congruence].
  now apply parse_starts_upnqr in E.
Qed.

Lemma view_result_from (v : cv2_view) (s : str) :
  In s (view_result v) ->
  utf8_encodable s = true /\
  ((exists b, data_bytes v = Some b /\ b <> [] /\
              s = pdf_qr_extract.normalize_bytes b)
   \/ data v = Some s).
Proof.
  unfold view_result.
  assert (T : In s match data v with
                   | Some d =>
                       if truthy d && truthy (strip d) then
                         match pdf_qr_extract._normalize_qr_content_to_str
                                 (pdf_qr_extract.RawStr d) with
                         | Some s => [s]
                         | None => []
                         end
                       else []
                   | None => []
                   end ->
              utf8_encodable s = true /\ data v = Some s).
  { destruct (data v) as [d|]; [|intros []].
    destruct (truthy d && truthy (strip d)); [|intros []].
    unfold pdf_qr_extract._normalize_qr_content_to_str.
    destruct (utf8_encodable d) eqn:U.
    - intros [<-|[]]. now split.
    - rewrite (encode_latin1_surrogate d U). intros []. }
  destruct (data_bytes v) as [b|]; [|intros H; apply T in H; tauto].
  destruct (Nat.ltb 0 (length b)) eqn:L; [|intros H; apply T in H; tauto].
  destruct (truthy (strip (pdf_qr_extract.normalize_bytes b)));
    [|intros H; apply T in H; tauto].
  intros [<-|[]]. split.
  - apply scalar_encodable, normalize_bytes_scalar.
  - left. exists b. repeat split. intros ->. discriminate L.
Qed.

End ScanAndParse.

(** X17. OpenCV's fallback decoder gives at most one string for an image
    and never a blank one; the string can be encoded as UTF-8, and it is
    the normalised bytes or the text of a view in which a code was
    detected. *)
Theorem cv2_decode_at_most_one (views : list pdf_qr_scan.cv2_view) :
  (length (pdf_qr_scan._cv2_decode views) <= 1)%nat /\
  (forall s, In s (pdf_qr_scan._cv2_decode views) ->
     strip s <> [] /\ utf8_encodable s = true /\
     exists v, In v views /\ pdf_qr_scan.detected v = true /\
       ((exists b, pdf_qr_scan.data_bytes v = Some b /\ b <> [] /\
                   s = pdf_qr_extract.normalize_bytes b)
        \/ pdf_qr_scan.data v = Some s)).
Proof.
  destruct (cv2_decode_spec views) as (L & F & O).
  split; [exact L|]. intros s Hs. rewrite Forall_forall in F.
  split; [now apply F|].
  destruct O as [O|(v & Hv & D & E)]; [rewrite O in Hs; destruct Hs|].
  rewrite E in Hs. apply view_result_from in Hs as [U W].
  split; [exact U|]. exists v. now repeat split.
Qed.

(** X18. The strings read off an image are merged without blanks and
    without repeats: every result is one of the candidates (pyzbar's data
    normalised, then OpenCV's strings), none is blank, no two are equal
    after trimming, and every candidate that is not blank has its trimmed
    text among the trimmed results. *)
Theorem decode_image_merge (pyzbar : option (list bytes))
        (cv2 : option (list pdf_qr_scan.cv2_view)) :
  let result := pdf_qr_scan._decode_qr_from_image pyzbar cv2 in
  (forall s, In s result -> In s (pdf_qr_scan.candidates pyzbar cv2)) /\
  Forall (fun s => strip s <> []) result /\
  NoDup (List.map strip result) /\
  (forall s, In s (pdf_qr_scan.candidates pyzbar cv2) -> strip s <> [] ->
             In (strip s) (List.map strip result)).
Proof.
  intros result. unfold result. rewrite decode_image_fold.
  set (cands := pdf_qr_scan.candidates pyzbar cv2).
  assert (I0 : merge_inv ([], [])).
  { unfold merge_inv. cbn [fst snd map]. repeat split; auto; constructor. }
  pose proof (fold_add_inv cands _ I0) as (HS & N & F).
  destruct (fold_add_grows cands ([], [])) as (more & E & M & _).
  repeat split.
  - intros s Hs. rewrite E in Hs. now apply M.
  - exact F.
  - exact N.
  - intros s Hs B. apply HS. now apply fold_add_covers.
Qed.

(** X19. A payload that parses stops the search for resolutions: when the
    embedded images or the pages at the first resolution give a string that
    [parse_unp_qr_content] accepts, the pages are not rendered again at 400
    and 600 dots per inch, and the result is what was read so far. *)
Theorem render_stops_at_upn (embedded : list str) (render : N -> list str)
        (dpi : N) :
  (exists s, In s (embedded ++ render dpi) /\
             unp_qr_decode.parse_unp_qr_content s <> None) ->
  pdf_qr_scan.extract_qr_strings_from_pdf embedded render dpi =
  embedded ++ render dpi.
Proof.
  intros H. apply parsable_has_upnqr in H.
  unfold pdf_qr_scan.extract_qr_strings_from_pdf.
  cbn [pdf_qr_scan.render_loop]. now rewrite H.
Qed.

Lemma render_stops_at_upn_witness :
  pdf_qr_scan.extract_qr_strings_from_pdf [lit "12345"]
    (fun d => if d =? 300 then [scenario_content] else [lit "other"]) 300 =
  [lit "12345"] ++ [scenario_content].
Proof.
  apply (render_stops_at_upn [lit "12345"]
           (fun d => if d =? 300 then [scenario_content] else [lit "other"])
           300).
  exists scenario_content. split; [right; now left|].
  rewrite scenario_parses. discriminate.
Defined.

(** * The register and the outcome of a run ([pdf_io.py]) *)

Definition TAB : char := 9.

Module pdf_io.

(** [s.replace(old, new)] for one-character [old] and [new]. *)
Definition replace_char (old new : char) (s : str) : str :=
  List.map (fun c => if c =? old then new else c) s.

Definition _ascii_slovenian (s : str) : str :=
  if negb (truthy s) then s
  else
    replace_char 381 90
      (replace_char 382 122
         (replace_char 352 83
            (replace_char 353 115
               (replace_char 268 67
                  (replace_char 269 99 s))))).

(** Why [process_pdf] raises [ValueError]: the two messages, with the
    values the second one is formatted from. *)
Inductive process_error :=
| NoQRCodes
| NotUPN (n : nat) (first_line preview : str).

(** How a call of [process_pdf] ends: with its own [ValueError], with
    whatever [build_output_pdf] raises, or with the payments. *)
Inductive process_outcome :=
| Raised (e : process_error)
| BuildFailed
| Returned (payments : list UPNPayment).

(** [process_pdf] from the strings [extract_qr_strings_from_pdf] returned.
    Writing the file is outside the model: [build_output_pdf payments] is
    [true] when the call returns and [false] when it raises. *)
Definition process_pdf (build_output_pdf : list UPNPayment -> bool)
           (qr_strings : list str) : process_outcome :=
  let payments := unp_qr_decode.parse_all_unp_qr_contents qr_strings in
  match payments with
  | [] =>
      match qr_strings with
      | [] => Raised NoQRCodes
      | s0 :: _ =>
          let preview :=
            if Nat.ltb 200 (length s0) then take 200 s0 ++ lit "..." else s0 in
          let first_line :=
            if truthy (strip s0) then nth 0 (split_on NL (strip s0)) []
            else [] in
          Raised (NotUPN (length qr_strings) first_line preview)
      end
  | _ => if build_output_pdf payments then Returned payments else BuildFailed
  end.

(** [sum(p.amount for p in payments)], on the rationals the amounts stand
    for. Python adds doubles, and for large amounts the digits it prints for
    the total can differ; what is proved of the line of the total is proved
    for any text in its place. *)
Definition sum_amounts (payments : list UPNPayment) : Q :=
  fold_left Qplus (List.map amount payments) (0 # 1).

(** ["-" * 60] *)
Definition rule : str := repeat 45 60.

(** One row of the register: [f"{idx}\t{rec_short}\t{p.reference}\t{p.amount:.2f}"]. *)
Definition register_row (idx : nat) (p : UPNPayment) : str :=
  let rec_name := _ascii_slovenian (or_str (recipient_name p) []) in
  let rec_short :=
    if Nat.ltb 50 (length rec_name) then take 50 rec_name ++ lit "..."
    else rec_name in
  str_of_Z (Z.of_nat idx) ++ [TAB] ++ rec_short ++ [TAB] ++ reference p
    ++ [TAB] ++ format_2f (amount p).

(** [for idx, p in enumerate(payments, idx): lines.append(...)] *)
Fixpoint register_rows (idx : nat) (payments : list UPNPayment) : list str :=
  match payments with
  | [] => []
  | p :: rest => register_row idx p :: register_rows (S idx) rest
  end.

(** The list [lines] before it is joined; [total_text] is
    [f"{total:.2f}"]. *)
Definition register_lines_with (total_text : str)
           (payments : list UPNPayment) : list str :=
  [lit "Payment register";
   [];
   lit "#" ++ [TAB] ++ lit "Recipient" ++ [TAB] ++ lit "Reference" ++ [TAB]
     ++ lit "Amount (EUR)";
   rule]
  ++ register_rows 1 payments
  ++ [rule; lit "TOTAL" ++ [TAB; TAB; TAB] ++ total_text].

(** The text of the register for a given text of the total. *)
Definition format_payment_register_text_with (total_text : str)
           (payments : list UPNPayment) : str :=
  join [NL] (register_lines_with total_text payments).

Definition register_lines (payments : list UPNPayment) : list str :=
  register_lines_with (format_2f (sum_amounts payments)) payments.

Definition format_payment_register_text (payments : list UPNPayment) : str :=
  format_payment_register_text_with (format_2f (sum_amounts payments))
    payments.

End pdf_io.

(** The six letters [_ascii_slovenian] replaces, all at once. *)
Definition translate_char (c : char) : char :=
  if c =? 269 then 99 else if c =? 268 then 67
  else if c =? 353 then 115 else if c =? 352 then 83
  else if c =? 382 then 122 else if c =? 381 then 90
  else c.

Definition carons : list char := [269; 268; 353; 352; 382; 381].

Section PdfIoProperties.
Import unp_qr_decode pdf_io.

Ltac caron_cases c tac :=
  destruct (N.eqb_spec c 269) as [->|?]; [tac|
  destruct (N.eqb_spec c 268) as [->|?]; [tac|
  destruct (N.eqb_spec c 353) as [->|?]; [tac|
  destruct (N.eqb_spec c 352) as [->|?]; [tac|
  destruct (N.eqb_spec c 382) as [->|?]; [tac|
  destruct (N.eqb_spec c 381) as [->|?]; [tac|]]]]]].

Lemma ascii_slovenian_map (s : str) :
  _ascii_slovenian s = List.map translate_char s.
Proof.
  unfold _ascii_slovenian.
  destruct s as [|c0 s0]; [reflexivity|]. cbn [truthy str_eqb negb].
  unfold replace_char. rewrite !map_map. apply map_ext. intros c.
  unfold translate_char. caron_cases c ltac:(reflexivity). reflexivity.
Qed.

Lemma translate_char_no_caron (c : char) : ~ In (translate_char c) carons.
Proof.
  unfold translate_char, carons.
  caron_cases c ltac:(vm_compute; intuition discriminate).
  cbn [In]. intros H. repeat destruct H as [H|H]; try congruence.
Qed.

Lemma translate_char_fixed (c : char) :
  ~ In c carons -> translate_char c = c.
Proof.
  unfold carons. cbn [In]. intros H. unfold translate_char.
  repeat match goal with
    | |- context [c =? ?k] =>
        destruct (N.eqb_spec c k); [exfalso; apply H; auto 10|]
    end.
  reflexivity.
Qed.

Lemma translate_char_idem (c : char) :
  translate_char (translate_char c) = translate_char c.
Proof. apply translate_char_fixed, translate_char_no_caron. Qed.

Lemma translate_char_nl (c : char) : translate_char c = NL -> c = NL.
Proof.
  unfold translate_char, NL. caron_cases c ltac:(discriminate). auto.
Qed.

Lemma ascii_slovenian_no_nl (s : str) :
  ~ In NL s -> ~ In NL (_ascii_slovenian s).
Proof.
  rewrite ascii_slovenian_map. intros H K.
  apply in_map_iff in K as (c & E & Hc). apply translate_char_nl in E.
  now subst c.
Qed.

Lemma str_of_Z_no_nl (n : Z) : (0 <= n)%Z -> ~ In NL (str_of_Z n).
Proof.
  intros Hn K. destruct (str_of_Z_spec n Hn) as (_ & D & _).
  rewrite forallb_forall in D. specialize (D _ K). discriminate D.
Qed.

Lemma not_in_app {A} (x : A) (a b : list A) :
  ~ In x a -> ~ In x b -> ~ In x (a ++ b).
Proof. intros Ha Hb K. apply in_app_or in K. tauto. Qed.

Lemma tab_no_nl : ~ In NL [TAB].
Proof. intros [K|[]]. discriminate K. Qed.

Lemma register_row_no_nl (idx : nat) (p : UPNPayment) :
  ~ In NL (recipient_name p) -> ~ In NL (reference p) ->
  ~ In NL (register_row idx p).
Proof.
  intros Hn Hr. unfold register_row.
  assert (A : ~ In NL (_ascii_slovenian (or_str (recipient_name p) []))).
  { apply ascii_slovenian_no_nl. unfold or_str.
    destruct (recipient_name p); [intros [] | exact Hn]. }
  set (rec_name := _ascii_slovenian (or_str (recipient_name p) [])) in *.
  assert (B : ~ In NL (if Nat.ltb 50 (length rec_name)
                       then take 50 rec_name ++ lit "..." else rec_name)).
  { destruct (Nat.ltb 50 (length rec_name)); [|exact A].
    intros K. apply in_app_or in K as [K|K].
    - apply A. unfold take in K. now apply firstn_In in K.
    - vm_compute in K. intuition discriminate. }
  repeat apply not_in_app; try apply tab_no_nl.
  - apply str_of_Z_no_nl. lia.
  - exact B.
  - exact Hr.
  - apply format_2f_no_nl.
Qed.

Lemma register_rows_length (payments : list UPNPayment) :
  forall idx, length (register_rows idx payments) = length payments.
Proof.
  induction payments as [|p rest IH]; intros idx; [reflexivity|].
  simpl. now rewrite IH.
Qed.

Lemma register_rows_nth (payments : list UPNPayment) :
  forall idx k p,
    nth_error payments k = Some p ->
    nth k (register_rows idx payments) [] = register_row (idx + k) p.
Proof.
  induction payments as [|q rest IH]; intros idx k p.
  - destruct k; discriminate.
  - destruct k as [|k]; cbn [nth_error register_rows nth].
    + intros [= <-]. now rewrite Nat.add_0_r.
    + intros H. rewrite (IH (S idx) k p H). f_equal. lia.
Qed.

Lemma register_rows_no_nl (payments : list UPNPayment) :
  (forall p, In p payments ->
             ~ In NL (recipient_name p) /\ ~ In NL (reference p)) ->
  forall idx l, In l (register_rows idx payments) -> ~ In NL l.
Proof.
  induction payments as [|q rest IH]; intros H idx l; [intros []|].
  cbn [register_rows]. intros [<-|Hl].
  - destruct (H q (or_introl eq_refl)) as [Hn Hr].
    now apply register_row_no_nl.
  - apply (IH (fun p Hp => H p (or_intror Hp)) (S idx) l Hl).
Qed.

(** The register text splits back into its lines. *)
Lemma register_text_with_splits (total_text : str)
      (payments : list UPNPayment) :
  ~ In NL total_text ->
  (forall p, In p payments ->
             ~ In NL (recipient_name p) /\ ~ In NL (reference p)) ->
  split_on NL (format_payment_register_text_with total_text payments) =
  register_lines_with total_text payments.
Proof.
  intros Ht H. unfold format_payment_register_text_with.
  apply split_join; [discriminate|].
  intros l Hl. unfold register_lines_with in Hl.
  apply in_app_or in Hl as [Hl|Hl].
  { cbn [In] in Hl.
    destruct Hl as [<-|[<-|[<-|[<-|[]]]]];
      vm_compute; intuition discriminate. }
  apply in_app_or in Hl as [Hl|Hl].
  { now apply (register_rows_no_nl payments H 1%nat l). }
  destruct Hl as [<-|[<-|[]]].
  - vm_compute. intuition discriminate.
  - repeat apply not_in_app.
    + vm_compute. intuition discriminate.
    + vm_compute. intuition discriminate.
    + exact Ht.
Qed.

Lemma register_text_splits (payments : list UPNPayment) :
  (forall p, In p payments ->
             ~ In NL (recipient_name p) /\ ~ In NL (reference p)) ->
  split_on NL (format_payment_register_text payments) =
  register_lines payments.
Proof.
  intros H. unfold format_payment_register_text, register_lines.
  exact (register_text_with_splits (format_2f (sum_amounts payments)) payments
           (format_2f_no_nl (sum_amounts payments)) H).
Qed.

Lemma register_lines_with_length (total_text : str)
      (payments : list UPNPayment) :
  length (register_lines_with total_text payments)
  = (length payments + 6)%nat.
Proof.
  unfold register_lines_with. rewrite !length_app, register_rows_length.
  simpl. lia.
Qed.

Lemma register_lines_length (payments : list UPNPayment) :
  length (register_lines payments) = (length payments + 6)%nat.
Proof.
  unfold register_lines.
  exact (register_lines_with_length (format_2f (sum_amounts payments)) payments).
Qed.

Lemma register_lines_with_row (total_text : str)
      (payments : list UPNPayment) (k : nat) (p : UPNPayment) :
  nth_error payments k = Some p ->
  nth (4 + k) (register_lines_with total_text payments) []
  = register_row (S k) p.
Proof.
  intros Hk. unfold register_lines_with.
  rewrite app_nth2 by (simpl; lia).
  replace (4 + k - length _)%nat with k by (simpl; lia).
  rewrite app_nth1.
  - now rewrite (register_rows_nth payments 1 k p Hk).
  - rewrite register_rows_length. apply nth_error_Some. congruence.
Qed.

Lemma parsed_no_nl (qr_strings : list str) (p : UPNPayment) :
  In p (parse_all_unp_qr_contents qr_strings) ->
  ~ In NL (recipient_name p) /\ ~ In NL (reference p).
Proof.
  rewrite parse_all_spec. intros H.
  apply first_of_each_key_fresh in H as [H _].
  apply survivors_In in H as (s & _ & P).
  apply parse_iff in P as [_ ->].
  destruct (record_of_no_nl s) as (A & B & _). now split.
Qed.

Lemma parse_all_nil_iff (qr_strings : list str) :
  parse_all_unp_qr_contents qr_strings = [] <->
  forall s, In s qr_strings -> parse_unp_qr_content s = None.
Proof.
  rewrite parse_all_spec. split.
  - intros E s Hs. destruct (parse_unp_qr_content s) as [p|] eqn:P;
      [|reflexivity].
    assert (K : In p (survivors qr_strings))
      by (apply survivors_In; now exists s).
    destruct (survivors qr_strings) as [|q t]; [destruct K|].
    cbn [first_of_each_key existsb] in E. discriminate E.
  - intros H.
    assert (K : survivors qr_strings = []).
    { destruct (survivors qr_strings) as [|q t] eqn:E; [reflexivity|].
      assert (Hq : In q (survivors qr_strings)) by (rewrite E; now left).
      apply survivors_In in Hq as (s & Hs & P).
      rewrite (H s Hs) in P. discriminate P. }
    now rewrite K.
Qed.

Lemma take_length (n : nat) (s : str) : (length (take n s) <= n)%nat.
Proof. unfold take. rewrite length_firstn. lia. Qed.

Lemma firstn_take_app (n : nat) (s x : str) :
  (n <= length s)%nat -> firstn n (take n s ++ x) = firstn n s.
Proof.
  intros H. unfold take.
  rewrite firstn_app, firstn_firstn, length_firstn.
  replace (n - Nat.min n (length s))%nat with 0%nat by lia.
  cbn [firstn]. rewrite app_nil_r. f_equal. lia.
Qed.

Lemma parse_all_some_iff (qr_strings : list str) :
  parse_all_unp_qr_contents qr_strings <> [] <->
  exists s, In s qr_strings /\ parse_unp_qr_content s <> None.
Proof.
  rewrite parse_all_nil_iff. split.
  - induction qr_strings as [|s rest IH]; intros K.
    + exfalso. apply K. intros s [].
    + destruct (parse_unp_qr_content s) eqn:P.
      * exists s. split; [now left | congruence].
      * destruct IH as (x & Hx & Px).
        -- intros J. apply K. intros y [<-|Hy]; [exact P | now apply J].
        -- exists x. split; [now right | exact Px].
  - intros (s & Hs & P) K. now apply P, K.
Qed.

End PdfIoProperties.

(** X20. The six replacements of [_ascii_slovenian], made one after the
    other, amount to one pass that turns each of the letters c, s and z with
    caron, small or capital, into its plain letter: the length stays, none
    of the six letters is left, a second call changes nothing, and a text
    without them comes back as it is. *)
Theorem ascii_slovenian_spec (s : str) :
  pdf_io._ascii_slovenian s = List.map translate_char s /\
  length (pdf_io._ascii_slovenian s) = length s /\
  (forall c, In c (pdf_io._ascii_slovenian s) -> ~ In c carons) /\
  pdf_io._ascii_slovenian (pdf_io._ascii_slovenian s)
    = pdf_io._ascii_slovenian s /\
  ((forall c, In c s -> ~ In c carons) -> pdf_io._ascii_slovenian s = s).
Proof.
  rewrite !ascii_slovenian_map. split; [reflexivity|].
  split; [apply length_map|]. split; [|split].
  - intros c Hc. apply in_map_iff in Hc as (x & <- & _).
    apply translate_char_no_caron.
  - rewrite map_map. apply map_ext. apply translate_char_idem.
  - intros H. rewrite <- (map_id s) at 2. apply map_ext_in.
    intros c Hc. apply translate_char_fixed. now apply H.
Qed.

(** X21. When no recipient name and no reference holds a line feed, the
    register text has one line for each entry of its list of lines,
    whatever the text of the total is, as long as it holds no line feed:
    four lines of heading, one row for each payment in the order of the
    payments, numbered from 1, a rule and the line of the total. *)
Theorem register_text_lines (total_text : str) (payments : list UPNPayment) :
  ~ In NL total_text ->
  (forall p, In p payments ->
             ~ In NL (recipient_name p) /\ ~ In NL (reference p)) ->
  let lines :=
    split_on NL
      (pdf_io.format_payment_register_text_with total_text payments) in
  length lines = (length payments + 6)%nat /\
  firstn 4 lines =
    [lit "Payment register"; [];
     lit "#" ++ [TAB] ++ lit "Recipient" ++ [TAB] ++ lit "Reference" ++ [TAB]
       ++ lit "Amount (EUR)";
     repeat 45 60] /\
  (forall k p, nth_error payments k = Some p ->
     nth (4 + k) lines [] = pdf_io.register_row (S k) p) /\
  nth (4 + length payments) lines [] = repeat 45 60 /\
  last lines [] = lit "TOTAL" ++ [TAB; TAB; TAB] ++ total_text.
Proof.
  intros Ht H lines. unfold lines.
  rewrite (register_text_with_splits total_text payments Ht H).
  split; [apply register_lines_with_length|]. split; [reflexivity|].
  split; [intros k p; apply register_lines_with_row|]. split.
  - unfold pdf_io.register_lines_with.
    rewrite app_nth2 by (simpl; lia).
    replace (4 + length payments - length _)%nat with (length payments)
      by (simpl; lia).
    rewrite app_nth2 by (rewrite register_rows_length; lia).
    rewrite register_rows_length, Nat.sub_diag. reflexivity.
  - unfold pdf_io.register_lines_with. rewrite !app_assoc.
    match goal with
    | |- last (?a ++ [?r; ?t]) _ = _ =>
        change (a ++ [r; t]) with (a ++ [r] ++ [t]);
        rewrite (app_assoc a [r] [t]); apply last_last
    end.
Qed.

Lemma register_text_lines_witness :
  let lines :=
    split_on NL
      (pdf_io.format_payment_register_text_with (lit "28.74")
         [scenario_record [] []]) in
  length lines = (length [scenario_record [] []] + 6)%nat /\
  firstn 4 lines =
    [lit "Payment register"; [];
     lit "#" ++ [TAB] ++ lit "Recipient" ++ [TAB] ++ lit "Reference" ++ [TAB]
       ++ lit "Amount (EUR)";
     repeat 45 60] /\
  (forall k p, nth_error [scenario_record [] []] k = Some p ->
     nth (4 + k) lines [] = pdf_io.register_row (S k) p) /\
  nth (4 + length [scenario_record [] []]) lines [] = repeat 45 60 /\
  last lines [] = lit "TOTAL" ++ [TAB; TAB; TAB] ++ lit "28.74".
Proof.
  apply (register_text_lines (lit "28.74") [scenario_record [] []]).
  - vm_compute. intuition discriminate.
  - intros p [<-|[]]. split; vm_compute; intuition discriminate.
Defined.

(** X22. The register of the payments read from QR codes always splits into
    its lines: whatever the strings of the codes are, the text for the
    payments [parse_all_unp_qr_contents] returns has six lines more than
    there are payments, and the row of the k-th payment is line 4 + k. *)
Theorem register_of_parsed (qr_strings : list str) :
  let payments := unp_qr_decode.parse_all_unp_qr_contents qr_strings in
  length (split_on NL (pdf_io.format_payment_register_text payments)) =
    (length payments + 6)%nat /\
  (length (split_on NL (pdf_io.format_payment_register_text payments))
   <= length qr_strings + 6)%nat /\
  (forall k p, nth_error payments k = Some p ->
     nth (4 + k) (split_on NL (pdf_io.format_payment_register_text payments)) []
     = pdf_io.register_row (S k) p).
Proof.
  intros payments.
  assert (H : forall p, In p payments ->
                ~ In NL (recipient_name p) /\ ~ In NL (reference p))
    by (intros p; apply parsed_no_nl).
  rewrite (register_text_splits payments H), register_lines_length.
  split; [reflexivity|]. split.
  - unfold payments. rewrite parse_all_spec.
    pose proof (first_of_each_key_length (survivors qr_strings) []).
    pose proof (survivors_length qr_strings). lia.
  - intros k p Hk. now apply register_lines_with_row.
Qed.

(** X23. [process_pdf] raises its [ValueError] exactly when none of the
    strings parses: with the message about no QR codes exactly when there
    is no string at all, and otherwise with the count of the strings, a
    first line without line feed and a preview of at most 203 characters
    that opens as the first string does. When a string parses,
    [build_output_pdf] is called with the payments of
    [parse_all_unp_qr_contents], which are not empty, and [process_pdf]
    returns these payments if that call returns and fails with it if it
    raises. *)
Theorem process_pdf_outcome (build_output_pdf : list UPNPayment -> bool)
        (qr_strings : list str) :
  let payments := unp_qr_decode.parse_all_unp_qr_contents qr_strings in
  let outcome := pdf_io.process_pdf build_output_pdf qr_strings in
  ((exists e, outcome = pdf_io.Raised e) <->
   forall s, In s qr_strings ->
             unp_qr_decode.parse_unp_qr_content s = None) /\
  (outcome = pdf_io.Raised pdf_io.NoQRCodes <-> qr_strings = []) /\
  (forall n first_line preview,
      outcome = pdf_io.Raised (pdf_io.NotUPN n first_line preview) ->
      n = length qr_strings /\ (0 < n)%nat /\
      ~ In NL first_line /\
      (length preview <= 203)%nat /\
      firstn 200 preview = firstn 200 (nth 0 qr_strings [])) /\
  ((exists s, In s qr_strings /\
              unp_qr_decode.parse_unp_qr_content s <> None) ->
   payments <> [] /\
   outcome = if build_output_pdf payments
             then pdf_io.Returned payments else pdf_io.BuildFailed) /\
  (forall returned,
      outcome = pdf_io.Returned returned ->
      returned = payments /\ returned <> [] /\
      build_output_pdf returned = true).
Proof.
  intros payments outcome. unfold outcome, payments, pdf_io.process_pdf.
  pose proof (parse_all_some_iff qr_strings) as Z.
  pose proof (parse_all_nil_iff qr_strings) as Z0.
  destruct (unp_qr_decode.parse_all_unp_qr_contents qr_strings)
    as [|p0 ps] eqn:E.
  - split.
    { split; [intros _; now apply Z0 |].
      intros _. destruct qr_strings; now eexists. }
    split.
    { destruct qr_strings; split; intros K; try reflexivity; discriminate K. }
    split.
    { intros n first_line preview H.
      destruct qr_strings as [|s0 rest]; [discriminate H|].
      match type of H with
      | pdf_io.Raised (pdf_io.NotUPN _ ?b ?c) = _ =>
          remember b as fl eqn:Efl; remember c as pv eqn:Epv
      end.
      injection H as <- <- <-. split; [reflexivity|].
      split; [cbn [length]; lia|]. split; [|split].
      - rewrite Efl. destruct (truthy (strip s0)); [|intros []].
        destruct (split_on NL (strip s0)) as [|h t] eqn:S; [intros []|].
        cbn [nth]. apply (split_on_no_sep NL (strip s0)).
        rewrite S. now left.
      - rewrite Epv.
        destruct (Nat.ltb 200 (length s0)) eqn:L;
          [|apply Nat.ltb_ge in L; lia].
        rewrite length_app.
        apply (Nat.add_le_mono _ 200 _ 3); [apply take_length | apply le_n].
      - rewrite Epv. cbn [nth].
        destruct (Nat.ltb 200 (length s0)) eqn:L; [|reflexivity].
        apply Nat.ltb_lt in L. apply firstn_take_app. lia. }
    split.
    { intros K. apply Z in K. congruence. }
    intros returned H. destruct qr_strings; discriminate H.
  - assert (NE : exists s, In s qr_strings /\
                           unp_qr_decode.parse_unp_qr_content s <> None)
      by (apply Z; discriminate).
    split.
    { split.
      - intros (e & K). destruct (build_output_pdf (p0 :: ps)); discriminate K.
      - intros K. apply Z0 in K. discriminate K. }
    split.
    { split.
      - intros K. destruct (build_output_pdf (p0 :: ps)); discriminate K.
      - intros ->. vm_compute in E. discriminate E. }
    split.
    { intros n first_line preview K.
      destruct (build_output_pdf (p0 :: ps)); discriminate K. }
    split.
    { intros _. split; [discriminate | reflexivity]. }
    intros returned K.
    destruct (build_output_pdf (p0 :: ps)) eqn:B; [|discriminate K].
    injection K as <-. split; [reflexivity|]. split; [discriminate | exact B].
Qed.

(** * The configuration of the mail service ([service/mail_service.py])

    The environment, [int] and [str.lower] are outside the model: the
    functions below are what the source does with them. *)

Module mail_service.

(** Why [get_config] fails: the [RuntimeError] of [_env], or the
    [ValueError] of [int] on the text of a number. *)
Inductive config_error :=
| MissingEnv (name : str)
| BadInt (text : str).

Definition result (A : Type) : Type := (config_error + A)%type.

Definition bind {A B} (m : result A) (k : A -> result B) : result B :=
  match m with
  | inl e => inl e
  | inr a => k a
  end.

Notation "x <- m ;; k" := (bind m (fun x => k))
  (at level 61, m at next level, right associativity).

Record config := mk_config {
  imap_host : str;
  imap_port : Z;
  imap_user : str;
  imap_password : str;
  imap_mailbox : str;
  smtp_host : str;
  smtp_port : Z;
  smtp_user : str;
  smtp_password : str;
  smtp_use_tls : bool;
  from_email : str;
  poll_interval : Z
}.

(** The names [_env] insists on. *)
Definition required_names : list str :=
  List.map lit
    ["IMAP_HOST"; "IMAP_USER"; "IMAP_PASSWORD";
     "SMTP_HOST"; "SMTP_USER"; "SMTP_PASSWORD"]%string.

Section Config.

(** [os.environ.get(name)] *)
Variable environ : str -> option str.
(** [int(text)]; [None] is [ValueError]. *)
Variable py_int : str -> option Z.
(** [text.lower()] *)
Variable py_lower : str -> str.

(** [os.environ.get(name, default).strip()] *)
Definition env_value (name default : str) : str :=
  strip (match environ name with Some x => x | None => default end).

Definition _env (name default : str) : result str :=
  let v := env_value name default in
  if negb (truthy v) && existsb (str_eqb name) required_names
  then inl (MissingEnv name)
  else inr v.

Definition to_int (text : str) : result Z :=
  match py_int text with
  | Some n => inr n
  | None => inl (BadInt text)
  end.

(** The entries of the dictionary, in the order they are evaluated. *)
Definition get_config : result config :=
  imap_host <- _env (lit "IMAP_HOST") [] ;;
  imap_port <- (v <- _env (lit "IMAP_PORT") (lit "993") ;; to_int v) ;;
  imap_user <- _env (lit "IMAP_USER") [] ;;
  imap_password <- _env (lit "IMAP_PASSWORD") [] ;;
  imap_mailbox <- _env (lit "IMAP_MAILBOX") (lit "INBOX") ;;
  smtp_host <- _env (lit "SMTP_HOST") [] ;;
  smtp_port <- (v <- _env (lit "SMTP_PORT") (lit "587") ;; to_int v) ;;
  smtp_user <- _env (lit "SMTP_USER") [] ;;
  smtp_password <- _env (lit "SMTP_PASSWORD") [] ;;
  smtp_use_tls <-
    (v <- _env (lit "SMTP_USE_TLS") (lit "1") ;;
     inr (existsb (str_eqb (py_lower v))
            [lit "1"; lit "true"; lit "yes"])) ;;
  from_email <-
    (d <- _env (lit "IMAP_USER") [] ;; _env (lit "FROM_EMAIL") d) ;;
  poll_interval <- (v <- _env (lit "POLL_INTERVAL") (lit "60") ;; to_int v) ;;
  inr (mk_config imap_host imap_port imap_user imap_password imap_mailbox
         smtp_host smtp_port smtp_user smtp_password smtp_use_tls
         from_email poll_interval).

End Config.

End mail_service.

Section MailConfigProperties.
Import mail_service.

Variable environ : str -> option str.
Variable py_int : str -> option Z.
Variable py_lower : str -> str.

Lemma env_required (name default : str) :
  existsb (str_eqb name) required_names = true ->
  _env environ name default =
  if truthy (env_value environ name default)
  then inr (env_value environ name default)
  else inl (MissingEnv name).
Proof.
  intros H. unfold _env. rewrite H.
  now destruct (truthy (env_value environ name default)).
Qed.

Lemma env_optional (name default : str) :
  existsb (str_eqb name) required_names = false ->
  _env environ name default = inr (env_value environ name default).
Proof.
  intros H. unfold _env. rewrite H. now rewrite andb_false_r.
Qed.

Lemma env_stripped (name default v : str) :
  _env environ name default = inr v ->
  v = env_value environ name default /\ strip v = v.
Proof.
  unfold _env. destruct (_ && _); [discriminate|]. intros [= <-].
  split; [reflexivity|]. unfold env_value. apply strip_idem.
Qed.

Lemma env_missing (name default : str) (e : config_error) :
  _env environ name default = inl e ->
  e = MissingEnv name /\ In name required_names /\
  env_value environ name default = [].
Proof.
  unfold _env.
  destruct (negb (truthy (env_value environ name default))
            && existsb (str_eqb name) required_names) eqn:G; [|discriminate].
  intros [= <-]. apply andb_true_iff in G as [G1 G2].
  split; [reflexivity|]. split.
  - apply existsb_exists in G2 as (x & Hx & E).
    apply str_eqb_eq in E. now subst x.
  - apply negb_true_iff in G1. unfold truthy in G1.
    apply negb_false_iff in G1. now apply str_eqb_eq in G1.
Qed.

End MailConfigProperties.

Section MailConfigSteps.
Import mail_service.

Lemma truthy_false (s : str) : truthy s = false <-> s = [].
Proof.
  unfold truthy. rewrite negb_false_iff. apply str_eqb_eq.
Qed.

Lemma required_In (name : str) :
  existsb (str_eqb name) required_names = true -> In name required_names.
Proof.
  intros H. apply existsb_exists in H as (x & Hx & E).
  apply str_eqb_eq in E. now subst x.
Qed.

End MailConfigSteps.

(** A required variable is missing: [get_config] ends here. *)
Ltac config_missing T :=
  split; [intros ? K; discriminate K|];
  split;
    [intros ? K; injection K as <-;
     split; [apply required_In; reflexivity | now apply truthy_false]|];
  split;
    [intros (? & K); discriminate K
    |intros (R & _); exfalso;
     match type of T with
     | truthy (_ ?n _) = false =>
         apply (R n); [apply required_In; reflexivity | now apply truthy_false]
     end].

(** [int] refused a number: [get_config] ends here. *)
Ltac config_bad_int :=
  split; [intros ? K; discriminate K|];
  split; [intros ? K; discriminate K|];
  split; [intros (? & K); discriminate K | intros (_ & ? & ? & ?); congruence].


(** X24. [get_config] succeeds exactly when the six required variables are
    set to something that is not blank and the three numbers are accepted
    by [int]. Its texts are the trimmed values of the variables, with
    [INBOX] for a mailbox that is not set; the sender is the trimmed
    [FROM_EMAIL] when that variable is set, even to a blank, and the IMAP
    user only when it is not set. A [RuntimeError] names a required variable
    whose trimmed value is empty. *)
Theorem get_config_spec (environ : str -> option str)
        (py_int : str -> option Z) (py_lower : str -> str) :
  let value := mail_service.env_value environ in
  let outcome := mail_service.get_config environ py_int py_lower in
  (forall cfg, outcome = inr cfg ->
     mail_service.imap_host cfg = value (lit "IMAP_HOST") [] /\
     mail_service.imap_user cfg = value (lit "IMAP_USER") [] /\
     mail_service.imap_password cfg = value (lit "IMAP_PASSWORD") [] /\
     mail_service.smtp_host cfg = value (lit "SMTP_HOST") [] /\
     mail_service.smtp_user cfg = value (lit "SMTP_USER") [] /\
     mail_service.smtp_password cfg = value (lit "SMTP_PASSWORD") [] /\
     mail_service.imap_mailbox cfg = value (lit "IMAP_MAILBOX") (lit "INBOX") /\
     mail_service.from_email cfg =
       value (lit "FROM_EMAIL") (mail_service.imap_user cfg) /\
     py_int (value (lit "IMAP_PORT") (lit "993"))
       = Some (mail_service.imap_port cfg) /\
     py_int (value (lit "SMTP_PORT") (lit "587"))
       = Some (mail_service.smtp_port cfg) /\
     py_int (value (lit "POLL_INTERVAL") (lit "60"))
       = Some (mail_service.poll_interval cfg) /\
     mail_service.smtp_use_tls cfg =
       existsb (str_eqb (py_lower (value (lit "SMTP_USE_TLS") (lit "1"))))
         [lit "1"; lit "true"; lit "yes"]) /\
  (forall name, outcome = inl (mail_service.MissingEnv name) ->
     In name mail_service.required_names /\ value name [] = []) /\
  ((exists cfg, outcome = inr cfg) <->
   (forall name, In name mail_service.required_names -> value name [] <> []) /\
   py_int (value (lit "IMAP_PORT") (lit "993")) <> None /\
   py_int (value (lit "SMTP_PORT") (lit "587")) <> None /\
   py_int (value (lit "POLL_INTERVAL") (lit "60")) <> None).
Proof.
  intros value outcome. unfold outcome, mail_service.get_config.
  rewrite !(env_required environ (lit "IMAP_HOST")) by reflexivity.
  rewrite !(env_required environ (lit "IMAP_USER")) by reflexivity.
  rewrite !(env_required environ (lit "IMAP_PASSWORD")) by reflexivity.
  rewrite !(env_required environ (lit "SMTP_HOST")) by reflexivity.
  rewrite !(env_required environ (lit "SMTP_USER")) by reflexivity.
  rewrite !(env_required environ (lit "SMTP_PASSWORD")) by reflexivity.
  rewrite !(env_optional environ (lit "IMAP_PORT")) by reflexivity.
  rewrite !(env_optional environ (lit "IMAP_MAILBOX")) by reflexivity.
  rewrite !(env_optional environ (lit "SMTP_PORT")) by reflexivity.
  rewrite !(env_optional environ (lit "SMTP_USE_TLS")) by reflexivity.
  rewrite !(env_optional environ (lit "POLL_INTERVAL")) by reflexivity.
  fold value. unfold mail_service.to_int.
  destruct (truthy (value (lit "IMAP_HOST") [])) eqn:T1;
    cbn [mail_service.bind]; [|config_missing T1].
  destruct (py_int (value (lit "IMAP_PORT") (lit "993"))) as [n1|] eqn:E1;
    cbn [mail_service.bind]; [|config_bad_int].
  destruct (truthy (value (lit "IMAP_USER") [])) eqn:T2;
    cbn [mail_service.bind]; [|config_missing T2].
  destruct (truthy (value (lit "IMAP_PASSWORD") [])) eqn:T3;
    cbn [mail_service.bind]; [|config_missing T3].
  destruct (truthy (value (lit "SMTP_HOST") [])) eqn:T4;
    cbn [mail_service.bind]; [|config_missing T4].
  destruct (py_int (value (lit "SMTP_PORT") (lit "587"))) as [n2|] eqn:E2;
    cbn [mail_service.bind]; [|config_bad_int].
  destruct (truthy (value (lit "SMTP_USER") [])) eqn:T5;
    cbn [mail_service.bind]; [|config_missing T5].
  destruct (truthy (value (lit "SMTP_PASSWORD") [])) eqn:T6;
    cbn [mail_service.bind]; [|config_missing T6].
  rewrite (env_optional environ (lit "FROM_EMAIL")) by reflexivity.
  fold value. cbn [mail_service.bind].
  destruct (py_int (value (lit "POLL_INTERVAL") (lit "60"))) as [n3|] eqn:E3;
    cbn [mail_service.bind]; [|config_bad_int].
  split; [intros cfg [= <-]; now repeat split|].
  split; [intros name K; discriminate K|].
  split; [intros _ | intros _; now eexists].
  split; [|repeat split; congruence].
  intros name Hn. unfold mail_service.required_names in Hn.
  cbn [List.map In] in Hn. apply truthy_true.
  destruct Hn as [<-|[<-|[<-|[<-|[<-|[<-|[]]]]]]]; assumption.
Qed.

Lemma get_config_blank_sender_example :
  let environ name :=
    if existsb (str_eqb name) mail_service.required_names then Some (lit " x ")
    else if str_eqb name (lit "FROM_EMAIL") then Some (lit "  ")
    else None in
  let py_int text :=
    if forallb is_decimal text && negb (str_eqb text [])
    then Some (int_of_digits text) else None in
  exists cfg,
    mail_service.get_config environ py_int (fun s => s) = inr cfg /\
    mail_service.imap_user cfg = lit "x" /\
    mail_service.imap_mailbox cfg = lit "INBOX" /\
    mail_service.imap_port cfg = 993%Z /\
    mail_service.smtp_use_tls cfg = true /\
    mail_service.from_email cfg = [].
Proof.
  eexists. split; [vm_compute; reflexivity|]. now repeat split.
Qed.

(** ** Amounts as the payment orders print them *)

(** An amount of [n] hundredths as the orders print it: [k] asterisks, then
    the number with a comma before the two decimals. *)
Definition printed_amount (k : nat) (n : Z) : str :=
  repeat 42 k ++
  List.map (fun c => if c =? 46 then 44 else c) (format_2f (n # 100)).

Section PrintedAmounts.
Import upn_parser.

Lemma matches_star_of (f : char -> bool) (s : str) :
  forallb f s = true -> matches (Rstar (Rclass f)) s.
Proof.
  induction s as [|c s IH]; [constructor|]. cbn [forallb]. intros H.
  apply andb_true_iff in H as [Hc Hs].
  change (c :: s) with ([c] ++ s).
  apply MStarApp; [now constructor | now apply IH].
Qed.

Lemma matches_plus_of (f : char -> bool) (s : str) :
  s <> [] -> forallb f s = true -> matches (Rplus (Rclass f)) s.
Proof.
  destruct s as [|c s]; [congruence|]. intros _. cbn [forallb]. intros H.
  apply andb_true_iff in H as [Hc Hs].
  change (c :: s) with ([c] ++ s). unfold Rplus.
  apply MSeq; [now constructor | now apply matches_star_of].
Qed.

Lemma map_fixed (f : char -> char) (s : str) :
  (forall c, In c s -> f c = c) -> List.map f s = s.
Proof.
  intros H. rewrite <- (map_id s) at 2. now apply map_ext_in.
Qed.

Lemma forallb_repeat (f : char -> bool) (c : char) (k : nat) :
  f c = true -> forallb f (repeat c k) = true.
Proof.
  intros H. induction k as [|k IH]; [reflexivity|]. simpl. now rewrite H, IH.
Qed.

(** The printed amount, piece by piece. *)
Lemma printed_amount_eq (k : nat) (n : Z) :
  (0 <= n)%Z ->
  exists ds d1 d2,
    ds <> [] /\ forallb is_decimal ds = true /\
    is_decimal d1 = true /\ is_decimal d2 = true /\
    format_2f (n # 100) = ds ++ [(46 : char); d1; d2] /\
    printed_amount k n = repeat 42 k ++ ds ++ [(44 : char); d1; d2].
Proof.
  intros Hn. unfold printed_amount. rewrite format_2f_hundredths by exact Hn.
  assert (Hq : (0 <= n / 100)%Z) by (apply Z.div_pos; lia).
  destruct (str_of_Z_spec (n / 100) Hq) as (S1 & S2 & _).
  pose proof (Z.mod_pos_bound n 100 ltac:(lia)) as Hm.
  assert (H1 : (0 <= n mod 100 / 10 <= 9)%Z).
  { split; [apply Z.div_pos; lia|].
    assert (n mod 100 / 10 < 10)%Z by (apply Z.div_lt_upper_bound; lia). lia. }
  assert (H2 : (0 <= n mod 10 <= 9)%Z)
    by (pose proof (Z.mod_pos_bound n 10); lia).
  destruct (digit_char _ H1) as [D1 _]. destruct (digit_char _ H2) as [D2 _].
  exists (str_of_Z (n / 100)), (48 + Z.to_N (n mod 100 / 10)),
    (48 + Z.to_N (n mod 10)).
  repeat split; try assumption.
  f_equal. rewrite map_app. f_equal.
  - apply map_fixed. intros c Hc. rewrite forallb_forall in S2.
    specialize (S2 c Hc). apply is_decimal_cases in S2.
    destruct (N.eqb_spec c 46); [lia | reflexivity].
  - apply is_decimal_cases in D1, D2. cbn [map].
    destruct (N.eqb_spec (48 + Z.to_N (n mod 100 / 10)) 46); [lia|].
    destruct (N.eqb_spec (48 + Z.to_N (n mod 10)) 46); [lia|]. reflexivity.
Qed.

End PrintedAmounts.

(** X25. An amount printed the way the payment orders print it is read
    back: for [n] hundredths of at most eleven digits, the range of the QR
    amounts, in which a double holds the amount to the hundredth, any number
    of asterisks followed by the number with a decimal comma parses to
    [n / 100], and with at least one asterisk the line is one the parsers
    take for an amount line. *)
Theorem parse_amount_round_trip (k : nat) (n : Z) :
  (0 <= n < 10 ^ 11)%Z ->
  upn_parser._parse_amount (printed_amount k n) = Some (n # 100) /\
  ((1 <= k)%nat ->
   re_match upn_parser.amount_re (printed_amount k n) = true).
Proof.
  intros [Hn _].
  destruct (printed_amount_eq k n Hn)
    as (ds & d1 & d2 & N0 & Dds & D1 & D2 & F & P).
  rewrite P.
  assert (Stars : forallb (N.eqb 42) (repeat 42 k) = true)
    by now apply forallb_repeat.
  destruct (decimal_facts d1 D1) as (S1 & A1 & C1 & _).
  destruct (decimal_facts d2 D2) as (S2 & A2 & C2 & _).
  split.
  - unfold upn_parser._parse_amount.
    rewrite strip_no_space.
    2:{ rewrite !forallb_app. apply andb_true_iff. split.
        - apply forallb_repeat. reflexivity.
        - apply andb_true_iff. split; [now apply decimal_not_space|].
          cbn [forallb]. now rewrite S1, S2. }
    rewrite drop_while_all by exact Stars.
    destruct ds as [|d0 ds]; [congruence|].
    pose proof Dds as Dds'. cbn [forallb] in Dds'.
    apply andb_true_iff in Dds' as [D0 _].
    destruct (decimal_facts d0 D0) as (_ & A0 & _).
    cbn [app drop_while]. rewrite (N.eqb_sym 42 d0), A0.
    cbn [app] in F. rewrite <- (float_of_formatted n Hn), F.
    f_equal. change (d0 :: ds ++ [44; d1; d2])
      with ((d0 :: ds) ++ [(44 : char); d1; d2]).
    change (d0 :: ds ++ [46; d1; d2])
      with ((d0 :: ds) ++ [(46 : char); d1; d2]).
    rewrite map_app. f_equal.
    + apply map_fixed. intros c Hc. rewrite forallb_forall in Dds.
      specialize (Dds c Hc).
      now destruct (decimal_facts c Dds) as (_ & _ & -> & _).
    + cbn [map]. now rewrite C1, C2.
  - intros Hk. unfold re_match. apply orb_true_iff. left.
    apply accepts_iff. unfold upn_parser.amount_re.
    apply MSeq.
    { apply matches_plus_of; [|exact Stars].
      destruct k; [lia | discriminate]. }
    change (ds ++ [44; d1; d2])
      with ([] ++ ds ++ [(44 : char)] ++ ([d1] ++ [d2] ++ []) ++ []).
    apply MSeq; [constructor|].
    apply MSeq; [now apply matches_plus_of|].
    apply MSeq; [now constructor|].
    apply MSeq; [|constructor].
    cbn [Rrep]. apply MSeq; [now constructor|].
    apply MSeq; [now constructor | constructor].
Qed.

Lemma parse_amount_round_trip_witness :
  upn_parser._parse_amount (printed_amount 3 2874) = Some (2874 # 100) /\
  ((1 <= 3)%nat ->
   re_match upn_parser.amount_re (printed_amount 3 2874) = true).
Proof.
  apply (parse_amount_round_trip 3 2874). lia.
Defined.

(** ** No payment twice in the second and the fallback parser *)

Section TextDedup.
Import upn_parser.

(** The key under which a record is remembered. *)
Definition key_of (p : UPNPayment) : key := (iban p, reference p, amount p).

Lemma key_of_eqb (p q : UPNPayment) :
  key_eqb (key_of p) (key_of q) = unp_qr_decode.key_eqb p q.
Proof. reflexivity. Qed.

(** What [add_unseen] keeps true: [seen] holds the keys of the payments,
    and no two payments share a key. *)
Definition dedup_inv (a : acc) : Prop :=
  fst a = rev (List.map key_of (snd a)) /\ distinct_keys (snd a).

Lemma distinct_keys_snoc (l : list UPNPayment) (p : UPNPayment) :
  distinct_keys l ->
  Forall (fun q => unp_qr_decode.key_eqb q p = false) l ->
  distinct_keys (l ++ [p]).
Proof.
  induction l as [|a l IH]; intros D F; [simpl; auto|].
  cbn [app distinct_keys] in *. destruct D as [Da Dl].
  inversion F as [|? ? Fa Fl]; subst. split; [|now apply IH].
  apply Forall_app. split; [exact Da | now repeat constructor].
Qed.

Lemma add_unseen_dedup (a : acc) (p : UPNPayment) :
  dedup_inv a -> dedup_inv (add_unseen a (key_of p) p).
Proof.
  destruct a as [seen payments]. unfold dedup_inv, add_unseen.
  cbn [fst snd]. intros [S D].
  destruct (existsb (key_eqb (key_of p)) seen) eqn:E; cbn [fst snd];
    [now split|].
  split.
  - rewrite map_app, rev_app_distr. cbn [map rev app]. now rewrite S.
  - apply distinct_keys_snoc; [exact D|].
    apply Forall_forall. intros q Hq.
    destruct (unp_qr_decode.key_eqb q p) eqn:K; [|reflexivity].
    assert (X : existsb (key_eqb (key_of p)) seen = true).
    { apply existsb_exists. exists (key_of q). split.
      - rewrite S. apply -> in_rev. now apply in_map.
      - rewrite key_of_eqb. now rewrite key_eqb_sym. }
    congruence.
Qed.

Lemma step_v2_dedup (above : list str) (line : str) (after : list str)
      (a : acc) :
  dedup_inv a -> dedup_inv (step_v2 above line after a).
Proof.
  intros Ha. unfold step_v2.
  destruct (negb (re_match si19_re _)); [exact Ha|].
  destruct after as [|l1 rest]; [exact Ha|].
  destruct (negb (re_match amount_re l1)); [exact Ha|].
  destruct (_parse_amount l1) as [amount_val|]; [|exact Ha].
  destruct (Qle_bool amount_val 0); [exact Ha|].
  destruct (negb (nonempty _)); [exact Ha|].
  destruct (scan_names_v2 _ _ _ _ _) as [[name_lines purp] payer].
  match goal with
  | |- dedup_inv (add_unseen _ _ ?p) => exact (add_unseen_dedup a p Ha)
  end.
Qed.

Lemma loop_v2_dedup (lines : list str) :
  forall above a, dedup_inv a -> dedup_inv (loop_v2 above lines a).
Proof.
  induction lines as [|line after IH]; simpl; intros above a Ha; [exact Ha|].
  apply IH. now apply step_v2_dedup.
Qed.

Lemma step_fb_dedup (line : str) (after : list str) (a : acc) :
  dedup_inv a -> dedup_inv (step_fb line after a).
Proof.
  intros Ha. unfold step_fb.
  destruct (negb (re_match amount_re line)); [exact Ha|].
  destruct (_parse_amount line) as [amount_val|]; [|exact Ha].
  destruct (Qle_bool amount_val 0); [exact Ha|].
  destruct (find_iban_ref _ _) as [ib ref_si19].
  destruct (negb (nonempty ib) || negb (nonempty ref_si19)); [exact Ha|].
  destruct (scan_names_fb _ _) as [name_lines purp].
  match goal with
  | |- dedup_inv (add_unseen _ _ ?p) => exact (add_unseen_dedup a p Ha)
  end.
Qed.

Lemma loop_fb_dedup (lines : list str) :
  forall a, dedup_inv a -> dedup_inv (loop_fb lines a).
Proof.
  induction lines as [|line after IH]; simpl; intros a Ha; [exact Ha|].
  apply IH. now apply step_fb_dedup.
Qed.

End TextDedup.

(** X26. The second parser and the fallback parser return no payment
    twice: no two of their records share the key (iban, reference,
    amount). *)
Theorem text_parsers_distinct_keys (text : str) :
  distinct_keys (upn_parser.extract_upn_payments_v2 text) /\
  distinct_keys (upn_parser.extract_upn_payments_from_text_fallback text).
Proof.
  assert (I0 : dedup_inv ([], [])) by (split; [reflexivity | exact I]).
  split.
  - exact (proj2 (loop_v2_dedup (upn_parser.text_lines text) [] _ I0)).
  - exact (proj2 (loop_fb_dedup (upn_parser.text_lines text) _ I0)).
Qed.
